(** * Location flags for displayed handles: a model of the content script

    The development embeds the three scripts of the extension
    ([countryFlags.js], [content.js] and the message interface of
    [pageScript.js]) as Rocq functions over an explicit state, and proves
    the properties of the flag table, of the persistent cache, of the
    request queue and of the annotator.

    JavaScript strings are modelled by [string], holding the UTF-8 bytes
    of the text; numbers that the scripts use as integers (epoch
    milliseconds, epoch seconds, counters) are modelled by [Z]. *)

From Stdlib Require Import ZArith Ascii String List Lia Bool.
From stdpp Require Import base option list gmap strings.

Local Open Scope Z_scope.
Set Warnings "-register-all".

(** ** JavaScript strings *)

Module Js.

(** [String.prototype.toLowerCase] on one byte of Basic Latin. *)
Definition lower_ascii (c : ascii) : ascii :=
  let n := Ascii.N_of_ascii c in
  if ((65 <=? n) && (n <=? 90))%N then Ascii.ascii_of_N (n + 32) else c.

(** [String.prototype.toLowerCase]. The capitals of Basic Latin go to
    their small letters, and KELVIN SIGN (U+212A, bytes E2 84 AA) goes to
    [k]: it is the only code point outside Basic Latin whose lower case
    lies inside it. Every other code point outside Basic Latin is left as
    it is; its real lower case is again outside Basic Latin, so the model
    agrees with the script on every comparison one side of which is an
    ASCII string, as the keys of the flag table are. *)
Fixpoint toLowerCase (s : string) : string :=
  match s with
  | EmptyString => EmptyString
  | String c s1 =>
      match s1 with
      | String c2 (String c3 s3) =>
          if (Ascii.eqb c "226" && Ascii.eqb c2 "132" && Ascii.eqb c3 "170")%char
          then String "k"%char (toLowerCase s3)
          else String (lower_ascii c) (toLowerCase s1)
      | _ => String (lower_ascii c) (toLowerCase s1)
      end
  end.

(** The code points [String.prototype.trim] removes (WhiteSpace and
    LineTerminator of ECMAScript), as UTF-8 byte sequences. *)
Definition ws1 (c : ascii) : bool :=
  let n := Ascii.N_of_ascii c in ((9 <=? n) && (n <=? 13) || (n =? 32))%N.

Definition ws2 (c1 c2 : ascii) : bool :=
  (Ascii.N_of_ascii c1 =? 194)%N && (Ascii.N_of_ascii c2 =? 160)%N.

Definition ws3 (c1 c2 c3 : ascii) : bool :=
  let a := Ascii.N_of_ascii c1 in
  let b := Ascii.N_of_ascii c2 in
  let c := Ascii.N_of_ascii c3 in
  ((a =? 225) && (b =? 154) && (c =? 128)                        (* U+1680 *)
   || (a =? 226) && (b =? 128) && (128 <=? c) && (c <=? 138)     (* U+2000..200A *)
   || (a =? 226) && (b =? 128) && ((c =? 168) || (c =? 169))     (* U+2028, U+2029 *)
   || (a =? 226) && (b =? 128) && (c =? 175)                     (* U+202F *)
   || (a =? 226) && (b =? 129) && (c =? 159)                     (* U+205F *)
   || (a =? 227) && (b =? 128) && (c =? 128)                     (* U+3000 *)
   || (a =? 239) && (b =? 187) && (c =? 191))%N.                 (* U+FEFF *)

(** Removal of the white space at the front of a byte list; [fwd] tells
    whether the list is read in text order or backwards. *)
Fixpoint dropSpace (fwd : bool) (l : list ascii) : list ascii :=
  match l with
  | [] => []
  | c1 :: l1 =>
      if ws1 c1 then dropSpace fwd l1
      else match l1 with
           | c2 :: l2 =>
               if (if fwd then ws2 c1 c2 else ws2 c2 c1) then dropSpace fwd l2
               else match l2 with
                    | c3 :: l3 =>
                        if (if fwd then ws3 c1 c2 c3 else ws3 c3 c2 c1)
                        then dropSpace fwd l3 else l
                    | [] => l
                    end
           | [] => l
           end
  end.

Definition trim (s : string) : string :=
  let front := dropSpace true (list_ascii_of_string s) in
  string_of_list_ascii (List.rev (dropSpace false (List.rev front))).

Definition startsWith (s p : string) : bool := String.prefix p s.

(** [String.prototype.includes]. *)
Fixpoint includes (s p : string) : bool :=
  String.prefix p s ||
  match s with
  | EmptyString => false
  | String _ s1 => includes s1 p
  end.

(** The values a property read of the flag table can give. *)
Inductive Value :=
| Null
| Undefined
| Str (s : string)
| Builtin (name : string).

(** ToBoolean. *)
Definition truthy (v : Value) : bool :=
  match v with
  | Null | Undefined => false
  | Str s => negb (String.eqb s "")
  | Builtin _ => true
  end.

(** The property names every ordinary object inherits from
    [Object.prototype]; each of them reads as a function (as the
    prototype itself for [__proto__]). *)
Definition objectPrototype : list string :=
  [ "constructor"; "hasOwnProperty"; "isPrototypeOf"; "propertyIsEnumerable";
    "toLocaleString"; "toString"; "valueOf"; "__proto__";
    "__defineGetter__"; "__defineSetter__"; "__lookupGetter__";
    "__lookupSetter__" ].

(** [obj[key]] on an object literal with string values: own properties
    first, then the prototype. *)
Definition get (obj : list (string * string)) (key : string) : Value :=
  match List.find (fun kv => String.eqb (fst kv) key) obj with
  | Some kv => Str (snd kv)
  | None =>
      if List.existsb (String.eqb key) objectPrototype then Builtin key
      else Undefined
  end.

End Js.

(** ** The flag table ([countryFlags.js]) *)

Module Flags.

(** [COUNTRY_FLAGS], in the order of the object literal (the order in
    which [Object.entries] lists it). *)
Definition COUNTRY_FLAGS : list (string * string) :=
  [
    ("Afghanistan", "🇦🇫");
    ("Albania", "🇦🇱");
    ("Algeria", "🇩🇿");
    ("Argentina", "🇦🇷");
    ("Australia", "🇦🇺");
    ("Austria", "🇦🇹");
    ("Bangladesh", "🇧🇩");
    ("Belgium", "🇧🇪");
    ("Brazil", "🇧🇷");
    ("Canada", "🇨🇦");
    ("Chile", "🇨🇱");
    ("China", "🇨🇳");
    ("Colombia", "🇨🇴");
    ("Czech Republic", "🇨🇿");
    ("Denmark", "🇩🇰");
    ("Egypt", "🇪🇬");
    ("Finland", "🇫🇮");
    ("France", "🇫🇷");
    ("Germany", "🇩🇪");
    ("Greece", "🇬🇷");
    ("Hong Kong", "🇭🇰");
    ("Hungary", "🇭🇺");
    ("India", "🇮🇳");
    ("Indonesia", "🇮🇩");
    ("Iran", "🇮🇷");
    ("Iraq", "🇮🇶");
    ("Ireland", "🇮🇪");
    ("Israel", "🇮🇱");
    ("Italy", "🇮🇹");
    ("Japan", "🇯🇵");
    ("Kenya", "🇰🇪");
    ("Malaysia", "🇲🇾");
    ("Mexico", "🇲🇽");
    ("Netherlands", "🇳🇱");
    ("New Zealand", "🇳🇿");
    ("Nigeria", "🇳🇬");
    ("Norway", "🇳🇴");
    ("Pakistan", "🇵🇰");
    ("Philippines", "🇵🇭");
    ("Poland", "🇵🇱");
    ("Portugal", "🇵🇹");
    ("Romania", "🇷🇴");
    ("Russia", "🇷🇺");
    ("Saudi Arabia", "🇸🇦");
    ("Singapore", "🇸🇬");
    ("South Africa", "🇿🇦");
    ("South Korea", "🇰🇷");
    ("Spain", "🇪🇸");
    ("Sweden", "🇸🇪");
    ("Switzerland", "🇨🇭");
    ("Taiwan", "🇹🇼");
    ("Thailand", "🇹🇭");
    ("Turkey", "🇹🇷");
    ("Ukraine", "🇺🇦");
    ("United Arab Emirates", "🇦🇪");
    ("United Kingdom", "🇬🇧");
    ("United States", "🇺🇸");
    ("Venezuela", "🇻🇪");
    ("Vietnam", "🇻🇳")
  ].

(** [getCountryFlag(countryName)]; [None] is [null]. *)
Definition getCountryFlag (countryName : option string) : Js.Value :=
  match countryName with
  | None => Js.Null
  | Some name =>
      if negb (Js.truthy (Js.Str name)) then Js.Null
      else
        (* Try exact match first *)
        let exact := Js.get COUNTRY_FLAGS name in
        if Js.truthy exact then exact
        else
          (* Try case-insensitive match *)
          let normalized := Js.trim name in
          match List.find
                  (fun kv => String.eqb (Js.toLowerCase (fst kv))
                                        (Js.toLowerCase normalized))
                  COUNTRY_FLAGS with
          | Some kv => Js.Str (snd kv)
          | None => Js.Null
          end
  end.

End Flags.

(** ** The page: elements, selectors and the handle of a container *)

Module Dom.

(** The identity of an element: given by the host page, or by the
    script to an element it creates. *)
Inductive Ident :=
| Host (n : nat)
| Made (n : nat).

Definition sameIdent (a b : Ident) : bool :=
  match a, b with
  | Host x, Host y => Nat.eqb x y
  | Made x, Made y => Nat.eqb x y
  | _, _ => false
  end.

(** A node of the page. Elements carry an identity [uid], by which the
    script's closures keep hold of a container across tasks; the
    identities of the elements of a page are taken to differ. *)
Inductive Node :=
| Element (uid : Ident) (tag : string) (attrs : list (string * string))
          (children : list Node)
| Text (data : string).

(** A node inside a subtree is addressed by the child indices that lead
    to it. *)
Definition Path := list nat.

Definition uidOf (n : Node) : option Ident :=
  match n with
  | Element u _ _ _ => Some u
  | Text _ => None
  end.

Definition tagOf (n : Node) : string :=
  match n with
  | Element _ t _ _ => t
  | Text _ => ""
  end.

Definition childrenOf (n : Node) : list Node :=
  match n with
  | Element _ _ _ kids => kids
  | Text _ => []
  end.

(** [getAttribute]. *)
Definition attr (name : string) (n : Node) : option string :=
  match n with
  | Element _ _ attrs _ =>
      snd <$> List.find (fun kv => String.eqb (fst kv) name) attrs
  | Text _ => None
  end.

Fixpoint assocSet (name v : string) (l : list (string * string)) :
  list (string * string) :=
  match l with
  | [] => [(name, v)]
  | kv :: l1 =>
      if String.eqb (fst kv) name then (name, v) :: l1
      else kv :: assocSet name v l1
  end.

(** [setAttribute]. *)
Definition setAttr (name v : string) (n : Node) : Node :=
  match n with
  | Element u t attrs kids => Element u t (assocSet name v attrs) kids
  | Text _ => n
  end.

(** [textContent]. *)
Fixpoint textContent (n : Node) : string :=
  match n with
  | Text d => d
  | Element _ _ _ kids =>
      (fix go (l : list Node) : string :=
         match l with
         | [] => ""
         | k :: l1 => textContent k +:+ go l1
         end) kids
  end.

(** The element descendants of a node in document order, with their
    paths. *)
Fixpoint descendants (n : Node) : list (Path * Node) :=
  match n with
  | Text _ => []
  | Element _ _ _ kids =>
      (fix go (i : nat) (l : list Node) : list (Path * Node) :=
         match l with
         | [] => []
         | k :: l1 =>
             match k with
             | Text _ => go (S i) l1
             | Element _ _ _ _ =>
                 ([i], k)
                   :: List.map (fun pn => (i :: fst pn, snd pn)) (descendants k)
                   ++ go (S i) l1
             end
         end) 0%nat kids
  end.

(** [element.querySelectorAll] and [element.querySelector], for a
    selector given as a predicate on elements. *)
Definition querySelectorAll (sel : Node -> bool) (n : Node) :
  list (Path * Node) :=
  List.filter (fun pn => sel (snd pn)) (descendants n).

Definition querySelector (sel : Node -> bool) (n : Node) :
  option (Path * Node) :=
  List.find (fun pn => sel (snd pn)) (descendants n).

Fixpoint nodeAt (p : Path) (n : Node) : option Node :=
  match p with
  | [] => Some n
  | i :: p1 =>
      match nth_error (childrenOf n) i with
      | Some k => nodeAt p1 k
      | None => None
      end
  end.

Fixpoint mapNth {A} (i : nat) (f : A -> A) (l : list A) : list A :=
  match l, i with
  | [], _ => []
  | x :: l1, O => f x :: l1
  | x :: l1, S j => x :: mapNth j f l1
  end.

(** The subtree with the node at a path replaced by its image. *)
Fixpoint updateAt (p : Path) (f : Node -> Node) (n : Node) : Node :=
  match p with
  | [] => f n
  | i :: p1 =>
      match n with
      | Element u t attrs kids =>
          Element u t attrs (mapNth i (updateAt p1 f) kids)
      | Text _ => n
      end
  end.

(** [parent.insertBefore(new, ref.nextSibling)], the reference child
    being the [i]-th one. *)
Definition insertAfterChild (i : nat) (new : Node) (parent : Node) : Node :=
  match parent with
  | Element u t attrs kids =>
      Element u t attrs (firstn (S i) kids ++ new :: skipn (S i) kids)
  | Text _ => parent
  end.

(** Selectors of the script. *)
Definition hasTestId (v : string) (n : Node) : bool :=
  match attr "data-testid" n with
  | Some x => String.eqb x v
  | None => false
  end.

(** [a[href^="/"]] *)
Definition isRootedAnchor (n : Node) : bool :=
  String.eqb (tagOf n) "a" &&
  match attr "href" n with
  | Some h => Js.startsWith h "/"
  | None => false
  end.

(** [[data-twitter-flag]] *)
Definition isFlag (n : Node) : bool :=
  match attr "data-twitter-flag" n with
  | Some _ => true
  | None => false
  end.

(** [article[data-testid="tweet"], [data-testid="UserCell"],
    [data-testid="User-Names"], [data-testid="User-Name"]] *)
Definition isContainer (n : Node) : bool :=
  (String.eqb (tagOf n) "article" && hasTestId "tweet" n)
  || hasTestId "UserCell" n
  || hasTestId "User-Names" n
  || hasTestId "User-Name" n.

(** [element.dataset.flagAdded] *)
Definition flagAdded (n : Node) : option string := attr "data-flag-added" n.

Definition setFlagAdded (v : string) (n : Node) : Node :=
  setAttr "data-flag-added" v n.

(** The whole page is the list of nodes under the document; an element
    of it is found by its identity. *)
Definition elementsOf (doc : list Node) : list Node :=
  List.flat_map (fun n => match n with
                          | Text _ => []
                          | Element _ _ _ _ => n :: List.map snd (descendants n)
                          end) doc.

Definition byUid (u : Ident) (doc : list Node) : option Node :=
  List.find (fun n => match uidOf n with
                      | Some v => sameIdent v u
                      | None => false
                      end) (elementsOf doc).

(** The page with every element of identity [u] replaced by its image. *)
Fixpoint mapUid (u : Ident) (f : Node -> Node) (n : Node) : Node :=
  match n with
  | Text _ => n
  | Element v t attrs kids =>
      let n1 := Element v t attrs (List.map (mapUid u f) kids) in
      if sameIdent v u then f n1 else n1
  end.

End Dom.

(** ** The content script ([content.js]): reading a container *)

Module Scan.

Import Dom.

(** The first capture of [href.match(/^\/([^\/\?]+)/)]: the longest run
    of characters other than [/] and [?] after the leading slash, when
    it is not empty. *)
Fixpoint segment (s : string) : string :=
  match s with
  | EmptyString => EmptyString
  | String c s1 =>
      if (Ascii.eqb c "/" || Ascii.eqb c "?")%char then EmptyString
      else String c (segment s1)
  end.

Definition firstSegment (href : string) : option string :=
  match href with
  | String c rest =>
      if Ascii.eqb c "/"%char then
        match segment rest with
        | EmptyString => None
        | seg => Some seg
        end
      else None
  | EmptyString => None
  end.

(** The route segments that are not profiles. *)
Definition isRoute (seg : string) : bool :=
  String.eqb seg "home" || String.eqb seg "explore"
  || String.eqb seg "notifications" || String.eqb seg "messages"
  || String.eqb seg "i" || String.eqb seg "compose"
  || String.eqb seg "search" || Js.startsWith seg "hashtag".

Definition hrefOf (link : Node) : string := default "" (attr "href" link).

(** The body of the first loop of [extractUsername], for one link. *)
Definition nameLinkHandle (link : Node) : option string :=
  match firstSegment (hrefOf link) with
  | Some seg => if negb (isRoute seg) then Some seg else None
  | None => None
  end.

(** The body of the second loop of [extractUsername], for one link. The
    last test compares in the lower case of [Js.toLowerCase], which is
    the one of the script when the text or the segment is ASCII;
    [Lowering] below has the loop for any lower case. *)
Definition anyLinkHandle (link : Node) : option string :=
  match firstSegment (hrefOf link) with
  | Some seg =>
      if negb (isRoute seg) && negb (Js.includes seg "status") then
        let text := Js.trim (textContent link) in
        if Js.truthy (Js.Str text) && Js.startsWith text "@" then Some seg
        else if Js.truthy (Js.Str text)
                && String.eqb (Js.toLowerCase text) (Js.toLowerCase seg)
             then Some seg
             else None
      else None
  | None => None
  end.

(** The first link of a list for which the loop body returns. *)
Fixpoint firstHandle (body : Node -> option string)
         (links : list (Path * Node)) : option string :=
  match links with
  | [] => None
  | l :: links1 =>
      match body (snd l) with
      | Some h => Some h
      | None => firstHandle body links1
      end
  end.

(** [extractUsername(element)]; [None] is [null]. *)
Definition extractUsername (element : Node) : option string :=
  let fromName :=
    match querySelector (hasTestId "UserName") element with
    | Some usernameElement =>
        firstHandle nameLinkHandle
                    (querySelectorAll isRootedAnchor (snd usernameElement))
    | None => None
    end in
  match fromName with
  | Some h => Some h
  | None =>
      firstHandle anyLinkHandle (querySelectorAll isRootedAnchor element)
  end.

(** [href === `/${screenName}` || href.startsWith(`/${screenName}?`)] *)
Definition pointsTo (screenName : string) (link : Node) : bool :=
  let href := hrefOf link in
  String.eqb href ("/" +:+ screenName)
  || Js.startsWith href ("/" +:+ screenName +:+ "?").

(** The handles that stand for themselves between the quotation marks
    of [a[href="/${screenName}"], a[href^="/${screenName}?"]], the
    selector of the second strategy of [addFlagToUsername]: they hold no
    quotation mark, no backslash, no line feed, form feed or carriage
    return and no null character. With another handle the selector is
    another one: the engine may refuse it, and [querySelector] then
    throws, or it may match the link of another handle. *)
Definition plainHandle (screenName : string) : bool :=
  List.forallb
    (fun c => let n := Ascii.N_of_ascii c in
              negb ((n =? 0) || (n =? 10) || (n =? 12) || (n =? 13)
                    || (n =? 34) || (n =? 92))%N)
    (list_ascii_of_string screenName).

(** The three strategies of [addFlagToUsername] for finding the link of
    the handle inside the container; the path is relative to the
    container. The second strategy is the one of a handle that is
    [plainHandle]: its selector then asks for an [a] element whose
    [href] is [/screenName] or starts with [/screenName?]. *)
Definition findUsernameLink (screenName : string) (element : Node) :
  option (Path * Node) :=
  let links := querySelectorAll isRootedAnchor element in
  let first := List.find (fun l => pointsTo screenName (snd l)) links in
  let second :=
    match first with
    | Some l => Some l
    | None =>
        match querySelector (hasTestId "UserName") element with
        | Some userNameContainer =>
            match querySelector
                    (fun n => String.eqb (tagOf n) "a"
                              && match attr "href" n with
                                 | Some _ => pointsTo screenName n
                                 | None => false
                                 end)
                    (snd userNameContainer) with
            | Some l => Some (fst userNameContainer ++ fst l, snd l)
            | None => None
            end
        | None => None
        end
    end in
  match second with
  | Some l => Some l
  | None =>
      List.find (fun l => match firstSegment (hrefOf (snd l)) with
                          | Some seg => String.eqb seg screenName
                          | None => false
                          end) links
  end.

(** How a value reads inside a template literal. The text of a built-in
    function is left to the engine; the usual one is given. *)
Definition display (v : Js.Value) : string :=
  match v with
  | Js.Null => "null"
  | Js.Undefined => "undefined"
  | Js.Str s => s
  | Js.Builtin name =>
      if String.eqb name "__proto__" then "[object Object]"
      else "function " +:+ (if String.eqb name "constructor" then "Object"
                            else name) +:+ "() { [native code] }"
  end.

(** The element [addFlagToUsername] creates. *)
Definition flagSpan (fresh : nat) (flag : Js.Value) : Node :=
  Element (Made fresh) "span"
          [("data-twitter-flag", "true");
           ("style", "margin-left: 4px; display: inline;")]
          [Text (" " +:+ display flag)].

(** [addFlagToUsername] from the point where the location is known: the
    container it leaves, and whether a node was added to the page. The
    link found lies below the container, so it has a parent and the
    fallback [appendChild] of the script is never taken. *)
Definition annotate (screenName : string) (location : option string)
           (fresh : nat) (usernameElement : Node) : Node * bool :=
  if negb (Js.truthy (match location with
                      | Some l => Js.Str l
                      | None => Js.Null
                      end))
  then (setFlagAdded "failed" usernameElement, false)
  else
    let flag := Flags.getCountryFlag location in
    if negb (Js.truthy flag)
    then (setFlagAdded "failed" usernameElement, false)
    else
      match findUsernameLink screenName usernameElement with
      | None => (setFlagAdded "failed" usernameElement, false)
      | Some usernameLink =>
          let parentPath := removelast (fst usernameLink) in
          let index := List.last (fst usernameLink) 0%nat in
          let existingFlag :=
            match nodeAt parentPath usernameElement with
            | Some parent => querySelector isFlag parent
            | None => None
            end in
          match existingFlag with
          | Some _ => (setFlagAdded "true" usernameElement, false)
          | None =>
              let inserted :=
                updateAt parentPath
                         (insertAfterChild index (flagSpan fresh flag))
                         usernameElement in
              (setFlagAdded "true" inserted, true)
          end
      end.

(** The test at the head of [addFlagToUsername]:
    [usernameElement.dataset.flagAdded === 'true']. *)
Definition isDone (status : option string) : bool :=
  match status with
  | Some st => String.eqb st "true"
  | None => false
  end.

(** The test of the scan loop on [container.dataset.flagAdded]:
    [!status || status === 'failed']. *)
Definition wantsFlag (status : option string) : bool :=
  match status with
  | None => true
  | Some st => negb (Js.truthy (Js.Str st)) || String.eqb st "failed"
  end.

End Scan.

(** ** Reading a handle, whatever the lower case of a letter is *)

(** [extractUsername] once more, with [String.prototype.toLowerCase] as
    a parameter. The second loop compares the text of a link and a
    segment of its address in lower case, and both may hold letters
    outside Basic Latin, which [Js.toLowerCase] leaves as they are:
    what is proved for every function holds for the one of the
    engine. *)
Module Lowering.

Import Dom Scan.

Section Lowering.

Variable toLowerCase : string -> string.

(** The body of the second loop of [extractUsername], for one link. *)
Definition anyLinkHandle (link : Node) : option string :=
  match firstSegment (hrefOf link) with
  | Some seg =>
      if negb (isRoute seg) && negb (Js.includes seg "status") then
        let text := Js.trim (textContent link) in
        if Js.truthy (Js.Str text) && Js.startsWith text "@" then Some seg
        else if Js.truthy (Js.Str text)
                && String.eqb (toLowerCase text) (toLowerCase seg)
             then Some seg
             else None
      else None
  | None => None
  end.

(** [extractUsername(element)]; [None] is [null]. *)
Definition extractUsername (element : Node) : option string :=
  let fromName :=
    match querySelector (hasTestId "UserName") element with
    | Some usernameElement =>
        firstHandle nameLinkHandle
                    (querySelectorAll isRootedAnchor (snd usernameElement))
    | None => None
    end in
  match fromName with
  | Some h => Some h
  | None =>
      firstHandle anyLinkHandle (querySelectorAll isRootedAnchor element)
  end.

End Lowering.

End Lowering.

(** ** The content script ([content.js]): state *)

Module Content.

Import Dom Scan.

Definition CACHE_EXPIRY_DAYS : Z := 30.
Definition MIN_REQUEST_INTERVAL : Z := 2000.
Definition MAX_CONCURRENT_REQUESTS : Z := 2.

(** One entry of the stored object: [{location, expiry, cachedAt}]. A
    field that is missing is [None]; a [location] of [null] is [None]
    too. *)
Record CacheData := {
  location : option string;
  expiry : option Z;
  cachedAt : option Z
}.

(** What [chrome.storage.local.get(CACHE_KEY)] gives: a failure, or the
    value under the key when there is one. [ReadDone (Some cached)] is a
    stored object all of whose entries are objects, as [saveCache]
    writes them. [ReadEntries entries] is a stored object in the order
    in which [Object.entries] lists it, one entry for a name, where an
    entry may also be [null], which is [None]. *)
Inductive ReadResult :=
| ReadFailed
| ReadDone (cached : option (gmap string CacheData))
| ReadEntries (entries : list (string * option CacheData)).

(** [Date.now() + Math.random()]: the time of the call and the draw. *)
Definition RequestId : Type := Z * N.

(** The messages on the window. *)
Inductive Message :=
| FetchLocation (screenName : string) (requestId : RequestId)
| LocationResponse (screenName : string) (answer : option string)
                   (requestId : RequestId)
| RateLimitInfo (resetTime waitTime : Z)
| Unrelated.

(** What a timer runs when it fires. *)
Inductive Task :=
| CallProcessQueue
| ResumeQueue
| RequestTimeout (screenName : string) (requestId : RequestId)
                 (callback : nat)
| DebouncedSave
| PeriodicSave
| CallProcessUsernames.

Record Timer := { tid : nat; due : Z; task : Task }.

(** An element of [requestQueue]: the handle and the [resolve]/[reject]
    pair of the promise [getUserLocation] returned. *)
Record Queued := { screenName : string; callback : nat }.

(** The [handler] closure of one call of [makeLocationRequest]. *)
Record Listener := {
  forName : string;
  forRequest : RequestId;
  forCallback : nat
}.

Inductive Outcome :=
| Resolved (value : option string)
| Rejected.

(** A call of [chrome.storage.local.set] under way; [debounced] tells
    that it was made by the timer of [saveCacheEntry]. *)
Record Write := { blob : gmap string CacheData; debounced : bool }.

(** A call of [addFlagToUsername] suspended at its [await]. *)
Record Awaiting := {
  onCallback : nat;
  onElement : Ident;
  onName : string
}.

Record Ready := {
  readyElement : Ident;
  readyName : string;
  readyValue : option string
}.

(** The fields of [State]:
    - [booted]: [init] has run: the listener for rate-limit messages and the observers are installed;
    - [clock]: [Date.now()] during the current task;
    - [locationCache]: [locationCache]; [None] as a value is [null];
    - [requestQueue]: [requestQueue];
    - [isProcessingQueue]: [isProcessingQueue];
    - [lastRequestTime]: [lastRequestTime];
    - [activeRequests]: [activeRequests];
    - [rateLimitResetTime]: [rateLimitResetTime], in epoch seconds;
    - [saveTimeout]: [saveCache.timeout];
    - [timers]: the timers that are set and have not fired;
    - [nextTimer]: the identifier the next timer gets;
    - [listeners]: the message handlers of [makeLocationRequest] still registered;
    - [settled]: how the promises of [getUserLocation] were settled, by callback;
    - [nextCallback]: the identifier of the next promise;
    - [posted]: the messages given to [window.postMessage] with the time of the call, latest first;
    - [storage]: the value under [CACHE_KEY] in [chrome.storage.local];
    - [writing]: the calls of [chrome.storage.local.set] that have not completed, oldest first;
    - [page]: the nodes under the document;
    - [href]: [location.href];
    - [lastUrl]: [lastUrl] of [init];
    - [awaiting]: the calls of [addFlagToUsername] suspended on a queued lookup;
    - [jobs]: the calls of [addFlagToUsername] whose lookup was answered from the cache, to be resumed when the running code has returned;
    - [nextUid]: the identity the next created element gets. *)
Record State := {
  booted : bool;
  clock : Z;
  locationCache : gmap string (option string);
  requestQueue : list Queued;
  isProcessingQueue : bool;
  lastRequestTime : Z;
  activeRequests : Z;
  rateLimitResetTime : Z;
  saveTimeout : option nat;
  timers : list Timer;
  nextTimer : nat;
  listeners : list Listener;
  settled : gmap nat Outcome;
  nextCallback : nat;
  posted : list (Z * Message);
  storage : option (gmap string CacheData);
  writing : list Write;
  page : list Node;
  href : string;
  lastUrl : string;
  awaiting : list Awaiting;
  jobs : list Ready;
  nextUid : nat
}.

Definition set_booted (v : bool) (s : State) : State :=
  {| booted := v; clock := clock s; locationCache := locationCache s;
     requestQueue := requestQueue s;
     isProcessingQueue := isProcessingQueue s;
     lastRequestTime := lastRequestTime s;
     activeRequests := activeRequests s;
     rateLimitResetTime := rateLimitResetTime s;
     saveTimeout := saveTimeout s; timers := timers s;
     nextTimer := nextTimer s; listeners := listeners s;
     settled := settled s; nextCallback := nextCallback s;
     posted := posted s; storage := storage s; writing := writing s;
     page := page s; href := href s; lastUrl := lastUrl s;
     awaiting := awaiting s; jobs := jobs s; nextUid := nextUid s |}.

Definition set_clock (v : Z) (s : State) : State :=
  {| booted := booted s; clock := v; locationCache := locationCache s;
     requestQueue := requestQueue s;
     isProcessingQueue := isProcessingQueue s;
     lastRequestTime := lastRequestTime s;
     activeRequests := activeRequests s;
     rateLimitResetTime := rateLimitResetTime s;
     saveTimeout := saveTimeout s; timers := timers s;
     nextTimer := nextTimer s; listeners := listeners s;
     settled := settled s; nextCallback := nextCallback s;
     posted := posted s; storage := storage s; writing := writing s;
     page := page s; href := href s; lastUrl := lastUrl s;
     awaiting := awaiting s; jobs := jobs s; nextUid := nextUid s |}.

Definition set_locationCache (v : gmap string (option string)) (s : State) : State :=
  {| booted := booted s; clock := clock s; locationCache := v;
     requestQueue := requestQueue s;
     isProcessingQueue := isProcessingQueue s;
     lastRequestTime := lastRequestTime s;
     activeRequests := activeRequests s;
     rateLimitResetTime := rateLimitResetTime s;
     saveTimeout := saveTimeout s; timers := timers s;
     nextTimer := nextTimer s; listeners := listeners s;
     settled := settled s; nextCallback := nextCallback s;
     posted := posted s; storage := storage s; writing := writing s;
     page := page s; href := href s; lastUrl := lastUrl s;
     awaiting := awaiting s; jobs := jobs s; nextUid := nextUid s |}.

Definition set_requestQueue (v : list Queued) (s : State) : State :=
  {| booted := booted s; clock := clock s;
     locationCache := locationCache s; requestQueue := v;
     isProcessingQueue := isProcessingQueue s;
     lastRequestTime := lastRequestTime s;
     activeRequests := activeRequests s;
     rateLimitResetTime := rateLimitResetTime s;
     saveTimeout := saveTimeout s; timers := timers s;
     nextTimer := nextTimer s; listeners := listeners s;
     settled := settled s; nextCallback := nextCallback s;
     posted := posted s; storage := storage s; writing := writing s;
     page := page s; href := href s; lastUrl := lastUrl s;
     awaiting := awaiting s; jobs := jobs s; nextUid := nextUid s |}.

Definition set_isProcessingQueue (v : bool) (s : State) : State :=
  {| booted := booted s; clock := clock s;
     locationCache := locationCache s; requestQueue := requestQueue s;
     isProcessingQueue := v; lastRequestTime := lastRequestTime s;
     activeRequests := activeRequests s;
     rateLimitResetTime := rateLimitResetTime s;
     saveTimeout := saveTimeout s; timers := timers s;
     nextTimer := nextTimer s; listeners := listeners s;
     settled := settled s; nextCallback := nextCallback s;
     posted := posted s; storage := storage s; writing := writing s;
     page := page s; href := href s; lastUrl := lastUrl s;
     awaiting := awaiting s; jobs := jobs s; nextUid := nextUid s |}.

Definition set_lastRequestTime (v : Z) (s : State) : State :=
  {| booted := booted s; clock := clock s;
     locationCache := locationCache s; requestQueue := requestQueue s;
     isProcessingQueue := isProcessingQueue s; lastRequestTime := v;
     activeRequests := activeRequests s;
     rateLimitResetTime := rateLimitResetTime s;
     saveTimeout := saveTimeout s; timers := timers s;
     nextTimer := nextTimer s; listeners := listeners s;
     settled := settled s; nextCallback := nextCallback s;
     posted := posted s; storage := storage s; writing := writing s;
     page := page s; href := href s; lastUrl := lastUrl s;
     awaiting := awaiting s; jobs := jobs s; nextUid := nextUid s |}.

Definition set_activeRequests (v : Z) (s : State) : State :=
  {| booted := booted s; clock := clock s;
     locationCache := locationCache s; requestQueue := requestQueue s;
     isProcessingQueue := isProcessingQueue s;
     lastRequestTime := lastRequestTime s; activeRequests := v;
     rateLimitResetTime := rateLimitResetTime s;
     saveTimeout := saveTimeout s; timers := timers s;
     nextTimer := nextTimer s; listeners := listeners s;
     settled := settled s; nextCallback := nextCallback s;
     posted := posted s; storage := storage s; writing := writing s;
     page := page s; href := href s; lastUrl := lastUrl s;
     awaiting := awaiting s; jobs := jobs s; nextUid := nextUid s |}.

Definition set_rateLimitResetTime (v : Z) (s : State) : State :=
  {| booted := booted s; clock := clock s;
     locationCache := locationCache s; requestQueue := requestQueue s;
     isProcessingQueue := isProcessingQueue s;
     lastRequestTime := lastRequestTime s;
     activeRequests := activeRequests s; rateLimitResetTime := v;
     saveTimeout := saveTimeout s; timers := timers s;
     nextTimer := nextTimer s; listeners := listeners s;
     settled := settled s; nextCallback := nextCallback s;
     posted := posted s; storage := storage s; writing := writing s;
     page := page s; href := href s; lastUrl := lastUrl s;
     awaiting := awaiting s; jobs := jobs s; nextUid := nextUid s |}.

Definition set_saveTimeout (v : option nat) (s : State) : State :=
  {| booted := booted s; clock := clock s;
     locationCache := locationCache s; requestQueue := requestQueue s;
     isProcessingQueue := isProcessingQueue s;
     lastRequestTime := lastRequestTime s;
     activeRequests := activeRequests s;
     rateLimitResetTime := rateLimitResetTime s; saveTimeout := v;
     timers := timers s; nextTimer := nextTimer s;
     listeners := listeners s; settled := settled s;
     nextCallback := nextCallback s; posted := posted s;
     storage := storage s; writing := writing s; page := page s;
     href := href s; lastUrl := lastUrl s; awaiting := awaiting s;
     jobs := jobs s; nextUid := nextUid s |}.

Definition set_timers (v : list Timer) (s : State) : State :=
  {| booted := booted s; clock := clock s;
     locationCache := locationCache s; requestQueue := requestQueue s;
     isProcessingQueue := isProcessingQueue s;
     lastRequestTime := lastRequestTime s;
     activeRequests := activeRequests s;
     rateLimitResetTime := rateLimitResetTime s;
     saveTimeout := saveTimeout s; timers := v; nextTimer := nextTimer s;
     listeners := listeners s; settled := settled s;
     nextCallback := nextCallback s; posted := posted s;
     storage := storage s; writing := writing s; page := page s;
     href := href s; lastUrl := lastUrl s; awaiting := awaiting s;
     jobs := jobs s; nextUid := nextUid s |}.

Definition set_nextTimer (v : nat) (s : State) : State :=
  {| booted := booted s; clock := clock s;
     locationCache := locationCache s; requestQueue := requestQueue s;
     isProcessingQueue := isProcessingQueue s;
     lastRequestTime := lastRequestTime s;
     activeRequests := activeRequests s;
     rateLimitResetTime := rateLimitResetTime s;
     saveTimeout := saveTimeout s; timers := timers s; nextTimer := v;
     listeners := listeners s; settled := settled s;
     nextCallback := nextCallback s; posted := posted s;
     storage := storage s; writing := writing s; page := page s;
     href := href s; lastUrl := lastUrl s; awaiting := awaiting s;
     jobs := jobs s; nextUid := nextUid s |}.

Definition set_listeners (v : list Listener) (s : State) : State :=
  {| booted := booted s; clock := clock s;
     locationCache := locationCache s; requestQueue := requestQueue s;
     isProcessingQueue := isProcessingQueue s;
     lastRequestTime := lastRequestTime s;
     activeRequests := activeRequests s;
     rateLimitResetTime := rateLimitResetTime s;
     saveTimeout := saveTimeout s; timers := timers s;
     nextTimer := nextTimer s; listeners := v; settled := settled s;
     nextCallback := nextCallback s; posted := posted s;
     storage := storage s; writing := writing s; page := page s;
     href := href s; lastUrl := lastUrl s; awaiting := awaiting s;
     jobs := jobs s; nextUid := nextUid s |}.

Definition set_settled (v : gmap nat Outcome) (s : State) : State :=
  {| booted := booted s; clock := clock s;
     locationCache := locationCache s; requestQueue := requestQueue s;
     isProcessingQueue := isProcessingQueue s;
     lastRequestTime := lastRequestTime s;
     activeRequests := activeRequests s;
     rateLimitResetTime := rateLimitResetTime s;
     saveTimeout := saveTimeout s; timers := timers s;
     nextTimer := nextTimer s; listeners := listeners s; settled := v;
     nextCallback := nextCallback s; posted := posted s;
     storage := storage s; writing := writing s; page := page s;
     href := href s; lastUrl := lastUrl s; awaiting := awaiting s;
     jobs := jobs s; nextUid := nextUid s |}.

Definition set_nextCallback (v : nat) (s : State) : State :=
  {| booted := booted s; clock := clock s;
     locationCache := locationCache s; requestQueue := requestQueue s;
     isProcessingQueue := isProcessingQueue s;
     lastRequestTime := lastRequestTime s;
     activeRequests := activeRequests s;
     rateLimitResetTime := rateLimitResetTime s;
     saveTimeout := saveTimeout s; timers := timers s;
     nextTimer := nextTimer s; listeners := listeners s;
     settled := settled s; nextCallback := v; posted := posted s;
     storage := storage s; writing := writing s; page := page s;
     href := href s; lastUrl := lastUrl s; awaiting := awaiting s;
     jobs := jobs s; nextUid := nextUid s |}.

Definition set_posted (v : list (Z * Message)) (s : State) : State :=
  {| booted := booted s; clock := clock s;
     locationCache := locationCache s; requestQueue := requestQueue s;
     isProcessingQueue := isProcessingQueue s;
     lastRequestTime := lastRequestTime s;
     activeRequests := activeRequests s;
     rateLimitResetTime := rateLimitResetTime s;
     saveTimeout := saveTimeout s; timers := timers s;
     nextTimer := nextTimer s; listeners := listeners s;
     settled := settled s; nextCallback := nextCallback s; posted := v;
     storage := storage s; writing := writing s; page := page s;
     href := href s; lastUrl := lastUrl s; awaiting := awaiting s;
     jobs := jobs s; nextUid := nextUid s |}.

Definition set_storage (v : option (gmap string CacheData)) (s : State) : State :=
  {| booted := booted s; clock := clock s;
     locationCache := locationCache s; requestQueue := requestQueue s;
     isProcessingQueue := isProcessingQueue s;
     lastRequestTime := lastRequestTime s;
     activeRequests := activeRequests s;
     rateLimitResetTime := rateLimitResetTime s;
     saveTimeout := saveTimeout s; timers := timers s;
     nextTimer := nextTimer s; listeners := listeners s;
     settled := settled s; nextCallback := nextCallback s;
     posted := posted s; storage := v; writing := writing s;
     page := page s; href := href s; lastUrl := lastUrl s;
     awaiting := awaiting s; jobs := jobs s; nextUid := nextUid s |}.

Definition set_writing (v : list Write) (s : State) : State :=
  {| booted := booted s; clock := clock s;
     locationCache := locationCache s; requestQueue := requestQueue s;
     isProcessingQueue := isProcessingQueue s;
     lastRequestTime := lastRequestTime s;
     activeRequests := activeRequests s;
     rateLimitResetTime := rateLimitResetTime s;
     saveTimeout := saveTimeout s; timers := timers s;
     nextTimer := nextTimer s; listeners := listeners s;
     settled := settled s; nextCallback := nextCallback s;
     posted := posted s; storage := storage s; writing := v;
     page := page s; href := href s; lastUrl := lastUrl s;
     awaiting := awaiting s; jobs := jobs s; nextUid := nextUid s |}.

Definition set_page (v : list Node) (s : State) : State :=
  {| booted := booted s; clock := clock s;
     locationCache := locationCache s; requestQueue := requestQueue s;
     isProcessingQueue := isProcessingQueue s;
     lastRequestTime := lastRequestTime s;
     activeRequests := activeRequests s;
     rateLimitResetTime := rateLimitResetTime s;
     saveTimeout := saveTimeout s; timers := timers s;
     nextTimer := nextTimer s; listeners := listeners s;
     settled := settled s; nextCallback := nextCallback s;
     posted := posted s; storage := storage s; writing := writing s;
     page := v; href := href s; lastUrl := lastUrl s;
     awaiting := awaiting s; jobs := jobs s; nextUid := nextUid s |}.

Definition set_href (v : string) (s : State) : State :=
  {| booted := booted s; clock := clock s;
     locationCache := locationCache s; requestQueue := requestQueue s;
     isProcessingQueue := isProcessingQueue s;
     lastRequestTime := lastRequestTime s;
     activeRequests := activeRequests s;
     rateLimitResetTime := rateLimitResetTime s;
     saveTimeout := saveTimeout s; timers := timers s;
     nextTimer := nextTimer s; listeners := listeners s;
     settled := settled s; nextCallback := nextCallback s;
     posted := posted s; storage := storage s; writing := writing s;
     page := page s; href := v; lastUrl := lastUrl s;
     awaiting := awaiting s; jobs := jobs s; nextUid := nextUid s |}.

Definition set_lastUrl (v : string) (s : State) : State :=
  {| booted := booted s; clock := clock s;
     locationCache := locationCache s; requestQueue := requestQueue s;
     isProcessingQueue := isProcessingQueue s;
     lastRequestTime := lastRequestTime s;
     activeRequests := activeRequests s;
     rateLimitResetTime := rateLimitResetTime s;
     saveTimeout := saveTimeout s; timers := timers s;
     nextTimer := nextTimer s; listeners := listeners s;
     settled := settled s; nextCallback := nextCallback s;
     posted := posted s; storage := storage s; writing := writing s;
     page := page s; href := href s; lastUrl := v; awaiting := awaiting s;
     jobs := jobs s; nextUid := nextUid s |}.

Definition set_awaiting (v : list Awaiting) (s : State) : State :=
  {| booted := booted s; clock := clock s;
     locationCache := locationCache s; requestQueue := requestQueue s;
     isProcessingQueue := isProcessingQueue s;
     lastRequestTime := lastRequestTime s;
     activeRequests := activeRequests s;
     rateLimitResetTime := rateLimitResetTime s;
     saveTimeout := saveTimeout s; timers := timers s;
     nextTimer := nextTimer s; listeners := listeners s;
     settled := settled s; nextCallback := nextCallback s;
     posted := posted s; storage := storage s; writing := writing s;
     page := page s; href := href s; lastUrl := lastUrl s; awaiting := v;
     jobs := jobs s; nextUid := nextUid s |}.

Definition set_jobs (v : list Ready) (s : State) : State :=
  {| booted := booted s; clock := clock s;
     locationCache := locationCache s; requestQueue := requestQueue s;
     isProcessingQueue := isProcessingQueue s;
     lastRequestTime := lastRequestTime s;
     activeRequests := activeRequests s;
     rateLimitResetTime := rateLimitResetTime s;
     saveTimeout := saveTimeout s; timers := timers s;
     nextTimer := nextTimer s; listeners := listeners s;
     settled := settled s; nextCallback := nextCallback s;
     posted := posted s; storage := storage s; writing := writing s;
     page := page s; href := href s; lastUrl := lastUrl s;
     awaiting := awaiting s; jobs := v; nextUid := nextUid s |}.

Definition set_nextUid (v : nat) (s : State) : State :=
  {| booted := booted s; clock := clock s;
     locationCache := locationCache s; requestQueue := requestQueue s;
     isProcessingQueue := isProcessingQueue s;
     lastRequestTime := lastRequestTime s;
     activeRequests := activeRequests s;
     rateLimitResetTime := rateLimitResetTime s;
     saveTimeout := saveTimeout s; timers := timers s;
     nextTimer := nextTimer s; listeners := listeners s;
     settled := settled s; nextCallback := nextCallback s;
     posted := posted s; storage := storage s; writing := writing s;
     page := page s; href := href s; lastUrl := lastUrl s;
     awaiting := awaiting s; jobs := jobs s; nextUid := v |}.

(** ** The content script: timers, cache and storage *)

(** [setTimeout(task, delay)]: the timer gets the next identifier and is
    due [delay] milliseconds after the present time. *)
Definition setTimeout (t : Task) (delay : Z) (s : State) : State :=
  set_nextTimer (S (nextTimer s))
    (set_timers
       (timers s ++ [{| tid := nextTimer s;
                        due := clock s + Z.max 0 delay;
                        task := t |}]) s).

(** [data.expiry && data.expiry > now] *)
Definition unexpired (now : Z) (data : CacheData) : bool :=
  match expiry data with
  | Some e => negb (e =? 0) && (e >? now)
  | None => false
  end.

(** The loop of [loadCache] over the entries as they are listed. At an
    entry that is [null] the read of [data.expiry] throws: the [catch]
    around the loop logs the error, and the map keeps what the loop has
    admitted so far. *)
Fixpoint loadEntries (now : Z) (entries : list (string * option CacheData))
         (cache : gmap string (option string)) :
  gmap string (option string) :=
  match entries with
  | [] => cache
  | (username, Some data) :: entries1 =>
      loadEntries now entries1
                  (if unexpired now data
                   then <[username := location data]> cache
                   else cache)
  | (_, None) :: _ => cache
  end.

(** [loadCache], from the point where the read has settled. *)
Definition loadCache (result : ReadResult) (s : State) : State :=
  match result with
  | ReadFailed => s
  | ReadDone None => s
  | ReadDone (Some cached) =>
      let now := clock s in
      set_locationCache
        (map_fold (fun username data cache =>
                     if unexpired now data
                     then <[username := location data]> cache
                     else cache)
                  (locationCache s) cached) s
  | ReadEntries entries =>
      set_locationCache (loadEntries (clock s) entries (locationCache s)) s
  end.

(** [cacheObj[username] = value] on the plain object [cacheObj]: the key
    [__proto__] reaches the setter inherited from [Object.prototype],
    which changes the prototype of the object and creates no property. *)
Definition assign (username : string) (value : CacheData)
           (cacheObj : gmap string CacheData) : gmap string CacheData :=
  if String.eqb username "__proto__" then cacheObj
  else <[username := value]> cacheObj.

(** The object [saveCache] builds at the time [now]. *)
Definition cacheObject (now : Z) (cache : gmap string (option string)) :
  gmap string CacheData :=
  let stamp := now + CACHE_EXPIRY_DAYS * 24 * 60 * 60 * 1000 in
  map_fold (fun username loc cacheObj =>
              assign username
                     {| location := loc;
                        expiry := Some stamp;
                        cachedAt := Some now |} cacheObj)
           ∅ cache.

(** [saveCache] up to its [await]: the object is built and handed to
    [chrome.storage.local.set]. *)
Definition saveCache (fromDebounce : bool) (s : State) : State :=
  set_writing
    (writing s ++ [{| blob := cacheObject (clock s) (locationCache s);
                      debounced := fromDebounce |}]) s.

(** The completion of the oldest write: the storage holds the object
    when the write succeeded; the callback of the debounce timer then
    goes on with [saveCache.timeout = null]. *)
Definition written (ok : bool) (w : Write) (rest : list Write)
           (s : State) : State :=
  let s1 := set_writing rest s in
  let s2 := if ok then set_storage (Some (blob w)) s1 else s1 in
  if debounced w then set_saveTimeout None s2 else s2.

(** [saveCacheEntry(username, location)] *)
Definition saveCacheEntry (username : string) (loc : option string)
           (s : State) : State :=
  let s1 := set_locationCache (<[username := loc]> (locationCache s)) s in
  match saveTimeout s1 with
  | Some _ => s1
  | None => set_saveTimeout (Some (nextTimer s1))
                            (setTimeout DebouncedSave 5000 s1)
  end.

(** ** The content script: the request queue *)

(** The mutation observers of [init], called with the changes of child
    lists one task has made: the first one asks for a scan when a node
    was added, the second one compares the address with the last one
    seen. *)
Definition observe (added : bool) (s : State) : State :=
  let s1 := if added then setTimeout CallProcessUsernames 500 s else s in
  if String.eqb (href s1) (lastUrl s1) then s1
  else setTimeout CallProcessUsernames 2000 (set_lastUrl (href s1) s1).

(** The observers at the end of a task of the script: when [init] has
    installed them and the task has added elements, however many, they
    are called once; [before] is [nextUid] at the start of the task.
    The script adds its elements next to links of containers, which lie
    below [document.body]. *)
Definition notify (before : nat) (s : State) : State :=
  if booted s && negb (Nat.eqb (nextUid s) before) then observe true s
  else s.

(** [addFlagToUsername] after its [await], on the container of identity
    [uid] as the page now has it. A container that left the page is
    changed out of sight. The observers see an element that was added
    when the task ends ([notify]). *)
Definition finish (uid : Ident) (name : string) (loc : option string)
           (s : State) : State :=
  match byUid uid (page s) with
  | None => s
  | Some usernameElement =>
      let r := annotate name loc (nextUid s) usernameElement in
      let s1 := set_page (List.map (mapUid uid (fun _ => fst r)) (page s)) s in
      if snd r then set_nextUid (S (nextUid s1)) s1 else s1
  end.

(** The reactions to the first settlement of the promise of one
    dispatched request: [.then] resolves the promise of
    [getUserLocation], [.finally] frees the slot and asks for the queue
    to be processed, and the suspended [addFlagToUsername] calls go on.
    Settling a settled promise does nothing. *)
Definition settle (cb : nat) (v : option string) (s : State) : State :=
  match settled s !! cb with
  | Some _ => s
  | None =>
      let s1 := set_settled (<[cb := Resolved v]> (settled s)) s in
      let s2 := set_activeRequests (activeRequests s1 - 1) s1 in
      let s3 := setTimeout CallProcessQueue 200 s2 in
      let mine := List.filter (fun a => Nat.eqb (onCallback a) cb) (awaiting s3) in
      let others :=
        List.filter (fun a => negb (Nat.eqb (onCallback a) cb)) (awaiting s3) in
      List.fold_left (fun st a => finish (onElement a) (onName a) v st)
                     mine (set_awaiting others s3)
  end.

Definition unlisten (cb : nat) (s : State) : State :=
  set_listeners
    (List.filter (fun l => negb (Nat.eqb (forCallback l) cb)) (listeners s)) s.

(** [makeLocationRequest(screenName)] up to the return of the promise:
    the handler is registered, the request is posted and the timer of
    ten seconds is set. *)
Definition makeLocationRequest (name : string) (cb : nat) (rand : N)
           (s : State) : State :=
  let requestId : RequestId := (clock s, rand) in
  let s1 := set_listeners
              (listeners s ++ [{| forName := name;
                                  forRequest := requestId;
                                  forCallback := cb |}]) s in
  let s2 := set_posted
              ((clock s1, FetchLocation name requestId) :: posted s1) s1 in
  setTimeout (RequestTimeout name requestId cb) 10000 s2.

(** [location || null] *)
Definition orNull (answer : option string) : option string :=
  match answer with
  | Some a => if Js.truthy (Js.Str a) then Some a else None
  | None => None
  end.

(** The handler of one request on a response that matches it. *)
Definition onResponse (l : Listener) (answer : option string)
           (s : State) : State :=
  let s1 := unlisten (forCallback l) s in
  let s2 := saveCacheEntry (forName l) (orNull answer) s1 in
  settle (forCallback l) (orNull answer) s2.

(** The callback of the timer of ten seconds. *)
Definition onTimeout (name : string) (cb : nat) (s : State) : State :=
  let s1 := unlisten cb s in
  let s2 := saveCacheEntry name None s1 in
  settle cb None s2.

(** One turn of the loop of [processRequestQueue] from
    [requestQueue.shift()] to the call of [makeLocationRequest]. *)
Definition dispatch (item : Queued) (rest : list Queued) (rand : N)
           (s : State) : State :=
  let s1 := set_requestQueue rest s in
  let s2 := set_activeRequests (activeRequests s1 + 1) s1 in
  let s3 := set_lastRequestTime (clock s2) s2 in
  makeLocationRequest (screenName item) (callback item) rand s3.

(** The loop of [processRequestQueue] on the queue [queue] (the value of
    [requestQueue]). At the [await] the function is suspended with the
    flag still set, and a timer resumes it. *)
Fixpoint drain (rand : N) (queue : list Queued) (s : State) : State :=
  match queue with
  | [] => set_isProcessingQueue false s
  | item :: rest =>
      if activeRequests s <? MAX_CONCURRENT_REQUESTS then
        let timeSinceLastRequest := clock s - lastRequestTime s in
        if timeSinceLastRequest <? MIN_REQUEST_INTERVAL then
          setTimeout ResumeQueue
                     (MIN_REQUEST_INTERVAL - timeSinceLastRequest) s
        else drain rand rest (dispatch item rest rand s)
      else set_isProcessingQueue false s
  end.

(** The loop taken up again after the [await]. On an empty queue the
    destructuring of [undefined] throws and the flag stays set. *)
Definition resume (rand : N) (s : State) : State :=
  match requestQueue s with
  | [] => s
  | item :: rest => drain rand rest (dispatch item rest rand s)
  end.

(** [processRequestQueue()] up to its first [await] or its return. *)
Definition processRequestQueue (rand : N) (s : State) : State :=
  if isProcessingQueue s || (Nat.eqb (List.length (requestQueue s)) 0)
  then s
  else
    let now := clock s / 1000 in
    if (rateLimitResetTime s >? 0) && (now <? rateLimitResetTime s) then
      let waitTime := (rateLimitResetTime s - now) * 1000 in
      setTimeout CallProcessQueue (Z.min waitTime 60000) s
    else
      let s1 := if rateLimitResetTime s >? 0
                then set_rateLimitResetTime 0 s else s in
      let s2 := set_isProcessingQueue true s1 in
      drain rand (requestQueue s2) s2.

(** What [getUserLocation] gives its caller: the cached value, or a
    promise to be settled by the queue. *)
Inductive Reply :=
| Cached (value : option string)
| Promised (callback : nat).

(** [getUserLocation(screenName)] *)
Definition getUserLocation (name : string) (rand : N) (s : State) :
  State * Reply :=
  match locationCache s !! name with
  | Some cached => (s, Cached cached)
  | None =>
      let cb := nextCallback s in
      let s1 := set_requestQueue
                  (requestQueue s ++ [{| screenName := name;
                                         callback := cb |}]) s in
      let s2 := set_nextCallback (S cb) s1 in
      (processRequestQueue rand s2, Promised cb)
  end.

(** ** The content script: the annotator and the scan *)

(** [addFlagToUsername(usernameElement, screenName)] up to its [await],
    on the container of identity [uid]. A lookup answered from the cache
    resumes the function once the running code has returned. *)
Definition addFlagToUsername (uid : Ident) (name : string) (rand : N)
           (s : State) : State :=
  match byUid uid (page s) with
  | None => s
  | Some usernameElement =>
      if isDone (flagAdded usernameElement) then s
      else
        let s1 := set_page
                    (List.map (mapUid uid (setFlagAdded "processing"))
                              (page s)) s in
        match getUserLocation name rand s1 with
        | (s2, Cached v) =>
            set_jobs (jobs s2 ++ [{| readyElement := uid;
                                     readyName := name;
                                     readyValue := v |}]) s2
        | (s2, Promised cb) =>
            set_awaiting (awaiting s2 ++ [{| onCallback := cb;
                                             onElement := uid;
                                             onName := name |}]) s2
        end
  end.

(** The body of the loop of [processUsernames] for one container. *)
Definition scanContainer (rand : N) (s : State) (uid : Ident) : State :=
  match byUid uid (page s) with
  | None => s
  | Some container =>
      match extractUsername container with
      | Some name =>
          if wantsFlag (flagAdded container)
          then addFlagToUsername uid name rand s
          else s
      | None => s
      end
  end.

(** The containers [document.querySelectorAll] finds, by identity. *)
Definition containers (doc : list Node) : list Ident :=
  omap uidOf (List.filter isContainer (elementsOf doc)).

(** [processUsernames()] *)
Definition processUsernames (rand : N) (s : State) : State :=
  List.fold_left (scanContainer rand) (containers (page s)) s.

(** The suspended functions that are ready go on when the running code
    has returned. *)
Definition runJobs (s : State) : State :=
  List.fold_left
    (fun st j => finish (readyElement j) (readyName j) (readyValue j) st)
    (jobs s) (set_jobs [] s).

(** ** The content script: tasks *)

(** [init], from the point where the read of [loadCache] has settled. *)
Definition init (result : ReadResult) (s : State) : State :=
  let s1 := loadCache result s in
  let s2 := set_booted true s1 in
  let s3 := setTimeout CallProcessUsernames 2000 s2 in
  let s4 := set_lastUrl (href s3) s3 in
  setTimeout PeriodicSave 30000 s4.

(** A message event on the window. Only the events whose source is the
    window itself are looked at. The handlers that match a response are
    those registered when it arrives. *)
Definition matches (name : string) (requestId : RequestId)
           (l : Listener) : bool :=
  String.eqb (forName l) name && bool_decide (forRequest l = requestId).

Definition receive (fromWindow : bool) (m : Message) (s : State) : State :=
  if negb fromWindow then s
  else
    match m with
    | RateLimitInfo resetTime _ =>
        if booted s then set_rateLimitResetTime resetTime s else s
    | LocationResponse name answer requestId =>
        List.fold_left (fun st l => onResponse l answer st)
                       (List.filter (matches name requestId) (listeners s)) s
    | FetchLocation _ _ => s
    | Unrelated => s
    end.

(** A timer fires. *)
Definition fire (tm : Timer) (rand : N) (s : State) : State :=
  match task tm with
  | CallProcessQueue => processRequestQueue rand s
  | ResumeQueue => resume rand s
  | RequestTimeout name _ cb => onTimeout name cb s
  | DebouncedSave => saveCache true s
  | PeriodicSave =>
      saveCache false
        (set_timers (timers s ++ [{| tid := tid tm;
                                     due := clock s + 30000;
                                     task := PeriodicSave |}]) s)
  | CallProcessUsernames => processUsernames rand s
  end.

(** The host page changes the child lists of its nodes, and [doc] is
    the page after the change; [url] is the address by then, and [added]
    tells whether a node was added below [document.body], which is what
    the first observer watches. The observers run when [init] has
    installed them. *)
Definition mutated (doc : list Node) (added : bool) (url : string)
           (s : State) : State :=
  let s1 := set_href url (set_page doc s) in
  if booted s1 then observe added s1 else s1.

(** The address changes and the nodes stay as they are (the host page
    calls [history.pushState], say): no observer runs, and the script
    is not told. *)
Definition navigated (url : string) (s : State) : State := set_href url s.

(** What happens to the script, one task at a time. *)
Inductive Event :=
| Loaded (result : ReadResult)
| Fire (id : nat)
| Receive (fromWindow : bool) (m : Message)
| Written (ok : bool)
| Mutated (doc : list Node) (added : bool) (url : string)
| Navigated (url : string).

Definition timerOf (id : nat) (s : State) : option Timer :=
  List.find (fun tm => Nat.eqb (tid tm) id) (timers s).

Definition dropTimer (id : nat) (s : State) : State :=
  set_timers (List.filter (fun tm => negb (Nat.eqb (tid tm) id)) (timers s)) s.

(** One task at the time [now] with the draw [rand] of [Math.random].
    The clock does not go back, a timer does not fire before it is due
    and fires once; an event that cannot happen gives [None]. *)
Definition step (now : Z) (rand : N) (e : Event) (s : State) :
  option State :=
  if now <? clock s then None
  else
    let s0 := set_clock now s in
    match e with
    | Loaded result =>
        if booted s0 then None
        else Some (notify (nextUid s0) (runJobs (init result s0)))
    | Fire id =>
        match timerOf id s0 with
        | Some tm =>
            if now <? due tm then None
            else Some (notify (nextUid s0)
                              (runJobs (fire tm rand (dropTimer id s0))))
        | None => None
        end
    | Receive fromWindow m =>
        Some (notify (nextUid s0) (runJobs (receive fromWindow m s0)))
    | Written ok =>
        match writing s0 with
        | w :: rest => Some (written ok w rest s0)
        | [] => None
        end
    | Mutated doc added url => Some (mutated doc added url s0)
    | Navigated url => Some (navigated url s0)
    end.

Definition Tick : Type := Z * N * Event.

Fixpoint run (trace : list Tick) (s : State) : option State :=
  match trace with
  | [] => Some s
  | (now, rand, e) :: trace1 =>
      match step now rand e s with
      | Some s1 => run trace1 s1
      | None => None
      end
  end.

(** The script when the page has loaded it, on the page [doc] at the
    address [url]. *)
Definition boot (doc : list Node) (url : string) : State :=
  {| booted := false; clock := 0; locationCache := ∅; requestQueue := [];
     isProcessingQueue := false; lastRequestTime := 0; activeRequests := 0;
     rateLimitResetTime := 0; saveTimeout := None; timers := [];
     nextTimer := 1; listeners := []; settled := ∅; nextCallback := 0;
     posted := []; storage := None; writing := []; page := doc;
     href := url; lastUrl := ""; awaiting := []; jobs := [];
     nextUid := 0 |}.

(** The times at which requests were dispatched, latest first. *)
Definition dispatchTimes (s : State) : list Z := List.map fst (posted s).

End Content.

(** ** The page script ([pageScript.js]) *)

Module PageScript.

Import Content.

(** An object used as a dictionary of header names and values. *)
Abbreviation HeaderObj := (gmap string string).

(** [headerObj[key] = value] with a string value: on a plain object the
    key [__proto__] reaches the setter inherited from
    [Object.prototype], which ignores a value that is no object and
    creates no property. *)
Definition setHeader (key value : string) (headerObj : HeaderObj) : HeaderObj :=
  if String.eqb key "__proto__" then headerObj
  else <[key := value]> headerObj.

(** The copy of the entries of an object into a new plain object, one
    assignment per entry. *)
Definition copyEntries (entries : gmap string string) : HeaderObj :=
  map_fold setHeader ∅ entries.

(** What a caller passes as [headers]: nothing (or another falsy
    value), a [Headers] object with the entries [forEach] visits, another
    object with the entries [Object.entries] lists (taken to be
    strings), or a truthy value that is no object. *)
Inductive HeadersArg :=
| Falsy
| HeadersInstance (entries : gmap string string)
| PlainObject (entries : gmap string string)
| Primitive.

(** The two variables of the script. *)
Record Page := {
  twitterHeaders : option HeaderObj;
  headersReady : bool
}.

Definition start : Page := {| twitterHeaders := None; headersReady := false |}.

(** [captureHeaders(headers)] *)
Definition captureHeaders (headers : HeadersArg) (p : Page) : Page :=
  match headers with
  | Falsy => p
  | HeadersInstance entries | PlainObject entries =>
      {| twitterHeaders := Some (copyEntries entries); headersReady := true |}
  | Primitive => {| twitterHeaders := Some ∅; headersReady := true |}
  end.

Definition GRAPHQL : string := "x.com/i/api/graphql".

(** The replacement of [window.fetch], up to the call of the original:
    [url] is the first argument when it is a string, [headers] is
    [options.headers]. *)
Definition fetchHook (url : option string) (headers : HeadersArg) (p : Page) :
  Page :=
  match url with
  | Some u => if Js.includes u GRAPHQL then captureHeaders headers p else p
  | None => p
  end.

(** What [open] is given as address: a string, an object without a
    method [includes] (a [URL]), or a falsy value. *)
Inductive UrlArg :=
| UrlString (u : string)
| UrlObject
| UrlFalsy.

(** The two properties the script adds to a request object; [None] is a
    property that is not there. *)
Record Xhr := {
  _url : UrlArg;
  _headers : option HeaderObj
}.

Definition newXhr : Xhr := {| _url := UrlFalsy; _headers := None |}.

(** The replacement of [XMLHttpRequest.prototype.open]. *)
Definition xhrOpen (url : UrlArg) (x : Xhr) : Xhr :=
  {| _url := url; _headers := _headers x |}.

(** The replacement of [XMLHttpRequest.prototype.setRequestHeader]. *)
Definition xhrSetRequestHeader (header value : string) (x : Xhr) : Xhr :=
  {| _url := _url x;
     _headers := Some (setHeader header value (default ∅ (_headers x))) |}.

(** The replacement of [XMLHttpRequest.prototype.send], up to the call
    of the original; [None] is the [TypeError] of calling
    [this._url.includes] on an object that has no such method. *)
Definition xhrSend (x : Xhr) (p : Page) : option Page :=
  match _url x with
  | UrlFalsy => Some p
  | UrlObject => None
  | UrlString u =>
      if Js.includes u GRAPHQL then
        let headers := copyEntries (default ∅ (_headers x)) in
        Some (captureHeaders (PlainObject headers) p)
      else Some p
  end.

Definition defaultHeaders : HeaderObj :=
  {[ "Accept" := "application/json"; "Content-Type" := "application/json" ]}.

(** The callback of the timer of three seconds. *)
Definition useDefaults (p : Page) : Page :=
  if headersReady p then p
  else {| twitterHeaders := Some defaultHeaders; headersReady := true |}.

(** The loop that waits for the headers; [ready k] is the value of
    [headersReady] when the loop tests it after [k] waits of 100
    milliseconds, and [remaining] is [30 - waitCount]. The result is the
    number of waits. *)
Fixpoint waitLoop (ready : nat -> bool) (waitCount remaining : nat) : nat :=
  match remaining with
  | O => waitCount
  | S remaining1 =>
      if ready waitCount then waitCount
      else waitLoop ready (S waitCount) remaining1
  end.

Definition waitForHeaders (ready : nat -> bool) : nat := waitLoop ready 0 30.

(** [twitterHeaders || { Accept: ..., Content-Type: ... }]; an object is
    truthy even when it is empty. *)
Definition requestHeaders (p : Page) : HeaderObj :=
  match twitterHeaders p with
  | Some headers => headers
  | None => defaultHeaders
  end.

(** A value read from JSON. Numbers are integers here; of a number the
    script looks only at whether it is zero. An object holds its
    properties, one for a name. *)
Inductive Json :=
| JNull
| JBool (b : bool)
| JNumber (n : Z)
| JString (s : string)
| JArray (items : list Json)
| JObject (fields : list (string * Json)).

(** [value?.name]; [None] is [undefined]. Of the names the script
    reads, none is a property of a string, a number, a boolean or an
    array. *)
Definition member (name : string) (value : option Json) : option Json :=
  match value with
  | Some (JObject fields) =>
      snd <$> List.find (fun kv => String.eqb (fst kv) name) fields
  | _ => None
  end.

(** ToBoolean. *)
Definition truthyJson (value : option Json) : bool :=
  match value with
  | None | Some JNull => false
  | Some (JBool b) => b
  | Some (JNumber n) => negb (n =? 0)
  | Some (JString s) => negb (String.eqb s "")
  | Some (JArray _) | Some (JObject _) => true
  end.

(** [data?.data?.user_result_by_screen_name?.result?.about_profile
    ?.account_based_in || null]; [None] is [null]. *)
Definition accountBasedIn (data : Json) : option Json :=
  let value :=
    member "account_based_in"
      (member "about_profile"
         (member "result"
            (member "user_result_by_screen_name"
               (member "data" (Some data))))) in
  if truthyJson value then value else None.

(** The value of a character as a digit in a radix. *)
Definition digit (radix : Z) (c : ascii) : option Z :=
  let n := Z.of_N (Ascii.N_of_ascii c) in
  let value :=
    if (48 <=? n) && (n <=? 57) then Some (n - 48)
    else if (97 <=? n) && (n <=? 122) then Some (n - 87)
    else if (65 <=? n) && (n <=? 90) then Some (n - 55)
    else None in
  match value with
  | Some d => if d <? radix then Some d else None
  | None => None
  end.

(** The number the longest run of digits at the front spells; [None]
    when there is no digit. *)
Fixpoint digits (radix : Z) (acc : option Z) (l : list ascii) : option Z :=
  match l with
  | [] => acc
  | c :: l1 =>
      match digit radix c with
      | Some d => digits radix (Some (radix * default 0 acc + d)) l1
      | None => acc
      end
  end.

(** A number of the engine, which is a double, as far as the two
    scripts tell numbers apart: [NaN]; an integer below 2^53 in absolute
    value, which a double holds as it is; or a number of absolute value
    2^53 or more, which the engine may have rounded and which may be
    infinite: of such a number the sign is kept and nothing else. *)
Inductive Number :=
| NaN
| Exact (n : Z)
| Beyond (positive : bool).

(** The number the engine has for an integer: the integer itself below
    2^53, and beyond that the double next to it, which is not below
    2^53 either. *)
Definition number (n : Z) : Number :=
  if Z.abs n <? 9007199254740992 then Exact n else Beyond (0 <? n).

(** [x * 1000] *)
Definition thousandfold (x : Number) : Number :=
  match x with
  | NaN => NaN
  | Exact n => number (n * 1000)
  | Beyond positive => Beyond positive
  end.

(** [Math.max(0, x)] *)
Definition atLeastZero (x : Number) : Number :=
  match x with
  | NaN => NaN
  | Exact n => Exact (Z.max 0 n)
  | Beyond true => Beyond true
  | Beyond false => Exact 0
  end.

(** [parseInt(string)]: the integer the digits spell, as the number the
    engine has for it. *)
Definition parseInt (s : string) : Number :=
  let l := Js.dropSpace true (list_ascii_of_string s) in
  let signed :=
    match l with
    | "-"%char :: l1 => (true, l1)
    | "+"%char :: l1 => (false, l1)
    | _ => (false, l)
    end in
  let based :=
    match snd signed with
    | "0"%char :: "x"%char :: l2 => (16, l2)
    | "0"%char :: "X"%char :: l2 => (16, l2)
    | l1 => (10, l1)
    end in
  match digits (fst based) None (snd based) with
  | Some n => number (if fst signed then - n else n)
  | None => NaN
  end.

(** The time value of [new Date(v)], where [None] is [NaN]: a date is
    valid up to 8.64e15 milliseconds on either side of the epoch. *)
Definition timeClip (v : Number) : option Z :=
  match v with
  | Exact t => if Z.abs t <=? 8640000000000000 then Some t else None
  | NaN | Beyond _ => None
  end.

(** [resetDate.getTime() - now], where [now] is [Date.now()]. *)
Definition elapse (time : option Z) (now : Z) : Number :=
  match time with
  | Some t => number (t - now)
  | None => NaN
  end.

(** What [fetch] gave: the status of the response, its header
    [x-rate-limit-reset] and its body read as JSON, when it is JSON. *)
Record Response := {
  status : Z;
  rateLimitReset : option string;
  body : option Json
}.

(** [response.ok] *)
Definition ok (r : Response) : bool := (200 <=? status r) && (status r <=? 299).

Inductive Fetched :=
| Failed
| Answered (r : Response).

(** The messages the script posts; for a location [None] is [null]. *)
Inductive Posted :=
| PostedRateLimit (resetTime waitTime : Number)
| PostedLocation (screenName : string) (location : option Json)
                 (requestId : RequestId).

(** The handler of [__fetchLocation] from the return of [fetch] on:
    the messages it posts, in order. [now] is [Date.now()]. *)
Definition answer (now : Z) (screenName : string) (requestId : RequestId)
           (fetched : Fetched) : list Posted :=
  match fetched with
  | Failed => [PostedLocation screenName None requestId]
  | Answered response =>
      if ok response then
        match body response with
        | Some data =>
            [PostedLocation screenName (accountBasedIn data) requestId]
        | None => [PostedLocation screenName None requestId]
        end
      else
        let info :=
          if status response =? 429 then
            match rateLimitReset response with
            | Some resetTime =>
                if negb (String.eqb resetTime "") then
                  let resetDate :=
                    timeClip (thousandfold (parseInt resetTime)) in
                  let waitTime := elapse resetDate now in
                  [PostedRateLimit (parseInt resetTime)
                                   (atLeastZero waitTime)]
                else []
            | None => []
            end
          else [] in
        info ++ [PostedLocation screenName None requestId]
  end.

Definition ENDPOINT : string :=
  "https://x.com/i/api/graphql/XRqGa7EeokUU5kppkh13EA/AboutAccountQuery".

(** The handler of [__fetchLocation] after its wait for the headers.
    [variables] is [encodeURIComponent(JSON.stringify({ screenName }))],
    [None] when it throws; the request goes through the replacement of
    [window.fetch], which captures the headers the request is made
    with. *)
Definition onFetchLocation (now : Z) (screenName : string)
           (requestId : RequestId) (variables : option string)
           (fetched : Fetched) (p : Page) : Page * list Posted :=
  match variables with
  | None => (p, [PostedLocation screenName None requestId])
  | Some v =>
      let url := ENDPOINT +:+ "?variables=" +:+ v in
      let headers := requestHeaders p in
      (fetchHook (Some url) (PlainObject headers) p,
       answer now screenName requestId fetched)
  end.

(** A message of the page script and the message of [Content] the
    content script reads it as. The content script logs the wait and
    does nothing else with it, so a rate-limit message is read in the
    same way whatever its wait. A reset time that is no integer below
    2^53 and a location that is neither a string nor [null] are not
    among the messages of [Content]: of such a message nothing is
    said. *)
Inductive Reads : Posted -> Message -> Prop :=
| reads_limit (reset : Z) (waitTime : Number) (wait : Z) :
    Reads (PostedRateLimit (Exact reset) waitTime) (RateLimitInfo reset wait)
| reads_null (screenName : string) (requestId : RequestId) :
    Reads (PostedLocation screenName None requestId)
          (LocationResponse screenName None requestId)
| reads_string (screenName location : string) (requestId : RequestId) :
    Reads (PostedLocation screenName (Some (JString location)) requestId)
          (LocationResponse screenName (Some location) requestId).

(** No captured header is under [__proto__]. *)
Definition Clean (p : Page) : Prop :=
  forall headers, twitterHeaders p = Some headers ->
                  headers !! "__proto__" = None.

(** What happens to the page script. *)
Inductive PageEvent :=
| Fetch (url : option string) (headers : HeadersArg)
| XhrSend (x : Xhr)
| DefaultsTimer
| Lookup (now : Z) (screenName : string) (requestId : RequestId)
         (variables : option string) (fetched : Fetched).

(** One event; a [send] that throws leaves the variables as they
    are. *)
Definition pageStep (p : Page) (e : PageEvent) : Page :=
  match e with
  | Fetch url headers => fetchHook url headers p
  | XhrSend x => default p (xhrSend x p)
  | DefaultsTimer => useDefaults p
  | Lookup now screenName requestId variables fetched =>
      fst (onFetchLocation now screenName requestId variables fetched p)
  end.

Definition pageRun (events : list PageEvent) (p : Page) : Page :=
  List.fold_left pageStep events p.

End PageScript.

(** * The vocabulary of the properties *)

Module Terms.

Import Dom Scan Content.

(** A string as the case-insensitive match of [getCountryFlag] sees it:
    trimmed, then in lower case. *)
Definition folded (s : string) : string := Js.toLowerCase (Js.trim s).

(** Equality of two entries of the flag table, as a test. *)
Definition pairEqb (a b : string * string) : bool :=
  String.eqb (fst a) (fst b) && String.eqb (snd a) (snd b).

(** The part of the state the cache and the storage live in. *)
Definition cachePart (s : State) :=
  (locationCache s, saveTimeout s, storage s, writing s).

(** The part of the state the request queue lives in, timers apart. *)
Definition queuePart (s : State) :=
  (requestQueue s, isProcessingQueue s, lastRequestTime s, activeRequests s,
   rateLimitResetTime s, listeners s, settled s, nextCallback s, posted s,
   clock s, booted s).

(** The timers only grow under these helpers. *)
Definition grows (s s1 : State) : Prop :=
  exists more, timers s1 = timers s ++ more.

(** The stamp every entry gets at a save made at [now]. *)
Definition stamped (now : Z) (loc : option string) : CacheData :=
  {| location := loc;
     expiry := Some (now + CACHE_EXPIRY_DAYS * 24 * 60 * 60 * 1000);
     cachedAt := Some now |}.

(** The entries of a stored object that come before its first entry
    that is [null]: the ones the loop of [loadCache] reads. *)
Fixpoint beforeNull (entries : list (string * option CacheData)) :
  list (string * CacheData) :=
  match entries with
  | (username, Some data) :: entries1 =>
      (username, data) :: beforeNull entries1
  | _ => []
  end.


(** The timers of the queue: the end of a pause of the loop and the
    timeouts of the requests. *)
Definition isResume (tm : Timer) : bool :=
  match task tm with
  | ResumeQueue => true
  | _ => false
  end.

(** The timers the invariants of the queue speak of. *)
Definition isQueueTimer (tm : Timer) : bool :=
  match task tm with
  | ResumeQueue | RequestTimeout _ _ _ => true
  | _ => false
  end.

(** What the invariants of the queue look at in a state. *)
Record View := {
  vQueue : list Queued;
  vBusy : bool;
  vLast : Z;
  vActive : Z;
  vListeners : list Listener;
  vSettled : gmap nat Outcome;
  vNext : nat;
  vTimes : list Z;
  vClock : Z;
  vTimers : list Timer
}.

Definition view (s : State) : View :=
  {| vQueue := requestQueue s;
     vBusy := isProcessingQueue s;
     vLast := lastRequestTime s;
     vActive := activeRequests s;
     vListeners := listeners s;
     vSettled := settled s;
     vNext := nextCallback s;
     vTimes := dispatchTimes s;
     vClock := clock s;
     vTimers := List.filter isQueueTimer (timers s) |}.

(** Successive dispatch times, latest first, lie at least
    [MIN_REQUEST_INTERVAL] apart. *)
Fixpoint Spaced (times : list Z) : Prop :=
  match times with
  | [] => True
  | t1 :: rest =>
      match rest with
      | [] => True
      | t2 :: _ => t2 + MIN_REQUEST_INTERVAL <= t1
      end /\ Spaced rest
  end.

(** The callbacks of the requests that are queued or under way. *)
Definition pending (v : View) : list nat :=
  List.map callback (vQueue v) ++ List.map forCallback (vListeners v).

(** The invariants of the request queue: the counter of active requests
    counts the registered handlers and the dispatches not yet settled,
    and is at most two; the callbacks queued or under way are distinct,
    unsettled and older than the next one; a settled promise is
    resolved; the timeout of an unsettled request has its handler
    registered; a pause of the loop is pending only while the flag is
    set, alone, with a free slot and a request to dispatch, and ends no
    sooner than [MIN_REQUEST_INTERVAL] after the last dispatch; the
    dispatch times are spaced and none is later than the last one
    recorded. *)
Record Inv (v : View) : Prop := {
  inv_active : vActive v = Z.of_nat (List.length (vListeners v));
  inv_bound : (List.length (vListeners v) <= 2)%nat;
  inv_nodup : List.NoDup (pending v);
  inv_fresh : forall cb, In cb (pending v) ->
                         vSettled v !! cb = None /\ (cb < vNext v)%nat;
  inv_old : forall cb o, vSettled v !! cb = Some o ->
                         (cb < vNext v)%nat /\ o <> Rejected;
  inv_timeout : forall tm name rid cb,
      In tm (vTimers v) -> task tm = RequestTimeout name rid cb ->
      vSettled v !! cb = None ->
      In cb (List.map forCallback (vListeners v));
  inv_idle : vBusy v = false -> List.filter isResume (vTimers v) = [];
  inv_one : (List.length (List.filter isResume (vTimers v)) <= 1)%nat;
  inv_pause : forall tm,
      In tm (vTimers v) -> isResume tm = true ->
      vLast v + MIN_REQUEST_INTERVAL <= due tm
      /\ (List.length (vListeners v) < 2)%nat
      /\ vQueue v <> [];
  inv_last : vLast v <= vClock v;
  inv_spaced : Spaced (vTimes v);
  inv_head : forall t, In t (vTimes v) -> t <= vLast v;
  inv_count : Z.of_nat (List.length (vTimes v))
              = vActive v + Z.of_nat (size (vSettled v))
}.

(** The loop of [processRequestQueue] is running: the flag is set and
    no pause is pending. *)
Definition Running (v : View) : Prop :=
  vBusy v = true /\ List.filter isResume (vTimers v) = [].

(** Removing the handler of one callback from the registered ones. *)
Definition without (cb : nat) (ls : list Listener) : list Listener :=
  List.filter (fun l => negb (Nat.eqb (forCallback l) cb)) ls.

(** A view with another counter and other settlements. *)
Definition withSettlement (a : Z) (m : gmap nat Outcome) (v : View) : View :=
  {| vQueue := vQueue v; vBusy := vBusy v; vLast := vLast v; vActive := a;
     vListeners := vListeners v; vSettled := m; vNext := vNext v;
     vTimes := vTimes v; vClock := vClock v; vTimers := vTimers v |}.

(** The timer [tm] is the timeout of the request the handler [l] waits
    for: it is due ten seconds after the dispatch, whose time is the
    first part of the request identifier. *)
Definition timeoutOf (l : Listener) (tm : Timer) : Prop :=
  task tm = RequestTimeout (forName l) (forRequest l) (forCallback l)
  /\ due tm = fst (forRequest l) + 10000.

(** From [s] to [s1] timers were only added, with new identifiers,
    every handler that was added came with its timeout, and the promises
    that were settled are settled the same way. *)
Definition Evolves (s s1 : State) : Prop :=
  (exists more,
      timers s1 = timers s ++ more
      /\ List.NoDup (List.map tid more)
      /\ forall tm, In tm more -> (nextTimer s <= tid tm < nextTimer s1)%nat)
  /\ (nextTimer s <= nextTimer s1)%nat
  /\ (forall l, In l (listeners s1) ->
                In l (listeners s)
                \/ exists tm, In tm (timers s1) /\ timeoutOf l tm)
  /\ (forall cb o, settled s !! cb = Some o -> settled s1 !! cb = Some o).

(** A change that leaves timers, handlers and settlements alone. *)
Definition Quiet (s s1 : State) : Prop :=
  timers s1 = timers s /\ nextTimer s1 = nextTimer s
  /\ listeners s1 = listeners s /\ settled s1 = settled s.

(** The timers have distinct identifiers, all below the next one, and
    every registered handler has its timeout set. *)
Record TimerInv (s : State) : Prop := {
  ti_below : forall tm, In tm (timers s) -> (tid tm < nextTimer s)%nat;
  ti_nodup : List.NoDup (List.map tid (timers s));
  ti_timeout : forall l, In l (listeners s) ->
                         exists tm, In tm (timers s) /\ timeoutOf l tm
}.

(** No event of the trace is the firing of the timer [id]. *)
Definition spares (id : nat) (trace : list Tick) : Prop :=
  forall tick, In tick trace -> snd tick <> Fire id.

End Terms.

(** ** A page, a clock and some traces to run the script on *)

Module Sample.

Import Dom Scan Content.

(** A user cell that links to the profile of [handle]. *)
Definition cell (u : nat) (handle : string) : Node :=
  Element (Host u) "div" [("data-testid", "UserCell")]
          [Element (Host (S u)) "a" [("href", "/" +:+ handle)]
                   [Text ("@" +:+ handle)]].

Definition twoCells : list Node := [cell 10 "alice"; cell 20 "bob"].

Definition home : string := "https://x.com/home".

Definition t0 : Z := 1700000000000.

(** The script starts, and its first scan two seconds later finds the
    two cells: the lookup of [alice] is dispatched, the one of [bob]
    waits in the queue while the loop pauses. *)
Definition firstScan : list Tick :=
  [ (t0, 0%N, Loaded (ReadDone None));
    (t0 + 2000, 7%N, Fire 1) ].

(** The server answers the lookup of [alice] with status 429: the page
    script posts the rate-limit reset, fifteen minutes ahead, and an
    empty response. *)
Definition limited : list Tick :=
  firstScan ++
  [ (t0 + 2500, 0%N, Receive true (RateLimitInfo 1700000900 897500));
    (t0 + 2500, 0%N,
     Receive true (LocationResponse "alice" None (t0 + 2000, 7%N)));
    (t0 + 2700, 0%N, Fire 6) ].

(** The pause of the loop ends. *)
Definition pauseEnds : list Tick := [ (t0 + 4000, 9%N, Fire 4) ].

(** The state a trace leads to from the start on a page, the start
    itself when the trace cannot happen. *)
Definition after (trace : list Tick) (doc : list Node) : State :=
  default (boot doc home) (run trace (boot doc home)).

(** A stored object with one entry that has ten days left at [t0] and
    one that expired a second before. *)
Definition stored : gmap string CacheData :=
  {[ "alice" := {| location := Some "France";
                   expiry := Some (t0 + 864000000);
                   cachedAt := Some (t0 - 1728000000) |};
     "bob" := {| location := Some "Spain";
                 expiry := Some (t0 - 1000);
                 cachedAt := Some (t0 - 2592001000) |} ]}.

(** A stored object whose second entry is [null], between two entries
    that have ten days left at [t0]. *)
Definition broken : list (string * option CacheData) :=
  [ ("alice", Some {| location := Some "France";
                      expiry := Some (t0 + 864000000);
                      cachedAt := Some (t0 - 1728000000) |});
    ("bob", None);
    ("carol", Some {| location := Some "Japan";
                      expiry := Some (t0 + 864000000);
                      cachedAt := Some (t0 - 1728000000) |}) ].

(** On a page that links to the profile [/__proto__]: the first scan
    dispatches the lookup, the lookup times out, and the debounced save
    runs. *)
Definition protoSaved : list Tick :=
  [ (t0, 0%N, Loaded (ReadDone None));
    (t0 + 2000, 7%N, Fire 1);
    (t0 + 12000, 0%N, Fire 3);
    (t0 + 17000, 0%N, Fire 4) ].

(** A cell already marked as done. *)
Definition doneCell : Node :=
  Element (Host 30) "div"
          [("data-testid", "UserCell"); ("data-flag-added", "true")]
          [Element (Host 31) "a" [("href", "/carol")] [Text "@carol"]].

End Sample.

(** ** Paths into a subtree *)

Module Paths.

Import Dom Scan.

(** The element descendants of the nodes of a list that are the children
    of one node, the first of them being child number [i]: the inner
    loop of [descendants]. *)
Fixpoint under (i : nat) (l : list Node) : list (Path * Node) :=
  match l with
  | [] => []
  | k :: l1 =>
      match k with
      | Text _ => under (S i) l1
      | Element _ _ _ _ =>
          ([i], k)
            :: List.map (fun pn => (i :: fst pn, snd pn)) (descendants k)
            ++ under (S i) l1
      end
  end.

(** A character that ends the first segment of an address. *)
Definition endsSegment (c : ascii) : Prop := c = "/"%char \/ c = "?"%char.

(** The characters of a string. *)
Fixpoint chars (s : string) : list ascii :=
  match s with
  | EmptyString => []
  | String c s1 => c :: chars s1
  end.

End Paths.

(** ** The order of the lookups *)

Module Lines.

Import Dom Scan Content Terms.

(** Every element of a list stands in the relation to all that come
    after it. *)
Fixpoint Ascending {A} (R : A -> A -> Prop) (l : list A) : Prop :=
  match l with
  | [] => True
  | x :: l1 => (forall y, In y l1 -> R x y) /\ Ascending R l1
  end.

(** The time at which the request of a handler was dispatched: the first
    part of its identifier. *)
Definition dispatchedAt (l : Listener) : Z := fst (forRequest l).

Definition apart (a b : Listener) : Prop :=
  dispatchedAt a + MIN_REQUEST_INTERVAL <= dispatchedAt b.

(** The promises of the lookups that are not answered: those of the
    requests under way, then those of the queue. *)
Definition inOrder (v : View) : list nat :=
  List.map forCallback (vListeners v) ++ List.map callback (vQueue v).

(** The order among the lookups: the requests under way were dispatched
    at least [MIN_REQUEST_INTERVAL] apart, none after the last dispatch
    recorded, and the promises of the lookups not answered are in the
    order in which they were made. *)
Record Order (v : View) : Prop := {
  ord_apart : Ascending apart (vListeners v);
  ord_recent : forall l, In l (vListeners v) -> dispatchedAt l <= vLast v;
  ord_fifo : Ascending lt (inOrder v)
}.

(** While the flag of the loop is set, a timer that takes the loop up
    again is pending. *)
Definition Paused (v : View) : Prop :=
  vBusy v = true -> exists tm, In tm (vTimers v) /\ isResume tm = true.

End Lines.

(** ** The bookkeeping of the saves *)

Module Savers.

Import Dom Scan Content Terms.

(** The timers of the two ways of saving: the debounce of
    [saveCacheEntry] and the interval of [init]. *)
Definition isDebounce (tm : Timer) : bool :=
  match task tm with
  | DebouncedSave => true
  | _ => false
  end.

Definition isPeriodic (tm : Timer) : bool :=
  match task tm with
  | PeriodicSave => true
  | _ => false
  end.

Definition isSaver (tm : Timer) : bool := isDebounce tm || isPeriodic tm.

(** The part of the state the saves live in. *)
Definition savePart (s : State) :=
  (saveTimeout s, writing s, storage s, booted s, clock s,
   List.filter isSaver (timers s)).

(** The debounced saves that are on their way: the timers set by
    [saveCacheEntry] and the writes they started. *)
Definition debouncing (s : State) : nat :=
  (List.length (List.filter isDebounce (timers s))
   + List.length (List.filter debounced (writing s)))%nat.

(** Every entry of a stored object was stamped by a save made no later
    than [now], and none is under [__proto__]. *)
Definition Stamped (now : Z) (b : gmap string CacheData) : Prop :=
  forall k d,
    b !! k = Some d ->
    k <> "__proto__"
    /\ exists t, t <= now /\ cachedAt d = Some t
                 /\ expiry d = Some (t + 2592000000).

(** The bookkeeping of the saves: [saveCache.timeout] is set exactly
    while one debounced save is on its way, and then names its timer;
    the interval of [init] is set once [init] has run; what was written
    or is being written is stamped. *)
Record Saving (s : State) : Prop := {
  sv_idle : saveTimeout s = None -> debouncing s = 0%nat;
  sv_armed : forall id,
      saveTimeout s = Some id ->
      debouncing s = 1%nat
      /\ forall tm, In tm (timers s) -> isDebounce tm = true -> tid tm = id;
  sv_periodic : List.length (List.filter isPeriodic (timers s))
                = if booted s then 1%nat else 0%nat;
  sv_stored : forall b, storage s = Some b -> Stamped (clock s) b;
  sv_writing : forall w, In w (writing s) -> Stamped (clock s) (blob w)
}.

End Savers.

(** ** A run that saves *)

Module SaveRuns.

Import Dom Scan Content Terms Sample.

(** After the first scan the lookup of [alice] times out, which caches
    [null] for her and sets the debounce timer. *)
Definition aliceCached : list Tick :=
  firstScan ++ [ (t0 + 12000, 0%N, Fire 3) ].

(** The debounce timer fires and the write it starts succeeds. *)
Definition aliceSaved : list Tick :=
  aliceCached ++ [ (t0 + 17000, 0%N, Fire 5);
                   (t0 + 17050, 0%N, Written true) ].

End SaveRuns.

(** ** The observers of the page *)

Module Watch.

Import Dom Scan Content Terms.

(** The scan a mutation observer asks for. *)
Definition rescan (id : nat) (dueAt : Z) : Timer :=
  {| tid := id; due := dueAt; task := CallProcessUsernames |}.

End Watch.

(** ** What a task posts *)

Module Posting.

Import Dom Scan Content Terms.

(** From [s] to [s1], within one task with the draw [rand], requests
    were posted and nothing else: each is a [__fetchLocation] whose
    identifier is the present time and the draw. *)
Definition Adds (rand : N) (s s1 : State) : Prop :=
  clock s1 = clock s
  /\ exists new,
      posted s1 = new ++ posted s
      /\ forall m, In m new ->
                   exists name,
                     m = (clock s, FetchLocation name (clock s, rand)).

End Posting.

(** ** The containers of the page, by identity *)

Module Marks.

Import Dom Scan Content.

(** The elements a node brings to the page: itself and its element
    descendants, in document order. *)
Definition elems (n : Node) : list Node :=
  match n with
  | Text _ => []
  | Element _ _ _ _ => n :: List.map snd (descendants n)
  end.

(** The test of [byUid]. *)
Definition hasUid (u : Ident) (n : Node) : bool :=
  match uidOf n with
  | Some v => sameIdent v u
  | None => false
  end.

(** The first element of an identity, before and after the elements of
    that identity are replaced by their images. *)
Definition Carried (u : Ident) (f : Node -> Node) (before after : list Node) :
  Prop :=
  match List.find (hasUid u) before with
  | Some _ => exists n1, hasUid u n1 = true
                         /\ List.find (hasUid u) after = Some (f n1)
  | None => List.find (hasUid u) after = None
  end.

End Marks.

(** * Properties *)

(** ** The flag table *)

Module FlagFacts.

Import Flags Terms.

Lemma pairEqb_eq a b : pairEqb a b = true -> a = b.
Proof.
  destruct a as [a1 a2], b as [b1 b2]. unfold pairEqb. simpl.
  rewrite andb_true_iff, !String.eqb_eq. intros [-> ->]. reflexivity.
Qed.

(** Two entries of the table whose keys agree up to case are the same
    entry. *)
Lemma keys_apart kv1 kv2 :
  In kv1 COUNTRY_FLAGS -> In kv2 COUNTRY_FLAGS ->
  Js.toLowerCase (fst kv1) = Js.toLowerCase (fst kv2) -> kv1 = kv2.
Proof.
  assert (H : forallb (fun a => forallb (fun b =>
              implb (String.eqb (Js.toLowerCase (fst a)) (Js.toLowerCase (fst b)))
                    (pairEqb a b)) COUNTRY_FLAGS) COUNTRY_FLAGS = true)
    by (vm_compute; reflexivity).
  rewrite forallb_forall in H.
  intros H1 H2 E. specialize (H _ H1). rewrite forallb_forall in H.
  specialize (H _ H2). apply String.eqb_eq in E. rewrite E in H.
  apply pairEqb_eq. exact H.
Qed.

(** The keys carry no white space at their ends and the glyphs are not
    empty. *)
Lemma keys_trimmed kv :
  In kv COUNTRY_FLAGS ->
  Js.trim (fst kv) = fst kv /\ Js.truthy (Js.Str (snd kv)) = true.
Proof.
  assert (H : forallb (fun a => String.eqb (Js.trim (fst a)) (fst a)
                                && Js.truthy (Js.Str (snd a)))
                      COUNTRY_FLAGS = true) by (vm_compute; reflexivity).
  rewrite forallb_forall in H. intros Hin. specialize (H _ Hin).
  apply andb_true_iff in H as [H1 H2]. apply String.eqb_eq in H1. auto.
Qed.

(** No inherited name agrees with a key up to case and white space. *)
Lemma inherited_apart p kv :
  In p Js.objectPrototype -> In kv COUNTRY_FLAGS ->
  Js.toLowerCase (fst kv) <> folded p.
Proof.
  assert (H : forallb (fun q => forallb (fun a =>
              negb (String.eqb (Js.toLowerCase (fst a)) (folded q)))
                COUNTRY_FLAGS) Js.objectPrototype = true)
    by (vm_compute; reflexivity).
  rewrite forallb_forall in H. intros Hp Hkv E. specialize (H _ Hp).
  rewrite forallb_forall in H. specialize (H _ Hkv).
  apply String.eqb_eq in E. rewrite E in H. discriminate.
Qed.

Lemma find_key_sound (name : string) kv :
  List.find (fun a => String.eqb (fst a) name) COUNTRY_FLAGS = Some kv ->
  In kv COUNTRY_FLAGS /\ fst kv = name.
Proof.
  intros H. apply find_some in H as [H1 H2].
  apply String.eqb_eq in H2. auto.
Qed.

(** [getCountryFlag(null)] and [getCountryFlag("")] are [null]. *)
Lemma getCountryFlag_absent :
  getCountryFlag None = Js.Null /\ getCountryFlag (Some "") = Js.Null.
Proof. split; reflexivity. Qed.

(** A string that agrees with a key up to case and surrounding white
    space gets the glyph of that key. *)
Lemma getCountryFlag_folded (name : string) kv :
  In kv COUNTRY_FLAGS ->
  folded name = Js.toLowerCase (fst kv) ->
  getCountryFlag (Some name) = Js.Str (snd kv).
Proof.
  intros Hin E. unfold getCountryFlag.
  destruct (negb (Js.truthy (Js.Str name))) eqn:Hname.
  { exfalso. simpl in Hname. apply negb_true_iff, negb_false_iff in Hname.
    apply String.eqb_eq in Hname. subst name.
    assert (H : forallb (fun a => negb (String.eqb (Js.toLowerCase (fst a)) ""))
                        COUNTRY_FLAGS = true) by (vm_compute; reflexivity).
    rewrite forallb_forall in H. specialize (H _ Hin).
    change (folded "") with "" in E. rewrite <- E in H.
    rewrite String.eqb_refl in H. discriminate. }
  cbv zeta. unfold Js.get.
  destruct (List.find (fun a => String.eqb (fst a) name) COUNTRY_FLAGS)
    as [own|] eqn:Hown.
  - apply find_key_sound in Hown as [Hown1 Hown2].
    destruct (keys_trimmed _ Hown1) as [Htrim Hglyph].
    rewrite Hglyph. f_equal.
    assert (own = kv) as ->; [|reflexivity].
    apply keys_apart; auto. rewrite <- E. unfold folded.
    rewrite <- Hown2, Htrim. reflexivity.
  - destruct (existsb (String.eqb name) Js.objectPrototype) eqn:Hproto.
    + exfalso. apply existsb_exists in Hproto as (p & Hp & Hpe).
      apply String.eqb_eq in Hpe. subst p.
      apply (inherited_apart name kv Hp Hin). symmetry. exact E.
    + simpl Js.truthy. cbv iota.
      destruct (List.find (fun a => String.eqb (Js.toLowerCase (fst a)) _)
                          COUNTRY_FLAGS) as [hit|] eqn:Hhit.
      * apply find_some in Hhit as [Hh1 Hh2]. apply String.eqb_eq in Hh2.
        f_equal. assert (hit = kv) as ->; [|reflexivity].
        apply keys_apart; auto. rewrite Hh2. exact E.
      * exfalso. apply (find_none _ _ Hhit) in Hin.
        fold (folded name) in Hin. rewrite E, String.eqb_refl in Hin.
        discriminate.
Qed.

(** A key of the table gets its own glyph. *)
Lemma getCountryFlag_key kv :
  In kv COUNTRY_FLAGS -> getCountryFlag (Some (fst kv)) = Js.Str (snd kv).
Proof.
  intros Hin. apply getCountryFlag_folded; auto.
  unfold folded. destruct (keys_trimmed _ Hin) as [-> _]. reflexivity.
Qed.

(** A string that agrees with no key, and is not the name of a property
    every object inherits, gets [null]. *)
Lemma getCountryFlag_unknown (name : string) :
  (forall kv, In kv COUNTRY_FLAGS -> folded name <> Js.toLowerCase (fst kv)) ->
  ~ In name Js.objectPrototype ->
  getCountryFlag (Some name) = Js.Null.
Proof.
  intros Hno Hproto. unfold getCountryFlag.
  destruct (negb (Js.truthy (Js.Str name))); [reflexivity|].
  cbv zeta. unfold Js.get.
  destruct (List.find (fun a => String.eqb (fst a) name) COUNTRY_FLAGS)
    as [own|] eqn:Hown.
  - exfalso. apply find_key_sound in Hown as [Hown1 Hown2].
    apply (Hno own Hown1). unfold folded.
    destruct (keys_trimmed _ Hown1) as [Htrim _].
    rewrite <- Hown2, Htrim. reflexivity.
  - destruct (existsb (String.eqb name) Js.objectPrototype) eqn:Hex.
    + exfalso. apply Hproto. apply existsb_exists in Hex as (p & Hp & Hpe).
      apply String.eqb_eq in Hpe. subst p. exact Hp.
    + simpl Js.truthy. cbv iota.
      destruct (List.find (fun a => String.eqb (Js.toLowerCase (fst a)) _)
                          COUNTRY_FLAGS) as [hit|] eqn:Hhit; [|reflexivity].
      exfalso. apply find_some in Hhit as [Hh1 Hh2].
      apply String.eqb_eq in Hh2. apply (Hno hit Hh1). symmetry. exact Hh2.
Qed.

(** The three spellings of the specification. *)
Example getCountryFlag_spellings :
  getCountryFlag (Some "united kingdom") = Js.Str "🇬🇧"
  /\ getCountryFlag (Some "UNITED KINGDOM") = Js.Str "🇬🇧"
  /\ getCountryFlag (Some "  United Kingdom  ") = Js.Str "🇬🇧"
  /\ getCountryFlag (Some "Atlantis") = Js.Null.
Proof. repeat split; vm_compute; reflexivity. Qed.

(** C5. The claim says that [getCountryFlag] gives [null] for every
    string that agrees with no key of the table. The string
    ["constructor"] agrees with no key, even up to case and white space,
    and yet the exact-match read [COUNTRY_FLAGS[countryName]] finds the
    property of that name that the table inherits from
    [Object.prototype]: the function returns that value, which is not
    [null], and the annotator displays it as a flag. *)
Theorem getCountryFlag_inherited_name :
  List.find (fun kv => String.eqb (Js.toLowerCase (fst kv)) (folded "constructor"))
            COUNTRY_FLAGS = None
  /\ List.find (fun kv => String.eqb (fst kv) "constructor") COUNTRY_FLAGS = None
  /\ getCountryFlag (Some "constructor") = Js.Builtin "constructor"
  /\ getCountryFlag (Some "constructor") <> Js.Null.
Proof.
  repeat split; try (vm_compute; reflexivity).
  vm_compute. discriminate.
Qed.

End FlagFacts.

(** ** Frames: what the helpers of the script leave alone *)

Module Frames.

Import Dom Scan Content Terms.

Lemma fold_left_keeps {A S} (P : S -> Prop) (f : S -> A -> S) (l : list A) :
  (forall a s, P s -> P (f s a)) -> forall s, P s -> P (List.fold_left f l s).
Proof.
  intros Hf. induction l as [|a l IH]; simpl; intros s Hs; [exact Hs|].
  apply IH, Hf, Hs.
Qed.

Lemma find_over_app {A} (f : A -> bool) (l1 l2 : list A) :
  List.find f (l1 ++ l2) =
  match List.find f l1 with
  | Some x => Some x
  | None => List.find f l2
  end.
Proof.
  induction l1 as [|x l1 IH]; simpl; [reflexivity|].
  destruct (f x); auto.
Qed.

(** Case analysis on every test a goal still shows. *)
Ltac split_tests :=
  repeat match goal with
         | |- context [match ?x with _ => _ end] => destruct x eqn:?; simpl
         end.

Lemma observe_cachePart added s : cachePart (observe added s) = cachePart s.
Proof. unfold observe. destruct added; simpl; split_tests; reflexivity. Qed.

Lemma observe_queuePart added s : queuePart (observe added s) = queuePart s.
Proof. unfold observe. destruct added; simpl; split_tests; reflexivity. Qed.

Lemma finish_cachePart uid name loc s :
  cachePart (finish uid name loc s) = cachePart s.
Proof.
  unfold finish. destruct (byUid uid (page s)); [|reflexivity].
  destruct (snd _); reflexivity.
Qed.

Lemma notify_cachePart before s : cachePart (notify before s) = cachePart s.
Proof.
  unfold notify. destruct (_ && _); [apply observe_cachePart|reflexivity].
Qed.

Lemma finish_queuePart uid name loc s :
  queuePart (finish uid name loc s) = queuePart s.
Proof.
  unfold finish. destruct (byUid uid (page s)); [|reflexivity].
  destruct (snd _); reflexivity.
Qed.

Lemma notify_queuePart before s : queuePart (notify before s) = queuePart s.
Proof.
  unfold notify. destruct (_ && _); [apply observe_queuePart|reflexivity].
Qed.

Lemma runJobs_cachePart s : cachePart (runJobs s) = cachePart s.
Proof.
  unfold runJobs.
  apply (fold_left_keeps (fun st => cachePart st = cachePart s)); [|reflexivity].
  intros j st H. rewrite finish_cachePart. exact H.
Qed.

Lemma runJobs_queuePart s : queuePart (runJobs s) = queuePart s.
Proof.
  unfold runJobs.
  apply (fold_left_keeps (fun st => queuePart st = queuePart s)); [|reflexivity].
  intros j st H. rewrite finish_queuePart. exact H.
Qed.

Lemma grows_refl s : grows s s.
Proof. exists []. rewrite app_nil_r. reflexivity. Qed.

Lemma grows_trans s1 s2 s3 : grows s1 s2 -> grows s2 s3 -> grows s1 s3.
Proof.
  intros [m1 H1] [m2 H2]. exists (m1 ++ m2).
  rewrite H2, H1, app_assoc. reflexivity.
Qed.

Lemma grows_same s s1 : timers s1 = timers s -> grows s s1.
Proof. intros H. exists []. rewrite H, app_nil_r. reflexivity. Qed.

Lemma setTimeout_grows t d s : grows s (setTimeout t d s).
Proof. eexists. reflexivity. Qed.

Lemma observe_grows added s : grows s (observe added s).
Proof.
  unfold observe. destruct added; simpl; split_tests;
    try apply grows_refl; try (eexists; reflexivity).
  eexists. simpl. rewrite <- app_assoc. reflexivity.
Qed.

Lemma finish_grows uid name loc s : grows s (finish uid name loc s).
Proof.
  unfold finish. destruct (byUid uid (page s)); [|apply grows_refl].
  destruct (snd _); apply grows_same; reflexivity.
Qed.

Lemma notify_grows before s : grows s (notify before s).
Proof.
  unfold notify. destruct (_ && _); [apply observe_grows|apply grows_refl].
Qed.

Lemma fold_finish_grows {A} (f : A -> Ident * string * option string)
      (l : list A) s :
  grows s (List.fold_left
             (fun st a => finish (fst (fst (f a))) (snd (fst (f a))) (snd (f a)) st)
             l s).
Proof.
  revert s. induction l as [|a l IH]; simpl; intros s; [apply grows_refl|].
  eapply grows_trans; [apply finish_grows|apply IH].
Qed.

Lemma runJobs_grows s : grows s (runJobs s).
Proof.
  unfold runJobs.
  eapply grows_trans;
    [|apply (fold_finish_grows
               (fun j => (readyElement j, readyName j, readyValue j)))].
  apply grows_same. reflexivity.
Qed.

Lemma saveCacheEntry_grows name loc s : grows s (saveCacheEntry name loc s).
Proof.
  unfold saveCacheEntry. simpl. destruct (saveTimeout s);
    [apply grows_same; reflexivity|eexists; reflexivity].
Qed.

Lemma settle_grows cb v s : grows s (settle cb v s).
Proof.
  unfold settle. destruct (settled s !! cb); [apply grows_refl|].
  eapply grows_trans;
    [|apply (fold_finish_grows (fun a => (onElement a, onName a, v)))].
  eexists. reflexivity.
Qed.

Lemma unlisten_grows cb s : grows s (unlisten cb s).
Proof. apply grows_same. reflexivity. Qed.

Lemma onResponse_grows l answer s : grows s (onResponse l answer s).
Proof.
  unfold onResponse.
  eapply grows_trans; [apply unlisten_grows|].
  eapply grows_trans; [apply saveCacheEntry_grows|apply settle_grows].
Qed.

Lemma receive_grows fromWindow m s : grows s (receive fromWindow m s).
Proof.
  unfold receive. destruct fromWindow; simpl; [|apply grows_refl].
  destruct m; try apply grows_refl.
  - generalize (List.filter (matches screenName0 requestId) (listeners s)).
    intros ls. revert s. induction ls as [|l ls IH]; simpl; intros s;
      [apply grows_refl|].
    eapply grows_trans; [apply onResponse_grows|apply IH].
  - destruct (booted s); [apply grows_same; reflexivity|apply grows_refl].
Qed.

(** A timer that is set stays the one found under its identifier while
    the timers grow. *)
Lemma timerOf_grows id tm s s1 :
  grows s s1 -> timerOf id s = Some tm -> timerOf id s1 = Some tm.
Proof.
  intros [more H]. unfold timerOf. rewrite H.
  generalize (timers s). intros l. induction l as [|x l IH]; simpl;
    [discriminate|].
  destruct (Nat.eqb (tid x) id); auto.
Qed.

Lemma settle_cache cb v s : locationCache (settle cb v s) = locationCache s.
Proof.
  unfold settle. destruct (settled s !! cb); [reflexivity|].
  match goal with
  | |- locationCache (List.fold_left ?f ?l ?s0) = _ =>
      apply (fold_left_keeps
               (fun st => locationCache st = locationCache s) f l);
        [|reflexivity]
  end.
  intros a st H.
  pose proof (finish_cachePart (onElement a) (onName a) v st) as E.
  unfold cachePart in E. injection E as E _ _ _. rewrite E. exact H.
Qed.

Lemma runJobs_cache s : locationCache (runJobs s) = locationCache s.
Proof.
  pose proof (runJobs_cachePart s) as E. unfold cachePart in E.
  injection E as E _ _ _. exact E.
Qed.

Lemma notify_cache before s :
  locationCache (notify before s) = locationCache s.
Proof.
  pose proof (notify_cachePart before s) as E. unfold cachePart in E.
  congruence.
Qed.

Lemma runJobs_settled s : settled (runJobs s) = settled s.
Proof.
  pose proof (runJobs_queuePart s) as E. unfold queuePart in E.
  congruence.
Qed.

Lemma notify_settled before s : settled (notify before s) = settled s.
Proof.
  pose proof (notify_queuePart before s) as E. unfold queuePart in E.
  congruence.
Qed.

End Frames.

(** ** The persistent cache *)

Module CacheFacts.

Import Dom Scan Content Terms Frames.

(** What [loadCache] leaves under a handle. *)
Lemma loadCache_lookup cached s (k : string) :
  locationCache (loadCache (ReadDone (Some cached)) s) !! k =
  match cached !! k with
  | Some d => if unexpired (clock s) d then Some (location d)
              else locationCache s !! k
  | None => locationCache s !! k
  end.
Proof.
  unfold loadCache. simpl. revert k.
  apply (map_fold_weak_ind
           (fun (r : gmap string (option string)) (m : gmap string CacheData) =>
              forall k : string,
                r !! k = match m !! k with
                         | Some d => if unexpired (clock s) d
                                     then Some (location d)
                                     else locationCache s !! k
                         | None => locationCache s !! k
                         end)).
  - intros k. rewrite lookup_empty. reflexivity.
  - intros i x m r Hi IH k. destruct (decide (i = k)) as [->|Hne].
    + rewrite lookup_insert_eq. destruct (unexpired (clock s) x).
      * rewrite lookup_insert_eq. reflexivity.
      * rewrite IH, Hi. reflexivity.
    + rewrite (lookup_insert_ne m) by exact Hne.
      destruct (unexpired (clock s) x).
      * rewrite lookup_insert_ne by exact Hne. apply IH.
      * apply IH.
Qed.

Lemma unexpired_spec now d :
  0 <= now -> (unexpired now d = true <-> exists e, expiry d = Some e /\ e > now).
Proof.
  intros Hnow. unfold unexpired. destruct (expiry d) as [e|].
  - rewrite andb_true_iff, negb_true_iff, Z.eqb_neq, Z.gtb_gt. split.
    + intros [_ H]. eauto.
    + intros (e1 & [= <-] & H). lia.
  - split; [discriminate|]. intros (e & H & _). discriminate.
Qed.

(** What [saveCache] writes under a handle: for every handle other than
    [__proto__], the cached location with the stamp of the save. *)
Lemma cacheObject_lookup now (cache : gmap string (option string)) (k : string) :
  cacheObject now cache !! k =
  if String.eqb k "__proto__" then None else stamped now <$> cache !! k.
Proof.
  unfold cacheObject. revert k.
  apply (map_fold_weak_ind
           (fun (r : gmap string CacheData) (m : gmap string (option string)) =>
              forall k : string,
                r !! k = if String.eqb k "__proto__" then None
                         else stamped now <$> m !! k)).
  - intros k. rewrite !lookup_empty. destruct (String.eqb k "__proto__"); reflexivity.
  - intros i x m r Hi IH k. unfold assign.
    destruct (String.eqb i "__proto__") eqn:Ei.
    + rewrite IH. destruct (String.eqb k "__proto__") eqn:Ek; [reflexivity|].
      rewrite lookup_insert_ne; [reflexivity|].
      intros ->. congruence.
    + destruct (decide (i = k)) as [->|Hne].
      * rewrite !lookup_insert_eq, Ei. reflexivity.
      * rewrite !lookup_insert_ne by exact Hne. apply IH.
Qed.

(** The thirty days of the stamp, in milliseconds. *)
Lemma stamped_expiry now loc :
  expiry (stamped now loc) = Some (now + 2592000000)
  /\ cachedAt (stamped now loc) = Some now
  /\ location (stamped now loc) = loc.
Proof. repeat split. Qed.


(** C6. For a handle that has an entry in the in-memory cache, be its
    value a location or [null], [getUserLocation] returns the cached
    value and leaves the whole state as it was: the request queue, the
    storage and the writes under way are unchanged. *)
Theorem getUserLocation_cached (name : string) (rand : N) (s : State)
        (v : option string) :
  locationCache s !! name = Some v ->
  getUserLocation name rand s = (s, Cached v)
  /\ requestQueue (fst (getUserLocation name rand s)) = requestQueue s
  /\ storage (fst (getUserLocation name rand s)) = storage s
  /\ writing (fst (getUserLocation name rand s)) = writing s
  /\ posted (fst (getUserLocation name rand s)) = posted s.
Proof.
  intros H. unfold getUserLocation. rewrite H. repeat split.
Qed.

(** The first entry of a list under a name, when no name comes twice. *)
Lemma find_key {A} (l : list (string * A)) (k : string) (d : A) :
  List.NoDup (List.map fst l) -> In (k, d) l ->
  List.find (fun kv => String.eqb (fst kv) k) l = Some (k, d).
Proof.
  induction l as [|[k1 d1] l IH]; intros Hn Hin; [contradiction|].
  inversion Hn as [|? ? Hk1 Hn1]; subst. simpl.
  destruct Hin as [Heq|Hin].
  - injection Heq as -> ->. rewrite String.eqb_refl. reflexivity.
  - destruct (String.eqb k1 k) eqn:E; [|apply IH; assumption].
    apply String.eqb_eq in E. subst k1. exfalso. apply Hk1.
    apply in_map_iff. exists (k, d). split; [reflexivity|exact Hin].
Qed.

Lemma beforeNull_keys entries (k : string) :
  In k (List.map fst (beforeNull entries)) -> In k (List.map fst entries).
Proof.
  induction entries as [|[k1 [d1|]] entries IH]; simpl; [tauto| |tauto].
  intros [H|H]; [left; exact H|right; apply IH; exact H].
Qed.

Lemma beforeNull_nodup entries :
  List.NoDup (List.map fst entries) ->
  List.NoDup (List.map fst (beforeNull entries)).
Proof.
  induction entries as [|[k1 [d1|]] entries IH]; simpl; intros Hn;
    [constructor| |constructor].
  inversion Hn as [|? ? Hk1 Hn1]; subst. constructor; [|apply IH; exact Hn1].
  intros H. apply Hk1. apply beforeNull_keys. exact H.
Qed.

(** What the loop of [loadCache] leaves under a handle, on entries of
    which one may be [null]. *)
Lemma loadEntries_lookup now entries :
  List.NoDup (List.map fst entries) ->
  forall (cache : gmap string (option string)) (k : string),
    loadEntries now entries cache !! k =
    match List.find (fun kv => String.eqb (fst kv) k) (beforeNull entries) with
    | Some kv => if unexpired now (snd kv) then Some (location (snd kv))
                 else cache !! k
    | None => cache !! k
    end.
Proof.
  induction entries as [|[k1 [d1|]] entries IH]; intros Hn cache k;
    [reflexivity| |reflexivity].
  inversion Hn as [|? ? Hk1 Hn1]; subst. simpl. rewrite (IH Hn1).
  destruct (String.eqb k1 k) eqn:E.
  - apply String.eqb_eq in E. subst k1.
    destruct (List.find _ (beforeNull entries)) as [kv|] eqn:Ef.
    { exfalso. apply Hk1. apply beforeNull_keys.
      apply List.find_some in Ef as [Hin Hk]. apply String.eqb_eq in Hk.
      apply in_map_iff. exists kv. split; [exact Hk|exact Hin]. }
    simpl. destruct (unexpired now d1); [apply lookup_insert_eq|reflexivity].
  - apply String.eqb_neq in E.
    assert (Hc : (if unexpired now d1 then <[k1 := location d1]> cache
                  else cache) !! k = cache !! k).
    { destruct (unexpired now d1); [|reflexivity].
      apply lookup_insert_ne. exact E. }
    rewrite Hc. reflexivity.
Qed.

(** C7, as amended. After [init] has loaded the cache at the time [now]
    from a stored object whose entries are all objects, a stored entry
    is in the in-memory map exactly when it has an expiry that is
    greater than [now], and it is there with its location; an entry
    whose expiry is not in the future is absent; a read that fails
    leaves the map empty. When an entry of the stored object is [null],
    the load stops at the first such entry: the entries listed before
    it are in the map exactly when they have an expiry greater than
    [now], the others are not. The script goes on in every case. *)
Theorem loadCache_admits_unexpired (doc : list Node) (url : string)
        (now : Z) (rand : N) (result : ReadResult) :
  0 <= now ->
  exists s,
    step now rand (Loaded result) (boot doc url) = Some s
    /\ (forall cached (k : string) v,
          result = ReadDone (Some cached) ->
          (locationCache s !! k = Some v <->
           exists d e, cached !! k = Some d /\ location d = v
                       /\ expiry d = Some e /\ e > now))
    /\ (forall cached (k : string) d e,
          result = ReadDone (Some cached) ->
          cached !! k = Some d -> expiry d = Some e -> e <= now ->
          locationCache s !! k = None)
    /\ (result = ReadFailed -> locationCache s = ∅)
    /\ (forall entries (k : string) v,
          result = ReadEntries entries ->
          List.NoDup (List.map fst entries) ->
          (locationCache s !! k = Some v <->
           exists d e, In (k, d) (beforeNull entries) /\ location d = v
                       /\ expiry d = Some e /\ e > now)).
Proof.
  intros Hnow. unfold step. simpl.
  destruct (now <? 0) eqn:E; [apply Z.ltb_lt in E; lia|].
  eexists. split; [reflexivity|].
  rewrite notify_cache, runJobs_cache. unfold init. simpl.
  set (s0 := set_clock now (boot doc url)).
  assert (Hloose : forall entries (k : string) v,
             List.NoDup (List.map fst entries) ->
             (locationCache (loadCache (ReadEntries entries) s0) !! k = Some v <->
              exists d e, In (k, d) (beforeNull entries) /\ location d = v
                          /\ expiry d = Some e /\ e > now)).
  { intros entries k v Hn. simpl. rewrite (loadEntries_lookup now entries Hn).
    rewrite lookup_empty. split.
    - destruct (List.find _ (beforeNull entries)) as [[k1 d]|] eqn:Ef;
        [|discriminate].
      apply List.find_some in Ef as [Hin Hk]. apply String.eqb_eq in Hk.
      simpl in Hk. subst k1. simpl.
      destruct (unexpired now d) eqn:Hu; [|discriminate].
      apply (unexpired_spec now d Hnow) in Hu as (e & He1 & He2).
      intros [= <-]. exists d, e. auto.
    - intros (d & e & Hin & <- & He1 & He2).
      rewrite (find_key _ _ _ (beforeNull_nodup _ Hn) Hin). simpl.
      assert (Hu : unexpired now d = true)
        by (apply (unexpired_spec now d Hnow); eauto).
      rewrite Hu. reflexivity. }
  assert (Hlook : forall cached (k : string),
             locationCache (loadCache (ReadDone (Some cached)) s0) !! k =
             match cached !! k with
             | Some d => if unexpired now d then Some (location d) else None
             | None => None
             end).
  { intros cached k. rewrite loadCache_lookup. simpl.
    rewrite lookup_empty. destruct (cached !! k) as [d|]; reflexivity. }
  repeat split.
  - subst result. rewrite Hlook. intros H.
    destruct (cached !! k) as [d|]; [|discriminate].
    destruct (unexpired now d) eqn:Hu; [|discriminate].
    apply (unexpired_spec now d Hnow) in Hu as (e & He1 & He2).
    exists d, e. injection H as <-. auto.
  - subst result. rewrite Hlook. intros (d & e & -> & <- & He1 & He2).
    assert (Hu : unexpired now d = true)
      by (apply (unexpired_spec now d Hnow); eauto).
    rewrite Hu. reflexivity.
  - intros cached k d e -> Hk He Hle. rewrite Hlook, Hk.
    destruct (unexpired now d) eqn:Hu; [|reflexivity].
    apply (unexpired_spec now d Hnow) in Hu as (e1 & He1 & He2).
    rewrite He in He1. injection He1 as <-. lia.
  - intros ->. reflexivity.
  - subst result. apply Hloose. assumption.
  - subst result. apply Hloose. assumption.
Qed.


End CacheFacts.

(** ** The request queue: what the invariants look at *)

Module QueueView.

Import Dom Scan Content Terms Frames.

Lemma view_eq s s1 :
  queuePart s1 = queuePart s ->
  List.filter isQueueTimer (timers s1) = List.filter isQueueTimer (timers s) ->
  view s1 = view s.
Proof.
  unfold queuePart, view, dispatchTimes. intros Hq Ht.
  injection Hq as -> -> -> -> _ -> -> -> -> -> _. rewrite Ht. reflexivity.
Qed.

Lemma filter_snoc_other (l : list Timer) tm :
  isQueueTimer tm = false ->
  List.filter isQueueTimer (l ++ [tm]) = List.filter isQueueTimer l.
Proof.
  intros H. rewrite List.filter_app. simpl. rewrite H. apply app_nil_r.
Qed.

Lemma view_setTimeout_other t d s :
  isQueueTimer {| tid := 0; due := 0; task := t |} = false ->
  view (setTimeout t d s) = view s.
Proof.
  intros H. apply view_eq; [reflexivity|]. simpl.
  apply filter_snoc_other. exact H.
Qed.

Lemma view_observe added s : view (observe added s) = view s.
Proof.
  unfold observe.
  destruct added; simpl; destruct (String.eqb _ _);
    rewrite ?view_setTimeout_other by reflexivity; try reflexivity;
    apply view_setTimeout_other; reflexivity.
Qed.

Lemma view_finish uid name loc s : view (finish uid name loc s) = view s.
Proof.
  unfold finish. destruct (byUid uid (page s)); [|reflexivity].
  destruct (snd _); reflexivity.
Qed.

Lemma view_notify before s : view (notify before s) = view s.
Proof. unfold notify. destruct (_ && _); [apply view_observe|reflexivity]. Qed.

Lemma view_fold_finish {A} (f : A -> Ident * string * option string)
      (l : list A) s :
  view (List.fold_left
          (fun st a => finish (fst (fst (f a))) (snd (fst (f a))) (snd (f a)) st)
          l s) = view s.
Proof.
  revert s. induction l as [|a l IH]; simpl; intros s; [reflexivity|].
  rewrite IH. apply view_finish.
Qed.

Lemma view_runJobs s : view (runJobs s) = view s.
Proof.
  unfold runJobs.
  rewrite (view_fold_finish
             (fun j => (readyElement j, readyName j, readyValue j))).
  reflexivity.
Qed.

Lemma view_saveCacheEntry name loc s : view (saveCacheEntry name loc s) = view s.
Proof.
  unfold saveCacheEntry. simpl. destruct (saveTimeout s); [reflexivity|].
  apply view_eq; [reflexivity|]. simpl. apply filter_snoc_other. reflexivity.
Qed.

Lemma view_saveCache b s : view (saveCache b s) = view s.
Proof. reflexivity. Qed.

Lemma view_written ok w rest s : view (written ok w rest s) = view s.
Proof. unfold written. destruct ok, (debounced w); reflexivity. Qed.

Lemma view_mutated doc added url s : view (mutated doc added url s) = view s.
Proof.
  unfold mutated. simpl. destruct (booted s); [|reflexivity].
  rewrite view_observe. reflexivity.
Qed.

Lemma view_loadCache result s : view (loadCache result s) = view s.
Proof. destruct result as [|[cached|]|entries]; reflexivity. Qed.

(** The view after the first settlement of a promise. *)
Lemma view_settle cb v s :
  view (settle cb v s) =
  match settled s !! cb with
  | Some _ => view s
  | None =>
      view (set_activeRequests (activeRequests s - 1)
              (set_settled (<[cb := Resolved v]> (settled s)) s))
  end.
Proof.
  unfold settle. destruct (settled s !! cb); [reflexivity|].
  rewrite (view_fold_finish (fun a => (onElement a, onName a, v))).
  apply view_eq; [reflexivity|]. simpl. apply filter_snoc_other. reflexivity.
Qed.

End QueueView.

(** ** The request queue: invariants *)

Module QueueInv.

Import Dom Scan Content Terms Frames QueueView.

Lemma inv_boot doc url : Inv (view (boot doc url)).
Proof.
  split; simpl; try (intros; contradiction); try lia; auto.
  - constructor.
  - intros cb o H. rewrite lookup_empty in H. discriminate.
Qed.

Lemma inv_set_clock now s :
  clock s <= now -> Inv (view s) -> Inv (view (set_clock now s)).
Proof.
  intros Hnow [A B C D E F G H P J K L M].
  split; simpl in *; auto. lia.
Qed.

Lemma filter_filter_comm {A} (f g : A -> bool) (l : list A) :
  List.filter f (List.filter g l) = List.filter g (List.filter f l).
Proof.
  induction l as [|x l IH]; simpl; [reflexivity|].
  destruct (f x) eqn:Ef, (g x) eqn:Eg; simpl; rewrite ?Ef, ?Eg, IH; reflexivity.
Qed.

Lemma filter_length_le {A} (f : A -> bool) (l : list A) :
  (List.length (List.filter f l) <= List.length l)%nat.
Proof.
  induction l as [|x l IH]; simpl; [lia|]. destruct (f x); simpl; lia.
Qed.

Lemma filter_nil_sub {A} (f g : A -> bool) (l : list A) :
  List.filter f l = [] -> List.filter f (List.filter g l) = [].
Proof.
  intros H. rewrite filter_filter_comm, H. reflexivity.
Qed.

Lemma view_dropTimer id s :
  view (dropTimer id s) =
  {| vQueue := vQueue (view s); vBusy := vBusy (view s);
     vLast := vLast (view s); vActive := vActive (view s);
     vListeners := vListeners (view s); vSettled := vSettled (view s);
     vNext := vNext (view s); vTimes := vTimes (view s);
     vClock := vClock (view s);
     vTimers := List.filter (fun tm => negb (Nat.eqb (tid tm) id))
                            (vTimers (view s)) |}.
Proof.
  unfold view, dropTimer. simpl. f_equal. apply filter_filter_comm.
Qed.

Lemma inv_dropTimer id s : Inv (view s) -> Inv (view (dropTimer id s)).
Proof.
  intros [A B C D E F G H P J K L M]. rewrite view_dropTimer.
  split; simpl in *; auto.
  - intros tm name rid cb Hin. apply List.filter_In in Hin as [Hin _]. eauto.
  - intros Hb. apply filter_nil_sub. auto.
  - rewrite filter_filter_comm.
    etransitivity; [apply filter_length_le|exact H].
  - intros tm Hin. apply List.filter_In in Hin as [Hin _]. eauto.
Qed.

Lemma resume_free_absurd (l : list Timer) tm :
  List.filter isResume l = [] -> In tm l -> isResume tm = true -> False.
Proof.
  intros H Hin Hr.
  assert (Hf : In tm (List.filter isResume l)) by (apply List.filter_In; auto).
  rewrite H in Hf. contradiction.
Qed.

(** One request leaves the queue and goes under way. *)
Lemma inv_dispatch item rest rand s :
  Inv (view s) -> Running (view s) ->
  requestQueue s = item :: rest ->
  activeRequests s < MAX_CONCURRENT_REQUESTS ->
  lastRequestTime s + MIN_REQUEST_INTERVAL <= clock s ->
  Inv (view (dispatch item rest rand s))
  /\ Running (view (dispatch item rest rand s))
  /\ requestQueue (dispatch item rest rand s) = rest.
Proof.
  intros [A B C D E F G H P J K L M] [R1 R2] Hq Hact Hlast.
  unfold pending in *. simpl in *. rewrite Hq in *. simpl in *.
  unfold MAX_CONCURRENT_REQUESTS, MIN_REQUEST_INTERVAL in *.
  assert (Hfilter : forall f,
             List.filter f (List.filter isQueueTimer
               (timers s ++ [{| tid := nextTimer s;
                                due := clock s + Z.max 0 10000;
                                task := RequestTimeout (screenName item)
                                          (clock s, rand) (callback item) |}]))
             = List.filter f (List.filter isQueueTimer (timers s))
               ++ List.filter f
                    [{| tid := nextTimer s; due := clock s + Z.max 0 10000;
                        task := RequestTimeout (screenName item)
                                  (clock s, rand) (callback item) |}]).
  { intros f. rewrite !List.filter_app. reflexivity. }
  split; [|split; [split|]]; try reflexivity.
  - split; unfold pending; simpl.
    + rewrite length_app. simpl. lia.
    + rewrite length_app. simpl. lia.
    + rewrite List.map_app. simpl. rewrite app_assoc.
      apply (Permutation.Permutation_NoDup
               (l := callback item :: List.map callback rest
                       ++ List.map forCallback (listeners s))); [|exact C].
      apply Permutation.Permutation_cons_append.
    + intros cb Hin. apply D. rewrite List.map_app in Hin. simpl in Hin.
      rewrite !in_app_iff in Hin. simpl in Hin. rewrite in_app_iff.
      destruct Hin as [Hin|[Hin|[Hin|[]]]]; auto.
    + exact E.
    + intros tm name rid cb Hin Htask Hs.
      rewrite List.filter_app, in_app_iff in Hin.
      rewrite List.map_app, in_app_iff. destruct Hin as [Hin|Hin].
      * left. eapply F; eauto.
      * right. simpl in Hin. destruct Hin as [<-|[]]. simpl in Htask.
        injection Htask as _ _ <-. simpl. auto.
    + rewrite R1. discriminate.
    + rewrite Hfilter. simpl. rewrite R2. simpl. lia.
    + intros tm Hin Hr. exfalso.
      rewrite List.filter_app, in_app_iff in Hin. destruct Hin as [Hin|Hin].
      * eapply resume_free_absurd; eauto.
      * simpl in Hin. destruct Hin as [<-|[]]. discriminate.
    + lia.
    + split; [|exact K]. unfold dispatchTimes in *.
      destruct (List.map fst (posted s)) as [|t2 ts] eqn:Ets; [trivial|].
      specialize (L t2 (or_introl eq_refl)).
      unfold MIN_REQUEST_INTERVAL. lia.
    + intros t [<-|Hin]; [lia|]. specialize (L t Hin). lia.
    + unfold dispatchTimes in *. lia.
  - exact R1.
  - simpl. rewrite Hfilter. simpl. rewrite R2. reflexivity.
Qed.

Lemma inv_stop s :
  Inv (view s) -> Running (view s) ->
  Inv (view (set_isProcessingQueue false s)).
Proof.
  intros [A B C D E F G H P J K L M] [R1 R2]. split; simpl in *; auto.
Qed.

Lemma inv_pause_loop s :
  Inv (view s) -> Running (view s) ->
  requestQueue s <> [] ->
  activeRequests s < MAX_CONCURRENT_REQUESTS ->
  clock s - lastRequestTime s < MIN_REQUEST_INTERVAL ->
  Inv (view (setTimeout ResumeQueue
                        (MIN_REQUEST_INTERVAL - (clock s - lastRequestTime s)) s)).
Proof.
  intros [A B C D E F G H P J K L M] [R1 R2] Hq Hact Hwait.
  unfold MAX_CONCURRENT_REQUESTS, MIN_REQUEST_INTERVAL in *.
  split; simpl in *; auto.
  - intros tm name rid cb Hin Htask.
    rewrite List.filter_app, in_app_iff in Hin. destruct Hin as [Hin|Hin].
    + eapply F; eauto.
    + simpl in Hin. destruct Hin as [<-|[]]. discriminate.
  - rewrite R1. discriminate.
  - rewrite !List.filter_app. simpl. rewrite R2. simpl. lia.
  - intros tm Hin Hr.
    rewrite List.filter_app, in_app_iff in Hin. destruct Hin as [Hin|Hin].
    + exfalso. eapply resume_free_absurd; eauto.
    + simpl in Hin. destruct Hin as [<-|[]]. simpl.
      unfold MIN_REQUEST_INTERVAL. repeat split; [lia|lia|exact Hq].
Qed.

(** The loop keeps the invariants, whether it stops, pauses or
    dispatches. *)
Lemma inv_drain rand queue :
  forall s, Inv (view s) -> Running (view s) -> requestQueue s = queue ->
            Inv (view (drain rand queue s)).
Proof.
  induction queue as [|item rest IH]; intros s HI HR Hq; simpl.
  - apply inv_stop; assumption.
  - destruct (activeRequests s <? MAX_CONCURRENT_REQUESTS) eqn:Ea;
      [|apply inv_stop; assumption].
    apply Z.ltb_lt in Ea.
    destruct (clock s - lastRequestTime s <? MIN_REQUEST_INTERVAL) eqn:Ew.
    + apply Z.ltb_lt in Ew. apply inv_pause_loop; auto.
      rewrite Hq. discriminate.
    + apply Z.ltb_ge in Ew.
      destruct (inv_dispatch item rest rand s HI HR Hq Ea) as (I1 & I2 & I3);
        [lia|].
      apply IH; assumption.
Qed.

Lemma timerOf_sound id s tm :
  timerOf id s = Some tm -> In tm (timers s) /\ tid tm = id.
Proof.
  unfold timerOf. intros H. apply find_some in H as [H1 H2].
  apply Nat.eqb_eq in H2. auto.
Qed.

Lemma short_list_one {A} (l : list A) x :
  (List.length l <= 1)%nat -> In x l -> l = [x].
Proof.
  destruct l as [|y [|z l]]; simpl; intros Hlen Hin;
    [contradiction| |lia].
  destruct Hin as [->|[]]. reflexivity.
Qed.

(** The timer of a pause fires: the loop goes on from its [await]. *)
Lemma inv_resume id tm rand s :
  Inv (view s) -> timerOf id s = Some tm -> task tm = ResumeQueue ->
  due tm <= clock s ->
  Inv (view (resume rand (dropTimer id s))).
Proof.
  intros HI Hfind Htask Hdue.
  apply timerOf_sound in Hfind as [Hin Hid].
  assert (Hq : In tm (vTimers (view s))).
  { simpl. apply List.filter_In. split; [exact Hin|].
    unfold isQueueTimer. rewrite Htask. reflexivity. }
  assert (Hr : isResume tm = true) by (unfold isResume; rewrite Htask; reflexivity).
  destruct (inv_pause _ HI tm Hq Hr) as (P1 & P2 & P3).
  assert (Hbusy : isProcessingQueue s = true).
  { destruct (isProcessingQueue s) eqn:Eb; [reflexivity|]. exfalso.
    eapply resume_free_absurd; [apply (inv_idle _ HI Eb)|exact Hq|exact Hr]. }
  assert (Hone : List.filter isResume (vTimers (view s)) = [tm]).
  { apply short_list_one; [apply (inv_one _ HI)|].
    apply List.filter_In. auto. }
  assert (HR : Running (view (dropTimer id s))).
  { split; [exact Hbusy|]. rewrite view_dropTimer. simpl.
    rewrite filter_filter_comm. simpl in Hone. rewrite Hone. simpl.
    rewrite Hid, Nat.eqb_refl. reflexivity. }
  pose proof (inv_dropTimer id s HI) as HI1.
  unfold resume. simpl in P1, P2, P3.
  change (requestQueue (dropTimer id s)) with (requestQueue s).
  destruct (requestQueue s) as [|item rest] eqn:Eq; [congruence|].
  assert (Ea : activeRequests (dropTimer id s) < MAX_CONCURRENT_REQUESTS).
  { simpl. pose proof (inv_active _ HI) as A. simpl in A.
    unfold MAX_CONCURRENT_REQUESTS. lia. }
  destruct (inv_dispatch item rest rand (dropTimer id s) HI1 HR Eq Ea)
    as (I1 & I2 & I3); [simpl; lia|].
  apply inv_drain; assumption.
Qed.

Lemma inv_processRequestQueue rand s :
  Inv (view s) -> Inv (view (processRequestQueue rand s)).
Proof.
  intros HI. unfold processRequestQueue.
  destruct (isProcessingQueue s || _) eqn:Eb; [exact HI|].
  apply orb_false_iff in Eb as [Eb _].
  destruct (_ && _).
  { rewrite view_setTimeout_other by reflexivity. exact HI. }
  set (s1 := if rateLimitResetTime s >? 0 then set_rateLimitResetTime 0 s else s).
  assert (Hv : view s1 = view s) by (unfold s1; destruct (_ >? _); reflexivity).
  assert (HR : Running (view (set_isProcessingQueue true s1))).
  { split; [reflexivity|]. change (vTimers (view (set_isProcessingQueue true s1)))
      with (vTimers (view s1)). rewrite Hv. apply (inv_idle _ HI). exact Eb. }
  apply inv_drain; [|exact HR|reflexivity].
  assert (HI1 : Inv (view s1)) by (rewrite Hv; exact HI).
  destruct HI1 as [A B C D E F G H P J K L M]. split; simpl in *; auto.
  discriminate.
Qed.

Lemma without_in cb ls c :
  In c (List.map forCallback (without cb ls)) <->
  In c (List.map forCallback ls) /\ c <> cb.
Proof.
  unfold without. rewrite !in_map_iff. split.
  - intros (l & <- & Hl). apply List.filter_In in Hl as [Hl Hne].
    apply negb_true_iff, Nat.eqb_neq in Hne. split; [eauto|exact Hne].
  - intros [(l & <- & Hl) Hne]. exists l. split; [reflexivity|].
    apply List.filter_In. split; [exact Hl|].
    apply negb_true_iff, Nat.eqb_neq. exact Hne.
Qed.

Lemma without_absent cb ls :
  ~ In cb (List.map forCallback ls) -> without cb ls = ls.
Proof.
  unfold without. induction ls as [|l ls IH]; simpl; intros H; [reflexivity|].
  destruct (Nat.eqb (forCallback l) cb) eqn:E.
  - apply Nat.eqb_eq in E. exfalso. apply H. auto.
  - simpl. rewrite IH; [reflexivity|]. intros Hin. apply H. auto.
Qed.

Lemma without_length cb ls :
  List.NoDup (List.map forCallback ls) -> In cb (List.map forCallback ls) ->
  (List.length (without cb ls) + 1 = List.length ls)%nat.
Proof.
  induction ls as [|l ls IH]; simpl; intros Hnd Hin; [contradiction|].
  apply List.NoDup_cons_iff in Hnd as [Hnot Hnd].
  destruct (Nat.eqb (forCallback l) cb) eqn:E; simpl.
  - apply Nat.eqb_eq in E. subst cb. fold (without (forCallback l) ls).
    rewrite without_absent by exact Hnot. lia.
  - apply Nat.eqb_neq in E. destruct Hin as [Hin|Hin]; [contradiction|].
    fold (without cb ls). rewrite <- (IH Hnd Hin). lia.
Qed.

Lemma nodup_map_filter {A B} (f : A -> B) (p : A -> bool) (l : list A) :
  List.NoDup (List.map f l) -> List.NoDup (List.map f (List.filter p l)).
Proof.
  induction l as [|x l IH]; simpl; intros H; [constructor|].
  apply List.NoDup_cons_iff in H as [Hnot H].
  destruct (p x); simpl; auto.
  apply List.NoDup_cons_iff. split; auto.
  intros Hin. apply Hnot. apply in_map_iff in Hin as (y & <- & Hy).
  apply List.filter_In in Hy as [Hy _]. apply in_map. exact Hy.
Qed.

Lemma nodup_app_parts {A} (l1 l2 : list A) :
  List.NoDup (l1 ++ l2) <->
  List.NoDup l1 /\ List.NoDup l2 /\ (forall x, In x l1 -> In x l2 -> False).
Proof.
  induction l1 as [|x l1 IH]; simpl.
  - split; [intros H; repeat split; [constructor|exact H|tauto]|tauto].
  - rewrite !List.NoDup_cons_iff, IH, in_app_iff. split.
    + intros (Hx & H1 & H2 & H3). repeat split; auto.
      * intros y [<-|Hy] Hy2; [tauto|eauto].
    + intros ((Hx & H1) & H2 & H3). repeat split; auto.
      * intros [Hin|Hin]; [tauto|]. apply (H3 x); auto.
      * intros y Hy Hy2. apply (H3 y); auto.
Qed.

(** A request under way is settled for the first time: its handler is
    gone, its promise is resolved and its slot is free. *)
Lemma inv_release cb v s s1 :
  Inv (view s) -> In cb (List.map forCallback (listeners s)) ->
  view s1 = view (unlisten cb s) ->
  Inv (view (settle cb v s1)).
Proof.
  intros [A B C D E F G H P J K L M] Hin Hv.
  unfold pending in *. simpl in *.
  assert (Hcb : settled s !! cb = None /\ (cb < nextCallback s)%nat).
  { apply D. apply in_app_iff. auto. }
  destruct Hcb as [Hnone Hlt].
  rewrite view_settle.
  assert (Hs1 : settled s1 = settled s).
  { change (vSettled (view s1) = settled s). rewrite Hv. reflexivity. }
  destruct (settled s1 !! cb) eqn:Es1; [congruence|]. clear Es1 Hs1.
  change (view (set_activeRequests (activeRequests s1 - 1)
                  (set_settled (<[cb := Resolved v]> (settled s1)) s1)))
    with (withSettlement (vActive (view s1) - 1)
                         (<[cb := Resolved v]> (vSettled (view s1))) (view s1)).
  rewrite Hv. unfold withSettlement. simpl.
  fold (without cb (listeners s)).
  apply nodup_app_parts in C as (C1 & C2 & C3).
  pose proof (without_length cb (listeners s) C2 Hin) as Hlen.
  split; unfold pending; simpl.
  - lia.
  - lia.
  - apply nodup_app_parts. repeat split; [exact C1| |].
    + apply nodup_map_filter. exact C2.
    + intros x Hx1 Hx2. apply without_in in Hx2 as [Hx2 _]. eauto.
  - intros c Hc. rewrite in_app_iff, without_in in Hc.
    assert (Hne : c <> cb).
    { destruct Hc as [Hc|[_ Hc]]; [|exact Hc]. intros ->. eauto. }
    rewrite lookup_insert_ne by congruence. apply D.
    rewrite in_app_iff. tauto.
  - intros c o. destruct (decide (cb = c)) as [<-|Hne].
    + rewrite lookup_insert_eq. intros [= <-]. split; [exact Hlt|discriminate].
    + rewrite lookup_insert_ne by exact Hne. apply E.
  - intros tm name rid c Htm Htask Hc.
    destruct (decide (cb = c)) as [<-|Hne].
    + rewrite lookup_insert_eq in Hc. discriminate.
    + rewrite lookup_insert_ne in Hc by exact Hne.
      apply without_in. split; [eapply F; eauto|congruence].
  - exact G.
  - exact H.
  - intros tm Htm Hr. destruct (P tm Htm Hr) as (P1 & P2 & P3).
    repeat split; [exact P1|lia|exact P3].
  - exact J.
  - exact K.
  - exact L.
  - rewrite map_size_insert_None by exact Hnone.
    unfold dispatchTimes in *.
    change (posted (unlisten cb s)) with (posted s). lia.
Qed.

(** Settling again a request that was settled changes nothing the
    invariants look at. *)
Lemma view_settled_again cb v name loc s o :
  Inv (view s) -> settled s !! cb = Some o ->
  view (settle cb v (saveCacheEntry name loc (unlisten cb s))) = view s.
Proof.
  intros HI Hs. rewrite view_settle.
  assert (Hu : view (unlisten cb s) = view s).
  { unfold unlisten. fold (without cb (listeners s)).
    rewrite without_absent; [reflexivity|].
    intros Hin. destruct (inv_fresh _ HI cb) as [Hn _].
    - unfold pending. apply in_app_iff. right. exact Hin.
    - simpl in Hn. congruence. }
  assert (Hs1 : settled (saveCacheEntry name loc (unlisten cb s)) = settled s).
  { change (vSettled (view (saveCacheEntry name loc (unlisten cb s))) = settled s).
    rewrite view_saveCacheEntry, Hu. reflexivity. }
  rewrite Hs1, Hs, view_saveCacheEntry. exact Hu.
Qed.

Lemma inv_onTimeout id tm name rid cb s :
  Inv (view s) -> timerOf id s = Some tm ->
  task tm = RequestTimeout name rid cb ->
  Inv (view (onTimeout name cb (dropTimer id s))).
Proof.
  intros HI Hfind Htask.
  apply timerOf_sound in Hfind as [Hin _].
  pose proof (inv_dropTimer id s HI) as HI1.
  unfold onTimeout.
  destruct (settled s !! cb) as [o|] eqn:Es.
  - rewrite (view_settled_again cb None name None (dropTimer id s) o);
      [exact HI1|exact HI1|exact Es].
  - eapply inv_release; [exact HI1| |apply view_saveCacheEntry].
    simpl. apply (inv_timeout _ HI tm name rid cb); auto.
    simpl. apply List.filter_In. split; [exact Hin|].
    unfold isQueueTimer. rewrite Htask. reflexivity.
Qed.

Lemma inv_onResponse l answer s :
  Inv (view s) -> In (forCallback l) (List.map forCallback (listeners s)) ->
  Inv (view (onResponse l answer s))
  /\ listeners (onResponse l answer s) = without (forCallback l) (listeners s).
Proof.
  intros HI Hin. unfold onResponse. split.
  - eapply inv_release; [exact HI|exact Hin|apply view_saveCacheEntry].
  - change (vListeners (view (settle (forCallback l) (orNull answer)
               (saveCacheEntry (forName l) (orNull answer)
                               (unlisten (forCallback l) s))))
            = without (forCallback l) (listeners s)).
    rewrite view_settle. destruct (settled _ !! _); simpl;
      change (vListeners (view (saveCacheEntry (forName l) (orNull answer)
                                  (unlisten (forCallback l) s)))
              = without (forCallback l) (listeners s));
      rewrite view_saveCacheEntry; reflexivity.
Qed.

(** A response is handled by every handler it matches. *)
Lemma inv_responses answer ls :
  forall s, Inv (view s) ->
            List.NoDup (List.map forCallback ls) ->
            (forall l, In l ls -> In (forCallback l) (List.map forCallback (listeners s))) ->
            Inv (view (List.fold_left (fun st l => onResponse l answer st) ls s)).
Proof.
  induction ls as [|l ls IH]; simpl; intros s HI Hnd Hsub; [exact HI|].
  apply List.NoDup_cons_iff in Hnd as [Hnot Hnd].
  destruct (inv_onResponse l answer s HI (Hsub l (or_introl eq_refl)))
    as [HI1 Hl].
  apply IH; [exact HI1|exact Hnd|].
  intros l1 Hl1. rewrite Hl. apply without_in. split; [auto|].
  intros Heq. apply Hnot. rewrite <- Heq. apply in_map. exact Hl1.
Qed.

Lemma inv_receive fromWindow m s :
  Inv (view s) -> Inv (view (receive fromWindow m s)).
Proof.
  intros HI. unfold receive. destruct fromWindow; simpl; [|exact HI].
  destruct m; try exact HI.
  - apply inv_responses; [exact HI| |].
    + apply nodup_map_filter.
      pose proof (inv_nodup _ HI) as C. unfold pending in C.
      apply nodup_app_parts in C as (_ & C & _). exact C.
    + intros l Hl. apply List.filter_In in Hl as [Hl _].
      apply in_map. exact Hl.
  - destruct (booted s); exact HI.
Qed.

Lemma inv_getUserLocation name rand s :
  Inv (view s) -> Inv (view (fst (getUserLocation name rand s))).
Proof.
  intros HI. unfold getUserLocation.
  destruct (locationCache s !! name); [exact HI|]. simpl.
  apply inv_processRequestQueue.
  destruct HI as [A B C D E F G H P J K L M].
  unfold pending in *. simpl in *.
  assert (Hnew : ~ In (nextCallback s)
                      (List.map callback (requestQueue s)
                       ++ List.map forCallback (listeners s))).
  { intros Hin. apply D in Hin as [_ Hlt]. lia. }
  split; unfold pending; simpl; auto.
  - rewrite List.map_app. simpl. rewrite <- app_assoc. simpl.
    eapply Permutation.Permutation_NoDup;
      [apply Permutation.Permutation_middle|].
    apply List.NoDup_cons; assumption.
  - intros cb Hin. rewrite List.map_app in Hin. simpl in Hin.
    rewrite !in_app_iff in Hin. simpl in Hin.
    destruct Hin as [[Hin|[<-|[]]]|Hin].
    + destruct (D cb) as [D1 D2]; [apply in_app_iff; auto|]. split; [exact D1|lia].
    + split; [|lia]. destruct (settled s !! nextCallback s) as [o|] eqn:Eo;
        [|reflexivity]. apply E in Eo as [Eo _]. lia.
    + destruct (D cb) as [D1 D2]; [apply in_app_iff; auto|]. split; [exact D1|lia].
  - intros cb o Ho. apply E in Ho as [E1 E2]. split; [lia|exact E2].
  - intros tm Hin Hr. destruct (P tm Hin Hr) as (P1 & P2 & P3).
    repeat split; auto. destruct (requestQueue s); discriminate.
Qed.

Lemma inv_addFlagToUsername uid name rand s :
  Inv (view s) -> Inv (view (addFlagToUsername uid name rand s)).
Proof.
  intros HI. unfold addFlagToUsername.
  destruct (byUid uid (page s)); [|exact HI].
  destruct (isDone _); [exact HI|].
  match goal with
  | |- context [getUserLocation name rand ?s1] =>
      pose proof (inv_getUserLocation name rand s1 HI) as H1;
        destruct (getUserLocation name rand s1) as [s2 [v|cb]]
  end; exact H1.
Qed.

Lemma inv_processUsernames rand s :
  Inv (view s) -> Inv (view (processUsernames rand s)).
Proof.
  intros HI. unfold processUsernames.
  apply (fold_left_keeps (fun st => Inv (view st))); [|exact HI].
  intros uid st Hst. unfold scanContainer.
  destruct (byUid uid (page st)); [|exact Hst].
  destruct (extractUsername _); [|exact Hst].
  destruct (wantsFlag _); [|exact Hst].
  apply inv_addFlagToUsername. exact Hst.
Qed.

Lemma inv_init result s : Inv (view s) -> Inv (view (init result s)).
Proof.
  intros HI. unfold init.
  rewrite view_setTimeout_other by reflexivity.
  change (Inv (view (setTimeout CallProcessUsernames 2000
                       (set_booted true (loadCache result s))))).
  rewrite view_setTimeout_other by reflexivity.
  change (Inv (view (loadCache result s))).
  rewrite view_loadCache. exact HI.
Qed.

Lemma inv_fire id tm rand s :
  Inv (view s) -> timerOf id s = Some tm -> due tm <= clock s ->
  Inv (view (fire tm rand (dropTimer id s))).
Proof.
  intros HI Hfind Hdue. unfold fire. destruct (task tm) eqn:Htask.
  - apply inv_processRequestQueue, inv_dropTimer, HI.
  - eapply inv_resume; eauto.
  - eapply inv_onTimeout; eauto.
  - apply inv_dropTimer, HI.
  - rewrite view_saveCache.
    match goal with
    | |- Inv (view ?s1) =>
        assert (Hv : view s1 = view (dropTimer id s))
    end.
    { apply view_eq; [reflexivity|]. simpl. apply filter_snoc_other. reflexivity. }
    rewrite Hv. apply inv_dropTimer, HI.
  - apply inv_processUsernames, inv_dropTimer, HI.
Qed.

Lemma inv_step now rand e s s1 :
  Inv (view s) -> step now rand e s = Some s1 -> Inv (view s1).
Proof.
  intros HI. unfold step.
  destruct (now <? clock s) eqn:En; [discriminate|]. apply Z.ltb_ge in En.
  pose proof (inv_set_clock now s En HI) as H0.
  destruct e as [result|id|fromWindow m|ok|doc added url|url1].
  - destruct (booted _); [discriminate|]. intros [= <-].
    rewrite view_notify, view_runJobs. apply inv_init. exact H0.
  - destruct (timerOf id (set_clock now s)) as [tm|] eqn:Ef; [|discriminate].
    destruct (now <? due tm) eqn:Ed; [discriminate|]. apply Z.ltb_ge in Ed.
    intros [= <-]. rewrite view_notify, view_runJobs. eapply inv_fire; eauto.
  - intros [= <-]. rewrite view_notify, view_runJobs. apply inv_receive. exact H0.
  - destruct (writing (set_clock now s)) as [|w rest]; [discriminate|].
    intros [= <-]. rewrite view_written. exact H0.
  - intros [= <-]. rewrite view_mutated. exact H0.
  - intros [= <-]. exact H0.
Qed.

(** Every state the script reaches satisfies the invariants. *)
Lemma inv_run trace :
  forall s s1, Inv (view s) -> run trace s = Some s1 -> Inv (view s1).
Proof.
  induction trace as [|[[now rand] e] trace IH]; simpl; intros s s1 HI Hrun.
  - injection Hrun as <-. exact HI.
  - destruct (step now rand e s) as [s2|] eqn:Es; [|discriminate].
    eapply IH; [|exact Hrun]. eapply inv_step; eauto.
Qed.

Lemma spaced_lookup (times : list Z) (i : nat) (t1 t2 : Z) :
  Spaced times -> nth_error times i = Some t1 ->
  nth_error times (S i) = Some t2 -> t2 + MIN_REQUEST_INTERVAL <= t1.
Proof.
  revert i. induction times as [|t times IH]; intros i Hs H1 H2;
    [destruct i; discriminate|].
  destruct Hs as [Hhd Htl]. destruct i as [|i].
  - simpl in H1, H2. injection H1 as <-.
    destruct times as [|t3 times]; [discriminate|].
    simpl in H2. injection H2 as <-. exact Hhd.
  - simpl in H1. apply (IH i Htl H1). exact H2.
Qed.

End QueueInv.

(** ** The request queue: settlements *)

Module Settlements.

Import Dom Scan Content Terms Frames QueueView QueueInv.

Lemma settle_settled cb v s :
  settled (settle cb v s) =
  match settled s !! cb with
  | Some _ => settled s
  | None => <[cb := Resolved v]> (settled s)
  end.
Proof.
  pose proof (f_equal vSettled (view_settle cb v s)) as H. simpl in H.
  rewrite H. destruct (settled s !! cb); reflexivity.
Qed.

Lemma saveCacheEntry_settled name loc s :
  settled (saveCacheEntry name loc s) = settled s.
Proof.
  pose proof (f_equal vSettled (view_saveCacheEntry name loc s)) as H.
  exact H.
Qed.

Lemma saveCacheEntry_cache name loc s :
  locationCache (saveCacheEntry name loc s) = <[name := loc]> (locationCache s).
Proof. unfold saveCacheEntry. simpl. destruct (saveTimeout s); reflexivity. Qed.

Lemma onTimeout_cache name cb s :
  locationCache (onTimeout name cb s) !! name = Some None.
Proof.
  unfold onTimeout. rewrite settle_cache, saveCacheEntry_cache.
  apply lookup_insert_eq.
Qed.

Lemma onTimeout_settled name cb s :
  settled (onTimeout name cb s) =
  match settled s !! cb with
  | Some _ => settled s
  | None => <[cb := Resolved None]> (settled s)
  end.
Proof.
  unfold onTimeout. rewrite settle_settled, saveCacheEntry_settled. reflexivity.
Qed.

Lemma onResponse_cache l answer s :
  locationCache (onResponse l answer s) !! forName l = Some (orNull answer).
Proof.
  unfold onResponse. rewrite settle_cache, saveCacheEntry_cache.
  apply lookup_insert_eq.
Qed.

Lemma onResponse_settled l answer s :
  settled (onResponse l answer s) =
  match settled s !! forCallback l with
  | Some _ => settled s
  | None => <[forCallback l := Resolved (orNull answer)]> (settled s)
  end.
Proof.
  unfold onResponse. rewrite settle_settled, saveCacheEntry_settled. reflexivity.
Qed.

(** After a response has been handled by the handlers it matches, the
    handle is cached with the answer. *)
Lemma responses_cache name answer ls :
  forall s, ls <> [] -> (forall l, In l ls -> forName l = name) ->
            locationCache (List.fold_left (fun st l => onResponse l answer st) ls s)
              !! name = Some (orNull answer).
Proof.
  induction ls as [|l ls IH]; intros s Hne Hall; [congruence|]. simpl.
  destruct ls as [|l2 ls].
  - simpl. rewrite <- (Hall l (or_introl eq_refl)). apply onResponse_cache.
  - apply IH; [discriminate|]. intros l1 Hl1. apply Hall. right. exact Hl1.
Qed.

(** ... and the promise of each of them is resolved with the answer,
    if it was not settled before. *)
Lemma responses_settled cb answer ls :
  forall s, settled s !! cb = None
            \/ settled s !! cb = Some (Resolved (orNull answer)) ->
            In cb (List.map forCallback ls)
            \/ settled s !! cb = Some (Resolved (orNull answer)) ->
            settled (List.fold_left (fun st l => onResponse l answer st) ls s)
              !! cb = Some (Resolved (orNull answer)).
Proof.
  induction ls as [|l ls IH]; simpl; intros s H1 H2.
  - destruct H2 as [[]|H2]. exact H2.
  - assert (Hstep : (forCallback l = cb ->
                     settled (onResponse l answer s) !! cb
                     = Some (Resolved (orNull answer)))
                    /\ (forCallback l <> cb ->
                        settled (onResponse l answer s) !! cb = settled s !! cb)).
    { rewrite onResponse_settled. split.
      - intros <-. destruct H1 as [H1|H1]; rewrite H1;
          [apply lookup_insert_eq|exact H1].
      - intros Hne. destruct (settled s !! forCallback l); [reflexivity|].
        apply lookup_insert_ne. exact Hne. }
    destruct Hstep as [S1 S2].
    destruct (decide (forCallback l = cb)) as [Heq|Hne].
    + apply IH; right; auto.
    + apply IH; rewrite (S2 Hne); [exact H1|].
      destruct H2 as [[H2|H2]|H2]; [contradiction|left; exact H2|right; exact H2].
Qed.

Lemma settle_clock cb v s : clock (settle cb v s) = clock s.
Proof.
  pose proof (f_equal vClock (view_settle cb v s)) as H. simpl in H.
  rewrite H. destruct (settled s !! cb); reflexivity.
Qed.

Lemma onResponse_clock l answer s : clock (onResponse l answer s) = clock s.
Proof.
  unfold onResponse. rewrite settle_clock.
  exact (f_equal vClock (view_saveCacheEntry _ _ _)).
Qed.

Lemma receive_clock fromWindow m s : clock (receive fromWindow m s) = clock s.
Proof.
  unfold receive. destruct fromWindow; simpl; [|reflexivity].
  destruct m; try reflexivity.
  - apply (fold_left_keeps (fun st => clock st = clock s)); [|reflexivity].
    intros l st H. rewrite onResponse_clock. exact H.
  - destruct (booted s); reflexivity.
Qed.

Lemma runJobs_clock s : clock (runJobs s) = clock s.
Proof. exact (f_equal vClock (view_runJobs s)). Qed.

Lemma notify_clock before s : clock (notify before s) = clock s.
Proof.
  pose proof (notify_queuePart before s) as E. unfold queuePart in E.
  congruence.
Qed.

(** What [dispatch] adds to the timers: the timeout of the request, due
    ten seconds after the dispatch. *)
Lemma dispatch_sets_timeout item rest rand s :
  timers (dispatch item rest rand s) =
  timers s ++ [{| tid := nextTimer s; due := clock s + 10000;
                  task := RequestTimeout (screenName item) (clock s, rand)
                                         (callback item) |}]
  /\ dispatchTimes (dispatch item rest rand s) = clock s :: dispatchTimes s.
Proof. split; reflexivity. Qed.

End Settlements.

(** ** Timers: what is set stays set until it fires *)

Module TimerFacts.

Import Dom Scan Content Terms Frames QueueInv.

Ltac quiet := repeat split; reflexivity.

Lemma evolves_quiet s s1 : Quiet s s1 -> Evolves s s1.
Proof.
  intros (Ht & Hn & Hl & Hs). split; [|split; [|split]].
  - exists []. rewrite Ht, app_nil_r.
    repeat split; [constructor|contradiction|contradiction].
  - lia.
  - intros l H. left. rewrite <- Hl. exact H.
  - intros cb o H. rewrite Hs. exact H.
Qed.

Lemma evolves_refl s : Evolves s s.
Proof. apply evolves_quiet. quiet. Qed.

Lemma evolves_trans s1 s2 s3 : Evolves s1 s2 -> Evolves s2 s3 -> Evolves s1 s3.
Proof.
  intros ((m1 & T1 & N1 & B1) & L1 & H1 & S1) ((m2 & T2 & N2 & B2) & L2 & H2 & S2).
  split; [|split; [|split]].
  - exists (m1 ++ m2). rewrite T2, T1, app_assoc. split; [reflexivity|]. split.
    + rewrite List.map_app. apply List.NoDup_app; [exact N1|exact N2|].
      intros x Hx1 Hx2. apply in_map_iff in Hx1 as (a & <- & Ha).
      apply in_map_iff in Hx2 as (b & Hb1 & Hb2).
      apply B1 in Ha. apply B2 in Hb2. lia.
    + intros tm Htm. apply in_app_iff in Htm as [Htm|Htm].
      * apply B1 in Htm. lia.
      * apply B2 in Htm. lia.
  - lia.
  - intros l Hl. apply H2 in Hl as [Hl|Hl]; [|right; exact Hl].
    apply H1 in Hl as [Hl|(tm & Htm & Hto)]; [left; exact Hl|].
    right. exists tm. split; [|exact Hto]. rewrite T2. apply in_app_iff. auto.
  - intros cb o H. apply S2, S1, H.
Qed.

Lemma evolves_then s s1 s2 : Evolves s s1 -> Quiet s1 s2 -> Evolves s s2.
Proof. intros H Q. eapply evolves_trans; [exact H|apply evolves_quiet, Q]. Qed.

Lemma evolves_after s s1 s2 : Quiet s s1 -> Evolves s1 s2 -> Evolves s s2.
Proof. intros Q H. eapply evolves_trans; [apply evolves_quiet, Q|exact H]. Qed.

Lemma evolves_setTimeout t d s : Evolves s (setTimeout t d s).
Proof.
  split; [|split; [|split]].
  - eexists. split; [reflexivity|]. split.
    + simpl. constructor; [intros []|constructor].
    + intros tm [<-|[]]. simpl. lia.
  - simpl. lia.
  - intros l H. left. exact H.
  - intros cb o H. exact H.
Qed.

Lemma evolves_observe added s : Evolves s (observe added s).
Proof.
  unfold observe. destruct added; simpl; destruct (String.eqb _ _).
  - apply evolves_setTimeout.
  - eapply evolves_trans; [apply evolves_setTimeout|].
    eapply evolves_after; [|apply evolves_setTimeout]. quiet.
  - apply evolves_refl.
  - eapply evolves_after; [|apply evolves_setTimeout]. quiet.
Qed.

Lemma evolves_finish uid name loc s : Evolves s (finish uid name loc s).
Proof.
  unfold finish. destruct (byUid uid (page s)); [|apply evolves_refl].
  destruct (snd _); apply evolves_quiet; quiet.
Qed.

Lemma evolves_notify before s : Evolves s (notify before s).
Proof.
  unfold notify. destruct (_ && _); [apply evolves_observe|apply evolves_refl].
Qed.

Lemma evolves_fold {A} (f : State -> A -> State) (l : list A) :
  (forall a s, Evolves s (f s a)) ->
  forall s, Evolves s (List.fold_left f l s).
Proof.
  intros Hf. induction l as [|a l IH]; simpl; intros s; [apply evolves_refl|].
  eapply evolves_trans; [apply Hf|apply IH].
Qed.

Lemma evolves_runJobs s : Evolves s (runJobs s).
Proof.
  unfold runJobs. eapply evolves_after; [|apply evolves_fold]; [quiet|].
  intros j st. apply evolves_finish.
Qed.

Lemma evolves_saveCacheEntry name loc s : Evolves s (saveCacheEntry name loc s).
Proof.
  unfold saveCacheEntry. simpl. destruct (saveTimeout s).
  - apply evolves_quiet. quiet.
  - eapply evolves_then; [|quiet].
    eapply evolves_after; [|apply evolves_setTimeout]. quiet.
Qed.

Lemma evolves_settle cb v s : Evolves s (settle cb v s).
Proof.
  unfold settle. destruct (settled s !! cb) eqn:Es; [apply evolves_refl|].
  eapply evolves_trans; [|apply evolves_fold; intros a st; apply evolves_finish].
  eapply evolves_then; [|quiet].
  eapply evolves_trans; [|apply evolves_setTimeout].
  split; [|split; [|split]]; simpl.
  - exists []. rewrite app_nil_r.
    repeat split; [constructor|contradiction|contradiction].
  - lia.
  - intros l H. left. exact H.
  - intros c o H. rewrite lookup_insert_ne; [exact H|]. congruence.
Qed.

Lemma evolves_unlisten cb s : Evolves s (unlisten cb s).
Proof.
  split; [|split; [|split]]; simpl.
  - exists []. rewrite app_nil_r.
    repeat split; [constructor|contradiction|contradiction].
  - lia.
  - intros l Hl. left. apply List.filter_In in Hl as [Hl _]. exact Hl.
  - intros c o H. exact H.
Qed.

Lemma evolves_onResponse l answer s : Evolves s (onResponse l answer s).
Proof.
  unfold onResponse.
  eapply evolves_trans; [apply evolves_unlisten|].
  eapply evolves_trans; [apply evolves_saveCacheEntry|apply evolves_settle].
Qed.

Lemma evolves_onTimeout name cb s : Evolves s (onTimeout name cb s).
Proof.
  unfold onTimeout.
  eapply evolves_trans; [apply evolves_unlisten|].
  eapply evolves_trans; [apply evolves_saveCacheEntry|apply evolves_settle].
Qed.

Lemma evolves_receive fromWindow m s : Evolves s (receive fromWindow m s).
Proof.
  unfold receive. destruct fromWindow; simpl; [|apply evolves_refl].
  destruct m; try apply evolves_refl.
  - apply evolves_fold. intros l st. apply evolves_onResponse.
  - destruct (booted s); [apply evolves_quiet; quiet|apply evolves_refl].
Qed.

Lemma evolves_dispatch item rest rand s : Evolves s (dispatch item rest rand s).
Proof.
  split; [|split; [|split]].
  - eexists. split; [reflexivity|]. split.
    + simpl. constructor; [intros []|constructor].
    + intros tm [<-|[]]. simpl. lia.
  - simpl. lia.
  - intros l Hl. simpl in Hl. apply in_app_iff in Hl as [Hl|[<-|[]]];
      [left; exact Hl|].
    right. eexists. split.
    + simpl. apply in_app_iff. right. left. reflexivity.
    + split; reflexivity.
  - intros c o H. exact H.
Qed.

Lemma evolves_drain rand queue : forall s, Evolves s (drain rand queue s).
Proof.
  induction queue as [|item rest IH]; intros s; simpl.
  - apply evolves_quiet. quiet.
  - destruct (activeRequests s <? MAX_CONCURRENT_REQUESTS);
      [|apply evolves_quiet; quiet].
    destruct (_ <? MIN_REQUEST_INTERVAL); [apply evolves_setTimeout|].
    eapply evolves_trans; [apply evolves_dispatch|apply IH].
Qed.

Lemma evolves_resume rand s : Evolves s (resume rand s).
Proof.
  unfold resume. destruct (requestQueue s) as [|item rest];
    [apply evolves_refl|].
  eapply evolves_trans; [apply evolves_dispatch|apply evolves_drain].
Qed.

Lemma evolves_processRequestQueue rand s : Evolves s (processRequestQueue rand s).
Proof.
  unfold processRequestQueue. destruct (_ || _); [apply evolves_refl|].
  destruct (_ && _); [apply evolves_setTimeout|].
  eapply evolves_after; [|apply evolves_drain].
  destruct (rateLimitResetTime s >? 0); quiet.
Qed.

Lemma evolves_getUserLocation name rand s :
  Evolves s (fst (getUserLocation name rand s)).
Proof.
  unfold getUserLocation. destruct (locationCache s !! name);
    [apply evolves_refl|]. simpl.
  eapply evolves_after; [|apply evolves_processRequestQueue]. quiet.
Qed.

Lemma evolves_addFlagToUsername uid name rand s :
  Evolves s (addFlagToUsername uid name rand s).
Proof.
  unfold addFlagToUsername. destruct (byUid uid (page s)); [|apply evolves_refl].
  destruct (isDone _); [apply evolves_refl|].
  match goal with
  | |- context [getUserLocation name rand ?s1] =>
      pose proof (evolves_getUserLocation name rand s1) as H;
        destruct (getUserLocation name rand s1) as [s2 [v|cb]]
  end; simpl in H;
    (eapply evolves_then; [|quiet]);
    (eapply evolves_after; [|exact H]; quiet).
Qed.

Lemma evolves_processUsernames rand s : Evolves s (processUsernames rand s).
Proof.
  unfold processUsernames. apply evolves_fold. intros uid st.
  unfold scanContainer. destruct (byUid uid (page st)); [|apply evolves_refl].
  destruct (extractUsername _); [|apply evolves_refl].
  destruct (wantsFlag _); [|apply evolves_refl].
  apply evolves_addFlagToUsername.
Qed.

Lemma evolves_init result s : Evolves s (init result s).
Proof.
  unfold init.
  eapply evolves_trans; [|apply evolves_setTimeout].
  eapply evolves_then; [|quiet].
  eapply evolves_after; [|apply evolves_setTimeout].
  destruct result as [|[cached|]|entries]; quiet.
Qed.

Lemma evolves_mutated doc added url s : Evolves s (mutated doc added url s).
Proof.
  unfold mutated. simpl. destruct (booted s); [|apply evolves_quiet; quiet].
  eapply evolves_after; [|apply evolves_observe]. quiet.
Qed.

Lemma evolves_written ok w rest s : Evolves s (written ok w rest s).
Proof.
  unfold written. destruct ok, (debounced w); apply evolves_quiet; quiet.
Qed.

(** A timer found under its identifier is found there as long as the
    state evolves. *)
Lemma evolves_keeps id tm s s1 :
  Evolves s s1 -> timerOf id s = Some tm -> timerOf id s1 = Some tm.
Proof.
  intros ((more & T & _) & _) H. unfold timerOf in *.
  rewrite T, find_over_app, H. reflexivity.
Qed.

Lemma dropTimer_keeps id id1 tm s :
  id <> id1 -> timerOf id s = Some tm -> timerOf id (dropTimer id1 s) = Some tm.
Proof.
  intros Hne. unfold timerOf, dropTimer. simpl.
  induction (timers s) as [|x l IH]; simpl; [discriminate|].
  destruct (Nat.eqb (tid x) id) eqn:E1.
  - intros [= <-]. apply Nat.eqb_eq in E1.
    destruct (Nat.eqb (tid x) id1) eqn:E2;
      [apply Nat.eqb_eq in E2; congruence|].
    simpl. rewrite (proj2 (Nat.eqb_eq _ _) E1). reflexivity.
  - intros H. destruct (negb (Nat.eqb (tid x) id1)); simpl; [rewrite E1|]; auto.
Qed.

Lemma fire_keeps id tm fired rand s :
  timerOf id s = Some tm -> timerOf id (fire fired rand s) = Some tm.
Proof.
  intros H. unfold fire. destruct (task fired).
  - eapply evolves_keeps; [apply evolves_processRequestQueue|exact H].
  - eapply evolves_keeps; [apply evolves_resume|exact H].
  - eapply evolves_keeps; [apply evolves_onTimeout|exact H].
  - exact H.
  - unfold timerOf in *. simpl. rewrite find_over_app, H. reflexivity.
  - eapply evolves_keeps; [apply evolves_processUsernames|exact H].
Qed.

(** No event but its own firing takes a timer away. *)
Lemma step_keeps id tm now rand e s s1 :
  step now rand e s = Some s1 -> e <> Fire id ->
  timerOf id s = Some tm -> timerOf id s1 = Some tm.
Proof.
  unfold step. destruct (now <? clock s); [discriminate|].
  intros Hstep Hne Hfind.
  assert (H0 : timerOf id (set_clock now s) = Some tm) by exact Hfind.
  destruct e as [result|id1|fromWindow m|ok|doc added url|url1].
  - destruct (booted _); [discriminate|]. injection Hstep as <-.
    eapply evolves_keeps; [apply evolves_notify|].
    eapply evolves_keeps; [apply evolves_runJobs|].
    eapply evolves_keeps; [apply evolves_init|exact H0].
  - destruct (timerOf id1 (set_clock now s)) as [fired|]; [|discriminate].
    destruct (now <? due fired); [discriminate|]. injection Hstep as <-.
    eapply evolves_keeps; [apply evolves_notify|].
    eapply evolves_keeps; [apply evolves_runJobs|].
    apply fire_keeps. apply dropTimer_keeps; [congruence|exact H0].
  - injection Hstep as <-.
    eapply evolves_keeps; [apply evolves_notify|].
    eapply evolves_keeps; [apply evolves_runJobs|].
    eapply evolves_keeps; [apply evolves_receive|exact H0].
  - destruct (writing _) as [|w rest]; [discriminate|]. injection Hstep as <-.
    eapply evolves_keeps; [apply evolves_written|exact H0].
  - injection Hstep as <-.
    eapply evolves_keeps; [apply evolves_mutated|exact H0].
  - injection Hstep as <-. exact H0.
Qed.

Lemma run_keeps id tm trace :
  forall s s1, run trace s = Some s1 -> spares id trace ->
               timerOf id s = Some tm -> timerOf id s1 = Some tm.
Proof.
  induction trace as [|[[now rand] e] trace IH]; simpl; intros s s1 Hrun Hsp Hf.
  - injection Hrun as <-. exact Hf.
  - destruct (step now rand e s) as [s2|] eqn:Es; [|discriminate].
    apply (IH s2 s1 Hrun).
    + intros tick Ht. apply Hsp. right. exact Ht.
    + eapply step_keeps; [exact Es| |exact Hf].
      apply (Hsp (now, rand, e)). left. reflexivity.
Qed.

(** A promise that is settled stays settled the same way. *)
Lemma fire_remembers fired rand s cb o :
  settled s !! cb = Some o -> settled (fire fired rand s) !! cb = Some o.
Proof.
  intros H. unfold fire. destruct (task fired).
  - apply (evolves_processRequestQueue rand s). exact H.
  - apply (evolves_resume rand s). exact H.
  - apply (evolves_onTimeout screenName0 callback0 s). exact H.
  - exact H.
  - exact H.
  - apply (evolves_processUsernames rand s). exact H.
Qed.

Lemma step_remembers now rand e s s1 cb o :
  step now rand e s = Some s1 ->
  settled s !! cb = Some o -> settled s1 !! cb = Some o.
Proof.
  unfold step. destruct (now <? clock s); [discriminate|].
  intros Hstep H.
  assert (H0 : settled (set_clock now s) !! cb = Some o) by exact H.
  destruct e as [result|id1|fromWindow m|ok|doc added url|url1].
  - destruct (booted _); [discriminate|]. injection Hstep as <-.
    apply (evolves_notify _ _). apply (evolves_runJobs _). apply (evolves_init _ _). exact H0.
  - destruct (timerOf id1 (set_clock now s)) as [fired|]; [|discriminate].
    destruct (now <? due fired); [discriminate|]. injection Hstep as <-.
    apply (evolves_notify _ _). apply (evolves_runJobs _). apply fire_remembers. exact H0.
  - injection Hstep as <-.
    apply (evolves_notify _ _). apply (evolves_runJobs _). apply (evolves_receive _ _ _). exact H0.
  - destruct (writing _) as [|w rest]; [discriminate|]. injection Hstep as <-.
    apply (evolves_written _ _ _ _). exact H0.
  - injection Hstep as <-. apply (evolves_mutated _ _ _ _). exact H0.
  - injection Hstep as <-. exact H0.
Qed.

Lemma run_remembers trace cb o :
  forall s s1, run trace s = Some s1 ->
               settled s !! cb = Some o -> settled s1 !! cb = Some o.
Proof.
  induction trace as [|[[now rand] e] trace IH]; simpl; intros s s1 Hrun H.
  - injection Hrun as <-. exact H.
  - destruct (step now rand e s) as [s2|] eqn:Es; [|discriminate].
    apply (IH s2 s1 Hrun). eapply step_remembers; eauto.
Qed.

Lemma timerInv_evolves s s1 : TimerInv s -> Evolves s s1 -> TimerInv s1.
Proof.
  intros [B N T] ((more & Ht & Hn & Hb) & Hnext & Hl & _). split.
  - intros tm Htm. rewrite Ht in Htm. apply in_app_iff in Htm as [Htm|Htm].
    + apply B in Htm. lia.
    + apply Hb in Htm. lia.
  - rewrite Ht, List.map_app. apply List.NoDup_app; [exact N|exact Hn|].
    intros x Hx1 Hx2. apply in_map_iff in Hx1 as (a & <- & Ha).
    apply in_map_iff in Hx2 as (b & Hb1 & Hb2).
    apply B in Ha. apply Hb in Hb2. lia.
  - intros l Hin. apply Hl in Hin as [Hin|Hin]; [|exact Hin].
    destruct (T l Hin) as (tm & Htm & Hto). exists tm. split; [|exact Hto].
    rewrite Ht. apply in_app_iff. auto.
Qed.

Lemma timerInv_boot doc url : TimerInv (boot doc url).
Proof.
  split; simpl; [contradiction|constructor|contradiction].
Qed.

Lemma same_tid_same_timer (l : list Timer) a b :
  List.NoDup (List.map tid l) -> In a l -> In b l -> tid a = tid b -> a = b.
Proof.
  induction l as [|x l IH]; simpl; intros Hnd Ha Hb E; [contradiction|].
  apply List.NoDup_cons_iff in Hnd as [Hx Hnd].
  destruct Ha as [->|Ha], Hb as [->|Hb]; auto.
  - exfalso. apply Hx. rewrite E. apply in_map. exact Hb.
  - exfalso. apply Hx. rewrite <- E. apply in_map. exact Ha.
Qed.

Lemma timerOf_found s tm :
  TimerInv s -> In tm (timers s) -> timerOf (tid tm) s = Some tm.
Proof.
  intros [_ N _] Hin. unfold timerOf.
  destruct (List.find _ (timers s)) as [x|] eqn:E.
  - apply find_some in E as [Hx Ex]. apply Nat.eqb_eq in Ex.
    f_equal. eapply same_tid_same_timer; eauto.
  - exfalso. apply (find_none _ _ E) in Hin. rewrite Nat.eqb_refl in Hin.
    discriminate.
Qed.

(** A timer that fires leaves the others set; when it is not the timeout
    of a request, every handler keeps its timeout. *)
Lemma timerInv_drop id tm s :
  TimerInv s -> timerOf id s = Some tm ->
  (forall l, In l (listeners s) -> timeoutOf l tm -> False) ->
  TimerInv (dropTimer id s).
Proof.
  intros [B N T] Hfind Hnot. apply timerOf_sound in Hfind as [Hin Hid].
  split; simpl.
  - intros x Hx. apply List.filter_In in Hx as [Hx _]. auto.
  - apply nodup_map_filter. exact N.
  - intros l Hl. destruct (T l Hl) as (x & Hx & Hto). exists x.
    split; [|exact Hto]. apply List.filter_In. split; [exact Hx|].
    apply negb_true_iff, Nat.eqb_neq. intros E.
    assert (x = tm) by (eapply same_tid_same_timer; eauto; congruence).
    subst x. eauto.
Qed.

Lemma timerInv_drop_timeout id tm name rid cb s :
  TimerInv s -> timerOf id s = Some tm ->
  task tm = RequestTimeout name rid cb ->
  TimerInv (unlisten cb (dropTimer id s)).
Proof.
  intros [B N T] Hfind Htask. apply timerOf_sound in Hfind as [Hin Hid].
  split; simpl.
  - intros x Hx. apply List.filter_In in Hx as [Hx _]. auto.
  - apply nodup_map_filter. exact N.
  - intros l Hl. apply List.filter_In in Hl as [Hl Hne].
    apply negb_true_iff, Nat.eqb_neq in Hne.
    destruct (T l Hl) as (x & Hx & Hto). exists x.
    split; [|exact Hto]. apply List.filter_In. split; [exact Hx|].
    apply negb_true_iff, Nat.eqb_neq. intros E.
    assert (x = tm) by (eapply same_tid_same_timer; eauto; congruence).
    subst x. destruct Hto as [Hto _]. rewrite Htask in Hto.
    injection Hto as _ _ Hcb. congruence.
Qed.

Lemma timerInv_fire id tm rand s :
  TimerInv s -> timerOf id s = Some tm ->
  TimerInv (fire tm rand (dropTimer id s)).
Proof.
  intros HI Hfind. unfold fire.
  assert (Hother : (forall n r c, task tm <> RequestTimeout n r c) ->
                   TimerInv (dropTimer id s)).
  { intros Hno. eapply timerInv_drop; eauto.
    intros l _ [Hto _]. eapply Hno. exact Hto. }
  destruct (task tm) eqn:Htask.
  - eapply timerInv_evolves; [|apply evolves_processRequestQueue].
    apply Hother. discriminate.
  - eapply timerInv_evolves; [|apply evolves_resume].
    apply Hother. discriminate.
  - unfold onTimeout.
    eapply timerInv_evolves;
      [|eapply evolves_trans; [apply evolves_saveCacheEntry|apply evolves_settle]].
    eapply timerInv_drop_timeout; eauto.
  - eapply timerInv_evolves; [apply Hother; discriminate|].
    apply evolves_quiet. quiet.
  - assert (H0 : TimerInv (dropTimer id s)) by (apply Hother; discriminate).
    destruct H0 as [B N T]. pose proof (timerOf_sound _ _ _ Hfind) as [Hin Hid].
    split; simpl in *.
    + intros x Hx. apply in_app_iff in Hx as [Hx|[<-|[]]]; [auto|]. simpl.
      apply (ti_below _ HI). exact Hin.
    + rewrite List.map_app. simpl.
      apply List.NoDup_app; [exact N|constructor; [intros []|constructor]|].
      intros x Hx [<-|[]]. apply in_map_iff in Hx as (y & Hy1 & Hy2).
      apply List.filter_In in Hy2 as [_ Hy2].
      apply negb_true_iff, Nat.eqb_neq in Hy2. congruence.
    + intros l Hl. destruct (T l Hl) as (x & Hx & Hto). exists x.
      split; [|exact Hto]. apply in_app_iff. auto.
  - eapply timerInv_evolves; [|apply evolves_processUsernames].
    apply Hother. discriminate.
Qed.

Lemma timerInv_step now rand e s s1 :
  TimerInv s -> step now rand e s = Some s1 -> TimerInv s1.
Proof.
  intros HI. unfold step. destruct (now <? clock s); [discriminate|].
  assert (H0 : TimerInv (set_clock now s)).
  { destruct HI as [B N T]. split; assumption. }
  destruct e as [result|id|fromWindow m|ok|doc added url|url1].
  - destruct (booted _); [discriminate|]. intros [= <-].
    eapply timerInv_evolves; [|apply evolves_notify].
    eapply timerInv_evolves; [|apply evolves_runJobs].
    eapply timerInv_evolves; [exact H0|apply evolves_init].
  - destruct (timerOf id (set_clock now s)) as [tm|] eqn:Ef; [|discriminate].
    destruct (now <? due tm); [discriminate|]. intros [= <-].
    eapply timerInv_evolves; [|apply evolves_notify].
    eapply timerInv_evolves; [|apply evolves_runJobs].
    apply timerInv_fire; assumption.
  - intros [= <-]. eapply timerInv_evolves; [|apply evolves_notify].
    eapply timerInv_evolves; [|apply evolves_runJobs].
    eapply timerInv_evolves; [exact H0|apply evolves_receive].
  - destruct (writing _) as [|w rest]; [discriminate|]. intros [= <-].
    eapply timerInv_evolves; [exact H0|apply evolves_written].
  - intros [= <-]. eapply timerInv_evolves; [exact H0|apply evolves_mutated].
  - intros [= <-]. destruct H0 as [B N T]. split; assumption.
Qed.

Lemma timerInv_run trace :
  forall s s1, TimerInv s -> run trace s = Some s1 -> TimerInv s1.
Proof.
  induction trace as [|[[now rand] e] trace IH]; simpl; intros s s1 HI Hrun.
  - injection Hrun as <-. exact HI.
  - destruct (step now rand e s) as [s2|] eqn:Es; [|discriminate].
    eapply IH; [|exact Hrun]. eapply timerInv_step; eauto.
Qed.

(** In a state the script reaches, a request under way has its timeout
    set, to be found under its identifier. *)
Lemma timeout_is_set doc url trace s l :
  run trace (boot doc url) = Some s -> In l (listeners s) ->
  exists tm, timerOf (tid tm) s = Some tm /\ timeoutOf l tm.
Proof.
  intros Hrun Hl.
  pose proof (timerInv_run trace _ _ (timerInv_boot doc url) Hrun) as HI.
  destruct (ti_timeout _ HI l Hl) as (tm & Htm & Hto).
  exists tm. split; [apply timerOf_found; assumption|exact Hto].
Qed.

End TimerFacts.

(** ** The request queue: theorems *)

Module QueueFacts.

Import Dom Scan Content Terms Frames QueueView QueueInv Settlements TimerFacts Sample.

(** C1. In every state the script reaches, [activeRequests] is the
    number of requests that were dispatched and whose promise is not
    settled, it is the number of handlers still registered, and it lies
    between 0 and [MAX_CONCURRENT_REQUESTS]; and any two successive
    dispatches started at least [MIN_REQUEST_INTERVAL] milliseconds
    apart. *)
Theorem dispatch_bounded_and_spaced (doc : list Node) (url : string)
        (trace : list Tick) (s : State) :
  run trace (boot doc url) = Some s ->
  0 <= activeRequests s <= MAX_CONCURRENT_REQUESTS
  /\ activeRequests s
     = Z.of_nat (List.length (dispatchTimes s)) - Z.of_nat (size (settled s))
  /\ activeRequests s = Z.of_nat (List.length (listeners s))
  /\ (forall l, In l (listeners s) -> settled s !! forCallback l = None)
  /\ (forall (i : nat) (t1 t2 : Z),
        nth_error (dispatchTimes s) i = Some t1 ->
        nth_error (dispatchTimes s) (S i) = Some t2 ->
        t2 + MIN_REQUEST_INTERVAL <= t1).
Proof.
  intros Hrun.
  pose proof (inv_run trace _ _ (inv_boot doc url) Hrun) as HI.
  pose proof (inv_active _ HI) as A. pose proof (inv_bound _ HI) as B.
  pose proof (inv_count _ HI) as M. simpl in A, B, M.
  unfold MAX_CONCURRENT_REQUESTS. repeat split; try lia.
  - intros l Hl. apply (inv_fresh _ HI). unfold pending.
    apply in_app_iff. right. apply in_map. exact Hl.
  - intros i t1 t2. apply spaced_lookup. apply (inv_spaced _ HI).
Qed.

Lemma dispatch_bounded_and_spaced_witness :
  run (limited ++ pauseEnds) (boot twoCells home)
  = Some (after (limited ++ pauseEnds) twoCells)
  /\ activeRequests (after (limited ++ pauseEnds) twoCells) = 1
  /\ dispatchTimes (after (limited ++ pauseEnds) twoCells)
     = [t0 + 4000; t0 + 2000]
  /\ 0 <= activeRequests (after (limited ++ pauseEnds) twoCells)
     <= MAX_CONCURRENT_REQUESTS.
Proof.
  refine (conj _ _); [vm_compute; reflexivity|].
  refine (conj _ _); [vm_compute; reflexivity|].
  refine (conj _ _); [vm_compute; reflexivity|].
  refine (proj1 (dispatch_bounded_and_spaced
                   twoCells home (limited ++ pauseEnds)
                   (after (limited ++ pauseEnds) twoCells) _)).
  vm_compute. reflexivity.
Defined.

(** Entered while the reset time lies ahead, [processRequestQueue]
    dispatches nothing and asks to be called again after the remaining
    wait, one minute at most. *)
Lemma processRequestQueue_limited rand s :
  isProcessingQueue s = false -> requestQueue s <> [] ->
  rateLimitResetTime s > 0 -> clock s / 1000 < rateLimitResetTime s ->
  processRequestQueue rand s
  = setTimeout CallProcessQueue
               (Z.min ((rateLimitResetTime s - clock s / 1000) * 1000) 60000) s
  /\ posted (processRequestQueue rand s) = posted s
  /\ requestQueue (processRequestQueue rand s) = requestQueue s.
Proof.
  intros Hidle Hq Hpos Hlim. unfold processRequestQueue. rewrite Hidle.
  destruct (requestQueue s) as [|item rest] eqn:Eq; [congruence|]. simpl.
  assert (E1 : (rateLimitResetTime s >? 0) = true) by (apply Z.gtb_lt; lia).
  assert (E2 : (clock s / 1000 <? rateLimitResetTime s) = true)
    by (apply Z.ltb_lt; lia).
  rewrite E1, E2. simpl. rewrite Eq. repeat split.
Qed.

(** C2. The claim says that no request is dispatched between the
    arrival of a rate-limit signal and its reset time. The reset time is
    looked at only when [processRequestQueue] is entered, not when its
    loop goes on after a pause: here the signal for the reset at
    1700000900 arrives while the loop pauses before the request for
    [bob], and that request is dispatched at the end of the pause,
    at 1700000004 in epoch seconds. *)
Theorem dispatch_during_rate_limit :
  exists s1 s2,
    run limited (boot twoCells home) = Some s1
    /\ rateLimitResetTime s1 = 1700000900
    /\ clock s1 / 1000 < rateLimitResetTime s1
    /\ List.map screenName (requestQueue s1) = ["bob"]
    /\ dispatchTimes s1 = [t0 + 2000]
    /\ run pauseEnds s1 = Some s2
    /\ rateLimitResetTime s2 = 1700000900
    /\ clock s2 / 1000 < rateLimitResetTime s2
    /\ posted s2 = (t0 + 4000, FetchLocation "bob" (t0 + 4000, 9%N)) :: posted s1.
Proof.
  exists (after limited twoCells), (after (limited ++ pauseEnds) twoCells).
  repeat (refine (conj _ _); [vm_compute; reflexivity|]).
  vm_compute; reflexivity.
Qed.

(** The timeout of a request whose promise is not settled fires. *)
Lemma fire_unsettled_timeout s tm l now rand :
  Inv (view s) ->
  timerOf (tid tm) s = Some tm ->
  task tm = RequestTimeout (forName l) (forRequest l) (forCallback l) ->
  settled s !! forCallback l = None ->
  clock s <= now -> due tm <= now ->
  exists s1,
    step now rand (Fire (tid tm)) s = Some s1
    /\ Inv (view s1)
    /\ settled s1 !! forCallback l = Some (Resolved None)
    /\ locationCache s1 !! forName l = Some None.
Proof.
  intros HI Hfind Htask Hnone Hclock Hnow.
  assert (Hstep : step now rand (Fire (tid tm)) s
                  = Some (notify (nextUid s)
                            (runJobs (onTimeout (forName l) (forCallback l)
                                        (dropTimer (tid tm) (set_clock now s)))))).
  { unfold step. destruct (now <? clock s) eqn:E; [apply Z.ltb_lt in E; lia|].
    change (timerOf (tid tm) (set_clock now s)) with (timerOf (tid tm) s).
    rewrite Hfind.
    destruct (now <? due tm) eqn:E2; [apply Z.ltb_lt in E2; lia|].
    unfold fire. rewrite Htask. reflexivity. }
  eexists. split; [exact Hstep|]. split; [|split].
  - exact (inv_step _ _ _ _ _ HI Hstep).
  - rewrite notify_settled, runJobs_settled, onTimeout_settled.
    change (settled (dropTimer (tid tm) (set_clock now s))) with (settled s).
    rewrite Hnone. apply lookup_insert_eq.
  - rewrite notify_cache, runJobs_cache. apply onTimeout_cache.
Qed.

Lemma inv_unsettled s l :
  Inv (view s) -> In l (listeners s) -> settled s !! forCallback l = None.
Proof.
  intros HI Hl. destruct (inv_fresh (view s) HI (forCallback l)) as [H _];
    [|exact H].
  unfold pending. apply in_app_iff. right.
  exact (in_map forCallback (listeners s) l Hl).
Qed.

Lemma inv_never_rejected s c :
  Inv (view s) -> settled s !! c <> Some Rejected.
Proof.
  intros HI Hc. destruct (inv_old (view s) HI c Rejected Hc) as [_ H].
  congruence.
Qed.

(** C3. In every state the script reaches, a lookup that is under way
    (it was dispatched and its handler is still registered: no response
    that matches it has come) has an unsettled promise and a timer due
    ten seconds after its dispatch. When that timer fires, the promise
    is resolved with [null], the handler is gone and the cache holds
    [null] for the handle. No promise of a lookup is ever rejected. *)
Theorem timeout_resolves_null (doc : list Node) (url : string)
        (trace : list Tick) (s : State) (l : Listener) :
  run trace (boot doc url) = Some s ->
  In l (listeners s) ->
  (forall c, settled s !! c <> Some Rejected)
  /\ settled s !! forCallback l = None
  /\ exists id tm,
      timerOf id s = Some tm
      /\ task tm = RequestTimeout (forName l) (forRequest l) (forCallback l)
      /\ due tm = fst (forRequest l) + 10000
      /\ forall now rand,
          clock s <= now -> due tm <= now ->
          exists s1,
            step now rand (Fire id) s = Some s1
            /\ settled s1 !! forCallback l = Some (Resolved None)
            /\ locationCache s1 !! forName l = Some None
            /\ ~ In l (listeners s1)
            /\ (forall c, settled s1 !! c <> Some Rejected).
Proof.
  intros Hrun Hl.
  pose proof (inv_run trace _ _ (inv_boot doc url) Hrun) as HI.
  destruct (timeout_is_set doc url trace s l Hrun Hl) as (tm & Hfind & Htask & Hdue).
  pose proof (inv_unsettled s l HI Hl) as Hnone.
  split; [intros c; apply inv_never_rejected; exact HI|].
  split; [exact Hnone|].
  exists (tid tm), tm.
  split; [exact Hfind|]. split; [exact Htask|]. split; [exact Hdue|].
  intros now rand Hclock Hnow.
  destruct (fire_unsettled_timeout s tm l now rand HI Hfind Htask Hnone Hclock Hnow)
    as (s1 & Hstep & HI1 & Hs1 & Hc1).
  exists s1. split; [exact Hstep|]. split; [exact Hs1|]. split; [exact Hc1|].
  split; [|intros c; apply inv_never_rejected; exact HI1].
  intros Hin1. pose proof (inv_unsettled s1 l HI1 Hin1) as H. congruence.
Qed.

Lemma timeout_resolves_null_witness :
  run firstScan (boot twoCells home) = Some (after firstScan twoCells)
  /\ In {| forName := "alice"; forRequest := (t0 + 2000, 7%N); forCallback := 0 |}
        (listeners (after firstScan twoCells))
  /\ settled (after firstScan twoCells) !! 0%nat = None
  /\ exists id tm,
      timerOf id (after firstScan twoCells) = Some tm
      /\ task tm = RequestTimeout "alice" (t0 + 2000, 7%N) 0
      /\ due tm = t0 + 2000 + 10000.
Proof.
  refine (conj _ _); [vm_compute; reflexivity|].
  refine (conj _ _); [vm_compute; left; reflexivity|].
  refine (match timeout_resolves_null
                  twoCells home firstScan (after firstScan twoCells)
                  {| forName := "alice"; forRequest := (t0 + 2000, 7%N);
                     forCallback := 0 |} _ _ with
          | conj _ (conj H2 (ex_intro _ id (ex_intro _ tm
              (conj H3 (conj H4 (conj H5 _)))))) =>
              conj H2 (ex_intro _ id (ex_intro _ tm (conj H3 (conj H4 H5))))
          end).
  - vm_compute. reflexivity.
  - vm_compute. left. reflexivity.
Defined.

(** C4. The timer of ten seconds is never cleared. In every state the
    script reaches, a lookup under way has its timer set; a matching
    response with a location [L] caches [L] and resolves the promise
    with [L]; whatever happens then, short of the firing of that timer,
    the timer stays set; and when it fires the cache entry of the handle
    becomes [null], while the promise keeps [L]. *)
Theorem timeout_overwrites_answer (doc : list Node) (url : string)
        (trace : list Tick) (s : State) (l : Listener) (L : string) :
  run trace (boot doc url) = Some s ->
  In l (listeners s) ->
  L <> "" ->
  exists id tm,
    timerOf id s = Some tm
    /\ task tm = RequestTimeout (forName l) (forRequest l) (forCallback l)
    /\ forall t1 r1,
        clock s <= t1 ->
        exists s1,
          step t1 r1
               (Receive true (LocationResponse (forName l) (Some L) (forRequest l)))
               s = Some s1
          /\ locationCache s1 !! forName l = Some (Some L)
          /\ settled s1 !! forCallback l = Some (Resolved (Some L))
          /\ forall later s2,
              run later s1 = Some s2 -> spares id later ->
              timerOf id s2 = Some tm
              /\ forall t2 r2,
                  clock s2 <= t2 -> due tm <= t2 ->
                  exists s3,
                    step t2 r2 (Fire id) s2 = Some s3
                    /\ locationCache s3 !! forName l = Some None
                    /\ settled s3 !! forCallback l = Some (Resolved (Some L)).
Proof.
  intros Hrun Hin HL.
  pose proof (inv_run trace _ _ (inv_boot doc url) Hrun) as HI.
  destruct (timeout_is_set doc url trace s l Hrun Hin) as (tm & Hfind & Htask & _).
  assert (Hnone : settled s !! forCallback l = None).
  { apply (inv_fresh _ HI). unfold pending. apply in_app_iff. right.
    apply in_map. exact Hin. }
  exists (tid tm), tm. split; [exact Hfind|]. split; [exact Htask|].
  intros t1 r1 Ht1.
  assert (Hor : orNull (Some L) = Some L).
  { unfold orNull. simpl. destruct (String.eqb L "") eqn:E; [|reflexivity].
    apply String.eqb_eq in E. contradiction. }
  set (m := LocationResponse (forName l) (Some L) (forRequest l)).
  set (s1 := notify (nextUid s) (runJobs (receive true m (set_clock t1 s)))).
  assert (Hstep1 : step t1 r1 (Receive true m) s = Some s1).
  { unfold step. destruct (t1 <? clock s) eqn:E; [apply Z.ltb_lt in E; lia|].
    reflexivity. }
  set (ls := List.filter (matches (forName l) (forRequest l)) (listeners s)).
  assert (Hl : In l ls).
  { apply List.filter_In. split; [exact Hin|]. unfold matches.
    rewrite String.eqb_refl, bool_decide_eq_true_2 by reflexivity. reflexivity. }
  assert (Hcache1 : locationCache s1 !! forName l = Some (Some L)).
  { unfold s1. rewrite ?notify_cache, runJobs_cache. unfold receive, m. simpl.
    fold ls.
    pose proof (responses_cache (forName l) (Some L) ls (set_clock t1 s)) as R.
    rewrite Hor in R. apply R.
    - intros E. rewrite E in Hl. contradiction.
    - intros l1 Hl1. apply List.filter_In in Hl1 as [_ Hm]. unfold matches in Hm.
      apply andb_true_iff in Hm as [Hm _]. apply String.eqb_eq in Hm. exact Hm. }
  assert (Hsettled1 : settled s1 !! forCallback l = Some (Resolved (Some L))).
  { unfold s1. rewrite ?notify_settled, runJobs_settled. unfold receive, m. simpl.
    fold ls.
    pose proof (responses_settled (forCallback l) (Some L) ls (set_clock t1 s)) as R.
    rewrite Hor in R. apply R.
    - left. exact Hnone.
    - left. apply in_map. exact Hl. }
  assert (Hfind1 : timerOf (tid tm) s1 = Some tm).
  { eapply step_keeps; [exact Hstep1|discriminate|exact Hfind]. }
  exists s1. split; [exact Hstep1|]. split; [exact Hcache1|].
  split; [exact Hsettled1|].
  intros later s2 Hlater Hspares.
  pose proof (run_keeps _ _ _ _ _ Hlater Hspares Hfind1) as Hfind2.
  pose proof (run_remembers _ _ _ _ _ Hlater Hsettled1) as Hsettled2.
  split; [exact Hfind2|].
  intros t2 r2 Ht2 Hdue.
  assert (Hstep2 : step t2 r2 (Fire (tid tm)) s2
                   = Some (notify (nextUid s2)
                             (runJobs (onTimeout (forName l) (forCallback l)
                                         (dropTimer (tid tm)
                                                    (set_clock t2 s2)))))).
  { unfold step.
    destruct (t2 <? clock s2) eqn:E; [apply Z.ltb_lt in E; lia|].
    change (timerOf (tid tm) (set_clock t2 s2)) with (timerOf (tid tm) s2).
    rewrite Hfind2.
    destruct (t2 <? due tm) eqn:E2; [apply Z.ltb_lt in E2; lia|].
    unfold fire. rewrite Htask. reflexivity. }
  eexists. split; [exact Hstep2|]. split.
  - rewrite ?notify_cache, runJobs_cache. apply onTimeout_cache.
  - rewrite ?notify_settled, runJobs_settled, onTimeout_settled.
    change (settled (dropTimer (tid tm) (set_clock t2 s2))) with (settled s2).
    rewrite Hsettled2. exact Hsettled2.
Qed.

Lemma timeout_overwrites_answer_witness :
  run firstScan (boot twoCells home) = Some (after firstScan twoCells)
  /\ In {| forName := "alice"; forRequest := (t0 + 2000, 7%N); forCallback := 0 |}
        (listeners (after firstScan twoCells))
  /\ exists id tm,
      timerOf id (after firstScan twoCells) = Some tm
      /\ task tm = RequestTimeout "alice" (t0 + 2000, 7%N) 0.
Proof.
  refine (conj _ _); [vm_compute; reflexivity|].
  refine (conj _ _); [vm_compute; left; reflexivity|].
  refine (match timeout_overwrites_answer
                  twoCells home firstScan (after firstScan twoCells)
                  {| forName := "alice"; forRequest := (t0 + 2000, 7%N);
                     forCallback := 0 |} "France" _ _ _ with
          | ex_intro _ id (ex_intro _ tm (conj H1 (conj H2 _))) =>
              ex_intro _ id (ex_intro _ tm (conj H1 H2))
          end).
  - vm_compute. reflexivity.
  - vm_compute. left. reflexivity.
  - discriminate.
Defined.

(** The same on the sample page: the response for [alice] names France,
    the timer fires ten seconds after the dispatch, and the cache then
    holds [null] for [alice]. *)
Example france_then_timeout :
  exists s1 s2,
    step (t0 + 2500) 0%N
         (Receive true (LocationResponse "alice" (Some "France") (t0 + 2000, 7%N)))
         (after firstScan twoCells) = Some s1
    /\ locationCache s1 !! "alice" = Some (Some "France")
    /\ step (t0 + 12000) 0%N (Fire 3) s1 = Some s2
    /\ locationCache s2 !! "alice" = Some None
    /\ settled s2 !! 0%nat = Some (Resolved (Some "France")).
Proof.
  eexists. eexists.
  refine (conj _ _); [vm_compute; reflexivity|].
  refine (conj _ _); [vm_compute; reflexivity|].
  refine (conj _ _); [vm_compute; reflexivity|].
  refine (conj _ _); vm_compute; reflexivity.
Qed.

End QueueFacts.

(** ** The cache: the theorems at work *)

Module CacheRuns.

Import Dom Scan Content Terms CacheFacts Sample.

Lemma getUserLocation_cached_witness :
  locationCache (set_locationCache {[ "alice" := None ]} (boot [] home))
    !! "alice" = Some None
  /\ getUserLocation "alice" 0%N
       (set_locationCache {[ "alice" := None ]} (boot [] home))
     = (set_locationCache {[ "alice" := None ]} (boot [] home), Cached None).
Proof.
  refine (conj _ _); [vm_compute; reflexivity|].
  refine (proj1 (getUserLocation_cached
                   "alice" 0%N
                   (set_locationCache {[ "alice" := None ]} (boot [] home))
                   None _)).
  vm_compute. reflexivity.
Defined.

Lemma loadCache_admits_unexpired_witness :
  0 <= t0
  /\ exists s,
      step t0 0%N (Loaded (ReadDone (Some stored))) (boot [] home) = Some s
      /\ locationCache s !! "alice" = Some (Some "France")
      /\ locationCache s !! "bob" = None.
Proof.
  refine (conj _ _); [vm_compute; discriminate|].
  refine (match loadCache_admits_unexpired
                  [] home t0 0%N (ReadDone (Some stored)) _ with
          | ex_intro _ s (conj H1 (conj H2 (conj H3 _))) =>
              ex_intro _ s
                (conj H1
                   (conj (proj2 (H2 stored "alice" (Some "France") eq_refl) _)
                         (H3 stored "bob"
                             {| location := Some "Spain";
                                expiry := Some (t0 - 1000);
                                cachedAt := Some (t0 - 2592001000) |}
                             (t0 - 1000) eq_refl _ eq_refl _)))
          end).
  - vm_compute. discriminate.
  - exists {| location := Some "France"; expiry := Some (t0 + 864000000);
              cachedAt := Some (t0 - 1728000000) |}, (t0 + 864000000).
    refine (conj _ (conj eq_refl (conj eq_refl _)));
      [vm_compute; reflexivity|vm_compute; reflexivity].
  - vm_compute. reflexivity.
  - vm_compute. discriminate.
Defined.

(** C7 as the specification states it fails on a stored object whose
    second entry is [null]: the load stops with an error at that entry,
    and yet the map is not empty, for it holds the first entry; and it
    lacks the third entry, whose expiry is ahead of the time of the
    load. *)
Lemma loadCache_stops_at_null_entry :
  exists s d,
    step t0 0%N (Loaded (ReadEntries broken)) (boot [] home) = Some s
    /\ In ("carol", Some d) broken
    /\ expiry d = Some (t0 + 864000000)
    /\ t0 + 864000000 > t0
    /\ locationCache s !! "carol" = None
    /\ locationCache s !! "alice" = Some (Some "France")
    /\ locationCache s <> ∅.
Proof.
  eexists.
  exists {| location := Some "Japan"; expiry := Some (t0 + 864000000);
            cachedAt := Some (t0 - 1728000000) |}.
  refine (conj _ _); [vm_compute; reflexivity|].
  refine (conj _ _); [right; right; left; reflexivity|].
  refine (conj _ _); [reflexivity|].
  refine (conj _ _); [vm_compute; reflexivity|].
  refine (conj _ _); [vm_compute; reflexivity|].
  refine (conj _ _); [vm_compute; reflexivity|].
  intros H. apply (f_equal (fun m => m !! "alice")) in H.
  vm_compute in H. discriminate.
Qed.


(** C9. The claim says that every save serialises the whole in-memory
    map. A cache that holds the handle [__proto__] is saved without that
    entry: the assignment [cacheObj[username] = ...] on the plain object
    sets its prototype and creates no property. Here the page links to
    the profile [/__proto__]; the lookup times out, the handle is cached
    with [null], and the debounced save hands an empty object to the
    storage, which then holds no entry while the cache holds one. *)
Theorem saveCache_drops_proto_handle :
  exists s,
    run protoSaved (boot [cell 10 "__proto__"] home) = Some s
    /\ locationCache s !! "__proto__" = Some None
    /\ List.map (fun w => map_to_list (blob w)) (writing s) = [[]]
    /\ cacheObject (clock s) (locationCache s) !! "__proto__" = None
    /\ exists s1,
         step (t0 + 17001) 0%N (Written true) s = Some s1
         /\ locationCache s1 !! "__proto__" = Some None
         /\ (map_to_list <$> storage s1) = Some [].
Proof.
  exists (after protoSaved [cell 10 "__proto__"]).
  repeat (refine (conj _ _); [vm_compute; reflexivity|]).
  eexists.
  refine (conj _ _); [vm_compute; reflexivity|].
  refine (conj _ _); vm_compute; reflexivity.
Qed.

End CacheRuns.

(** ** The annotator *)

Module AnnotatorFacts.

Import Dom Scan Content Sample.

(** The scan takes up a container exactly when its tag is absent, empty
    or ['failed']. *)
Lemma wantsFlag_spec (status : option string) :
  wantsFlag status = true <->
  status = None \/ status = Some "" \/ status = Some "failed".
Proof.
  unfold wantsFlag. destruct status as [st|]; [|tauto]. simpl.
  rewrite orb_true_iff, negb_true_iff, negb_false_iff, !String.eqb_eq.
  split.
  - intros [->| ->]; auto.
  - intros [H|[[= ->]|[= ->]]]; [discriminate|auto|auto].
Qed.

(** The tags the script writes besides ['failed'] make the scan pass
    by. *)
Lemma wantsFlag_written :
  wantsFlag (Some "true") = false /\ wantsFlag (Some "processing") = false.
Proof. split; reflexivity. Qed.

(** A scan over a page all of whose containers are done changes
    nothing. *)
Lemma processUsernames_all_done rand s :
  (forall uid, In uid (containers (page s)) ->
               exists el, byUid uid (page s) = Some el
                          /\ flagAdded el = Some "true") ->
  processUsernames rand s = s.
Proof.
  unfold processUsernames. generalize (containers (page s)).
  intros l. induction l as [|uid l IH]; simpl; intros Hall; [reflexivity|].
  assert (Hone : scanContainer rand s uid = s).
  { destruct (Hall uid (or_introl eq_refl)) as (el & H1 & H2).
    unfold scanContainer. rewrite H1, H2.
    destruct (extractUsername el); reflexivity. }
  rewrite Hone. apply IH. intros u Hu. apply Hall. right. exact Hu.
Qed.

(** C10. For a container whose tag is ['true'], whatever the cache and
    the rest of the state hold, a direct call of [addFlagToUsername]
    returns at once and the turn of the scan loop for it does nothing:
    the state, and with it the page and the tag, is unchanged. *)
Theorem done_container_is_left_alone (uid : Ident) (el : Node)
        (name : string) (rand : N) (s : State) :
  byUid uid (page s) = Some el ->
  flagAdded el = Some "true" ->
  addFlagToUsername uid name rand s = s
  /\ scanContainer rand s uid = s
  /\ wantsFlag (flagAdded el) = false.
Proof.
  intros Hel Htag. unfold addFlagToUsername, scanContainer.
  rewrite Hel, Htag. repeat split.
  destruct (extractUsername el); reflexivity.
Qed.

Lemma done_container_is_left_alone_witness :
  flagAdded doneCell = Some "true"
  /\ addFlagToUsername (Host 30) "carol" 0%N
       (set_locationCache {[ "carol" := Some "France" ]} (boot [doneCell] home))
     = set_locationCache {[ "carol" := Some "France" ]} (boot [doneCell] home)
  /\ scanContainer 0%N
       (set_locationCache {[ "carol" := Some "France" ]} (boot [doneCell] home))
       (Host 30)
     = set_locationCache {[ "carol" := Some "France" ]} (boot [doneCell] home).
Proof.
  refine (conj eq_refl _).
  refine (match done_container_is_left_alone
                  (Host 30) doneCell "carol" 0%N
                  (set_locationCache {[ "carol" := Some "France" ]}
                                     (boot [doneCell] home)) _ _ with
          | conj H1 (conj H2 _) => conj H1 H2
          end).
  - vm_compute. reflexivity.
  - reflexivity.
Defined.

(** The scenario of the specification: a cell that links to [/alice]
    with the text [@alice], and a response that places the account in
    France. One span with the flag is put right after the link and the
    cell is marked done; the scan that follows changes nothing on the
    page. *)
Example france_end_to_end :
  exists s1 s2,
    run [ (t0, 0%N, Loaded (ReadDone None));
          (t0 + 2000, 7%N, Fire 1);
          (t0 + 2300, 0%N,
           Receive true (LocationResponse "alice" (Some "France") (t0 + 2000, 7%N))) ]
        (boot [cell 10 "alice"] home) = Some s1
    /\ page s1
       = [Element (Host 10) "div"
            [("data-testid", "UserCell"); ("data-flag-added", "true")]
            [Element (Host 11) "a" [("href", "/alice")] [Text "@alice"];
             Element (Made 0) "span"
               [("data-twitter-flag", "true");
                ("style", "margin-left: 4px; display: inline;")]
               [Text " 🇫🇷"]]]
    /\ step (t0 + 2800) 0%N (Fire 6) s1 = Some s2
    /\ page s2 = page s1.
Proof.
  eexists. eexists.
  refine (conj _ _); [vm_compute; reflexivity|].
  refine (conj _ _); [vm_compute; reflexivity|].
  refine (conj _ _); vm_compute; reflexivity.
Qed.

End AnnotatorFacts.

(** ** The flag table: what a lookup returns *)

Module FlagTable.

Import Flags Terms FlagFacts.

(** X1. [getCountryFlag] returns a glyph exactly for the strings that
    agree with a key of the table up to case and surrounding white
    space, and the glyph is the one of that key. *)
Theorem getCountryFlag_glyph_iff (name glyph : string) :
  getCountryFlag (Some name) = Js.Str glyph <->
  exists kv, In kv COUNTRY_FLAGS /\ snd kv = glyph
             /\ folded name = Js.toLowerCase (fst kv).
Proof.
  split.
  - unfold getCountryFlag.
    destruct (negb (Js.truthy (Js.Str name))); [discriminate|].
    cbv zeta. unfold Js.get.
    destruct (List.find (fun a => String.eqb (fst a) name) COUNTRY_FLAGS)
      as [own|] eqn:Hown.
    + apply find_key_sound in Hown as [Hown1 Hown2].
      destruct (keys_trimmed _ Hown1) as [Htrim Hglyph]. rewrite Hglyph.
      intros [= <-]. exists own. repeat split; [exact Hown1|].
      unfold folded. rewrite <- Hown2, Htrim. reflexivity.
    + destruct (existsb (String.eqb name) Js.objectPrototype);
        [simpl; discriminate|].
      simpl Js.truthy. cbv iota.
      destruct (List.find (fun a => String.eqb (Js.toLowerCase (fst a)) _)
                          COUNTRY_FLAGS) as [hit|] eqn:Hhit; [|discriminate].
      apply find_some in Hhit as [Hh1 Hh2]. apply String.eqb_eq in Hh2.
      intros [= <-]. exists hit. repeat split; [exact Hh1|].
      symmetry. exact Hh2.
  - intros (kv & Hin & <- & E). apply getCountryFlag_folded; assumption.
Qed.

(** X2. For a string, [getCountryFlag] returns [null] exactly when the
    string agrees with no key of the table up to case and surrounding
    white space and is not the name of a property every object
    inherits; the empty string is such a string. *)
Theorem getCountryFlag_null_iff (name : string) :
  getCountryFlag (Some name) = Js.Null <->
  (forall kv, In kv COUNTRY_FLAGS -> folded name <> Js.toLowerCase (fst kv))
  /\ ~ In name Js.objectPrototype.
Proof.
  split.
  - intros Hnull. split.
    + intros kv Hin E.
      rewrite (getCountryFlag_folded name kv Hin E) in Hnull. discriminate.
    + intros Hp. revert Hnull. unfold getCountryFlag.
      assert (Hne : negb (Js.truthy (Js.Str name)) = false).
      { simpl. apply negb_false_iff, negb_true_iff, String.eqb_neq.
        intros ->. simpl in Hp. intuition discriminate. }
      rewrite Hne. cbv zeta. unfold Js.get.
      destruct (List.find (fun a => String.eqb (fst a) name) COUNTRY_FLAGS)
        as [own|] eqn:Hown.
      * apply find_key_sound in Hown as [Hown1 _].
        destruct (keys_trimmed _ Hown1) as [_ ->]. discriminate.
      * assert (Hex : existsb (String.eqb name) Js.objectPrototype = true).
        { apply existsb_exists. exists name. split; [exact Hp|].
          apply String.eqb_refl. }
        rewrite Hex. simpl. discriminate.
  - intros [Hno Hp]. apply getCountryFlag_unknown; assumption.
Qed.

End FlagTable.

(** ** The cache: from a save to the next start *)

Module CacheRoundTrip.

Import Dom Scan Content Terms Frames CacheFacts Sample.

(** X3. The object [saveCache] builds at the time [now] has an entry
    under a handle exactly when the handle is cached and is not
    [__proto__]; the entry carries the cached location, the save time as
    [cachedAt] and an expiry thirty days later. *)
Theorem saved_entries_are_stamped (now : Z)
        (cache : gmap string (option string)) (k : string) (d : CacheData) :
  cacheObject now cache !! k = Some d <->
  k <> "__proto__"
  /\ cache !! k = Some (location d)
  /\ cachedAt d = Some now
  /\ expiry d = Some (now + 2592000000).
Proof.
  rewrite cacheObject_lookup. destruct (String.eqb k "__proto__") eqn:E.
  - apply String.eqb_eq in E. split; [discriminate|]. intros [H _]. contradiction.
  - apply String.eqb_neq in E. destruct (cache !! k) as [v|]; simpl.
    + split.
      * intros [= <-]. repeat split. exact E.
      * intros (_ & [= ->] & Hc & He). f_equal. destruct d as [l e c].
        simpl in *. unfold stamped. rewrite Hc, He. reflexivity.
    + split; [discriminate|]. intros (_ & H & _). discriminate.
Qed.

(** X4. What a save writes, a later start of the script reads back: the
    object saved at [saved] and loaded at [now] gives back every cached
    handle other than [__proto__] with its location while less than
    thirty days have passed, and nothing from then on. *)
Theorem save_then_load (doc : list Node) (url : string)
        (cache : gmap string (option string)) (saved now : Z) (rand : N) :
  0 <= now ->
  exists s,
    step now rand (Loaded (ReadDone (Some (cacheObject saved cache))))
         (boot doc url) = Some s
    /\ (now < saved + 2592000000 ->
        forall k : string,
          locationCache s !! k
          = if String.eqb k "__proto__" then None else cache !! k)
    /\ (saved + 2592000000 <= now -> locationCache s = ∅).
Proof.
  intros Hnow. unfold step. simpl.
  destruct (now <? 0) eqn:E; [apply Z.ltb_lt in E; lia|].
  eexists. split; [reflexivity|].
  rewrite ?notify_cache, runJobs_cache. unfold init. simpl.
  set (s0 := set_clock now (boot doc url)).
  assert (Hlook : forall k : string,
             locationCache (loadCache (ReadDone (Some (cacheObject saved cache))) s0)
               !! k =
             if String.eqb k "__proto__" then None
             else match cache !! k with
                  | Some v => if unexpired now (stamped saved v)
                              then Some v else None
                  | None => None
                  end).
  { intros k. rewrite loadCache_lookup, cacheObject_lookup. simpl.
    rewrite lookup_empty. destruct (String.eqb k "__proto__"); [reflexivity|].
    destruct (cache !! k) as [v|]; reflexivity. }
  assert (Hu : forall v, unexpired now (stamped saved v)
                         = (now <? saved + 2592000000)).
  { intros v. unfold unexpired, stamped. simpl.
    change (CACHE_EXPIRY_DAYS * 24 * 60 * 60 * 1000) with 2592000000.
    destruct (now <? saved + 2592000000) eqn:El.
    - apply Z.ltb_lt in El. apply andb_true_iff. split.
      + apply negb_true_iff, Z.eqb_neq. lia.
      + apply Z.gtb_lt. lia.
    - apply Z.ltb_ge in El. apply andb_false_iff. right.
      destruct (saved + 2592000000 >? now) eqn:Eg; [|reflexivity].
      apply Z.gtb_lt in Eg. lia. }
  split.
  - intros Hfresh k. rewrite Hlook.
    destruct (String.eqb k "__proto__"); [reflexivity|].
    destruct (cache !! k) as [v|]; [|reflexivity].
    rewrite Hu. apply Z.ltb_lt in Hfresh. rewrite Hfresh. reflexivity.
  - intros Hold. apply map_eq. intros k. rewrite Hlook, lookup_empty.
    destruct (String.eqb k "__proto__"); [reflexivity|].
    destruct (cache !! k) as [v|]; [|reflexivity].
    rewrite Hu. apply Z.ltb_ge in Hold. rewrite Hold. reflexivity.
Qed.

Lemma save_then_load_witness :
  0 <= t0 + 1000
  /\ exists s,
      step (t0 + 1000) 0%N
           (Loaded (ReadDone (Some (cacheObject t0 {[ "alice" := Some "France" ]}))))
           (boot [] home) = Some s
      /\ locationCache s !! "alice" = Some (Some "France").
Proof.
  refine (conj _ _); [vm_compute; discriminate|].
  refine (match save_then_load [] home {[ "alice" := Some "France" ]}
                  t0 (t0 + 1000) 0%N _ with
          | ex_intro _ s (conj H1 (conj H2 _)) =>
              ex_intro _ s (conj H1 (eq_trans (H2 _ "alice") _))
          end).
  - vm_compute. discriminate.
  - vm_compute. reflexivity.
  - vm_compute. reflexivity.
Defined.

End CacheRoundTrip.

(** ** Trees and paths *)

Module TreeFacts.

Import Dom Scan Paths.

Lemma node_induction (P : Node -> Prop) :
  (forall d, P (Text d)) ->
  (forall u t a kids, Forall P kids -> P (Element u t a kids)) ->
  forall n, P n.
Proof.
  intros Ht He. fix IH 1. intros [u t a kids|d]; [|apply Ht].
  apply He. induction kids as [|k kids IHk]; constructor; [apply IH|exact IHk].
Qed.

Lemma descendants_under u t a kids :
  descendants (Element u t a kids) = under 0 kids.
Proof.
  unfold descendants at 1. fold descendants.
  generalize 0%nat. induction kids as [|k kids IHk]; intros i; [reflexivity|].
  simpl. destruct k; rewrite IHk; reflexivity.
Qed.


Lemma under_in i l p m :
  In (p, m) (under i l) ->
  exists j k, nth_error l j = Some k
              /\ ((p = [(i + j)%nat] /\ m = k)
                  \/ exists p1, p = (i + j)%nat :: p1 /\ In (p1, m) (descendants k)).
Proof.
  revert i. induction l as [|k l IHl]; intros i Hin; [contradiction|].
  assert (Hrest : In (p, m) (under (S i) l) ->
                  exists j k0, nth_error (k :: l) j = Some k0
                    /\ ((p = [(i + j)%nat] /\ m = k0)
                        \/ exists p1, p = (i + j)%nat :: p1
                                      /\ In (p1, m) (descendants k0))).
  { intros H. destruct (IHl _ H) as (j & k0 & Hn & Hc). exists (S j), k0.
    split; [exact Hn|]. replace (i + S j)%nat with (S i + j)%nat by lia.
    exact Hc. }
  simpl in Hin. destruct k as [u t a kids|d]; [|auto].
  destruct Hin as [Heq|Hin].
  - injection Heq as <- <-. exists 0%nat, (Element u t a kids).
    split; [reflexivity|]. left. rewrite Nat.add_0_r. split; reflexivity.
  - apply in_app_iff in Hin as [Hin|Hin]; [|auto].
    apply in_map_iff in Hin as ([p1 m1] & Heq & Hin). simpl in Heq.
    injection Heq as <- <-. exists 0%nat, (Element u t a kids).
    split; [reflexivity|]. right. exists p1. rewrite Nat.add_0_r.
    split; [reflexivity|exact Hin].
Qed.

(** A descendant is found at its path, which is not empty. *)
Lemma descendants_at n :
  forall p m, In (p, m) (descendants n) -> p <> [] /\ nodeAt p n = Some m.
Proof.
  induction n as [d|u t a kids IH] using node_induction; intros p m Hin;
    [contradiction|].
  rewrite descendants_under in Hin.
  destruct (under_in _ _ _ _ Hin) as (j & k & Hn & [[-> ->]|(p1 & -> & Hk)]).
  - split; [discriminate|]. simpl. rewrite Hn. reflexivity.
  - split; [discriminate|]. simpl. rewrite Hn.
    rewrite List.Forall_forall in IH. apply (IH k); [|exact Hk].
    apply nth_error_In with j. exact Hn.
Qed.

(** What lies below a child lies below the parent. *)
Lemma under_of i l j k p m :
  nth_error l j = Some k -> In (p, m) (descendants k) ->
  In ((i + j)%nat :: p, m) (under i l).
Proof.
  revert i j. induction l as [|k1 l IHl]; intros i [|j] Hn Hin; simpl in Hn;
    try discriminate.
  - injection Hn as ->. rewrite Nat.add_0_r.
    destruct k as [u t a kids|d]; [|contradiction]. simpl. right.
    apply in_app_iff. left. apply in_map_iff. exists (p, m).
    split; [reflexivity|exact Hin].
  - replace (i + S j)%nat with (S i + j)%nat by lia.
    pose proof (IHl (S i) j Hn Hin) as H. simpl.
    destruct k1 as [u t a kids|d]; [|exact H].
    right. apply in_app_iff. right. exact H.
Qed.

(** A descendant of a descendant is a descendant, at the path that goes
    through the first one. *)
Lemma descendants_trans n :
  forall p c q m,
    In (p, c) (descendants n) -> In (q, m) (descendants c) ->
    In (p ++ q, m) (descendants n).
Proof.
  induction n as [d|u t a kids IH] using node_induction;
    intros p c q m Hp Hq; [contradiction|].
  rewrite descendants_under in *.
  destruct (under_in _ _ _ _ Hp) as (j & k & Hn & [[-> ->]|(p1 & -> & Hk)]).
  - simpl. apply (under_of 0 kids j k q m Hn Hq).
  - simpl. apply (under_of 0 kids j k (p1 ++ q) m Hn).
    rewrite List.Forall_forall in IH. apply (IH k) with c; [|exact Hk|exact Hq].
    apply nth_error_In with j. exact Hn.
Qed.

Lemma nodeAt_app p q n m :
  nodeAt p n = Some m -> nodeAt (p ++ q) n = nodeAt q m.
Proof.
  revert n. induction p as [|i p IHp]; intros n H; simpl in *.
  - injection H as ->. reflexivity.
  - destruct (nth_error (childrenOf n) i) as [k|]; [|discriminate].
    apply IHp. exact H.
Qed.

Lemma nth_error_mapNth {A} (f : A -> A) (l : list A) i :
  nth_error (mapNth i f l) i = f <$> nth_error l i.
Proof.
  revert i. induction l as [|x l IHl]; intros [|i]; simpl; try reflexivity.
  apply IHl.
Qed.

(** Below the place of an update the tree is the image of the old
    subtree. *)
Lemma nodeAt_updateAt p f n m q :
  nodeAt p n = Some m ->
  nodeAt (p ++ q) (updateAt p f n) = nodeAt q (f m).
Proof.
  revert n. induction p as [|i p IHp]; intros n H; simpl in *.
  - injection H as ->. reflexivity.
  - destruct n as [u t a kids|d]; simpl in *.
    + rewrite nth_error_mapNth.
      destruct (nth_error kids i) as [k|]; [|discriminate]. simpl.
      apply IHp. exact H.
    + destruct i; discriminate.
Qed.

Lemma nodeAt_setAttr name v n p :
  p <> [] -> nodeAt p (setAttr name v n) = nodeAt p n.
Proof.
  intros Hp. destruct p as [|i p]; [congruence|]. destruct n; reflexivity.
Qed.

(** The children of a node around an inserted one. *)
Lemma insertAfterChild_at i new parent link :
  nth_error (childrenOf parent) i = Some link ->
  nodeAt [i] (insertAfterChild i new parent) = Some link
  /\ nodeAt [S i] (insertAfterChild i new parent) = Some new.
Proof.
  intros H. destruct parent as [u t a kids|d]; [|destruct i; discriminate].
  simpl in H. unfold nodeAt, insertAfterChild, childrenOf.
  assert (Hlen : (i < List.length kids)%nat).
  { apply nth_error_Some. congruence. }
  assert (Hfirst : List.length (firstn (S i) kids) = S i).
  { rewrite length_firstn. lia. }
  split.
  - rewrite nth_error_app1 by lia.
    rewrite nth_error_firstn.
    destruct (Nat.ltb_spec i (S i)) as [_|Hc]; [|lia]. rewrite H. reflexivity.
  - rewrite nth_error_app2 by lia. rewrite Hfirst, Nat.sub_diag. reflexivity.
Qed.

Lemma attr_assocSet name v l :
  snd <$> List.find (fun kv => String.eqb (fst kv) name) (assocSet name v l)
  = Some v.
Proof.
  induction l as [|kv l IHl]; simpl.
  - rewrite String.eqb_refl. reflexivity.
  - destruct (String.eqb (fst kv) name) eqn:E; simpl.
    + rewrite String.eqb_refl. reflexivity.
    + rewrite E. exact IHl.
Qed.

Lemma flagAdded_set v u t a kids :
  flagAdded (setFlagAdded v (Element u t a kids)) = Some v.
Proof. apply attr_assocSet. Qed.

Lemma updateAt_element p f u t a kids :
  (forall n, uidOf n <> None -> uidOf (f n) <> None) ->
  uidOf (updateAt p f (Element u t a kids)) <> None.
Proof.
  intros Hf. destruct p as [|i p]; simpl; [|discriminate].
  apply Hf. discriminate.
Qed.

End TreeFacts.

(** ** Reading a container *)

Module ScanFacts.

Import Dom Scan Content Terms Sample Paths TreeFacts.

Lemma append_cons c s r : String c s +:+ r = String c (s +:+ r).
Proof. reflexivity. Qed.

Lemma append_nil r : "" +:+ r = r.
Proof. reflexivity. Qed.

Lemma segment_split s :
  exists rest,
    s = segment s +:+ rest
    /\ (rest = "" \/ exists c r, rest = String c r /\ endsSegment c)
    /\ List.Forall (fun c => ~ endsSegment c) (chars (segment s)).
Proof.
  induction s as [|c s (rest & Hs & Hr & Hf)]; simpl.
  - exists "". split; [reflexivity|]. split; [left; reflexivity|constructor].
  - destruct (Ascii.eqb c "/" || Ascii.eqb c "?")%char eqn:E.
    + exists (String c s). split; [reflexivity|]. split; [|constructor].
      right. exists c, s. split; [reflexivity|].
      apply orb_true_iff in E as [E|E]; apply Ascii.eqb_eq in E;
        [left|right]; exact E.
    + exists rest. rewrite append_cons. split; [f_equal; exact Hs|]. split; [exact Hr|].
      constructor; [|exact Hf]. apply orb_false_iff in E as [E1 E2].
      apply Ascii.eqb_neq in E1, E2. intros [H|H]; contradiction.
Qed.

Lemma segment_unique seg rest :
  List.Forall (fun c => ~ endsSegment c) (chars seg) ->
  (rest = "" \/ exists c r, rest = String c r /\ endsSegment c) ->
  segment (seg +:+ rest) = seg.
Proof.
  intros Hf Hr. induction seg as [|c seg IH].
  - rewrite append_nil.
    destruct Hr as [->|(c & r & -> & Hc)]; [reflexivity|]. simpl.
    destruct Hc as [-> | ->]; reflexivity.
  - rewrite append_cons. simpl. inversion Hf as [|? ? Hc Hf1]; subst.
    destruct (Ascii.eqb c "/" || Ascii.eqb c "?")%char eqn:E.
    + exfalso. apply Hc. apply orb_true_iff in E as [E|E];
        apply Ascii.eqb_eq in E; [left|right]; exact E.
    + f_equal. apply IH. exact Hf1.
Qed.

(** X5. The capture of [/^\/([^\/\?]+)/] on an address is [seg] exactly
    when [seg] is not empty, holds neither a slash nor a question mark,
    and the address is a slash, then [seg], then nothing or something
    that starts with a slash or a question mark. *)
Theorem firstSegment_iff (href seg : string) :
  firstSegment href = Some seg <->
  seg <> ""
  /\ List.Forall (fun c => ~ endsSegment c) (chars seg)
  /\ exists rest,
       href = "/" +:+ seg +:+ rest
       /\ (rest = "" \/ exists c r, rest = String c r /\ endsSegment c).
Proof.
  split.
  - unfold firstSegment. destruct href as [|c rest0]; [discriminate|].
    destruct (Ascii.eqb c "/") eqn:E; [|discriminate].
    apply Ascii.eqb_eq in E. subst c.
    destruct (segment_split rest0) as (rest & Hs & Hr & Hf).
    destruct (segment rest0) as [|c1 s1] eqn:Es; [discriminate|].
    intros [= <-]. split; [discriminate|]. split; [exact Hf|].
    exists rest. split; [|exact Hr]. rewrite append_cons, append_nil.
    f_equal. exact Hs.
  - intros (Hne & Hf & rest & -> & Hr). rewrite append_cons, append_nil.
    simpl. rewrite (segment_unique seg rest Hf Hr).
    destruct seg; [congruence|reflexivity].
Qed.

Lemma firstHandle_found body links h :
  firstHandle body links = Some h ->
  exists l, In l links /\ body (snd l) = Some h.
Proof.
  induction links as [|l links IH]; simpl; [discriminate|].
  destruct (body (snd l)) as [h1|] eqn:E.
  - intros [= <-]. exists l. split; [left; reflexivity|exact E].
  - intros H. destruct (IH H) as (l1 & Hin & Hb). exists l1.
    split; [right; exact Hin|exact Hb].
Qed.

Lemma nameLinkHandle_sound link h :
  nameLinkHandle link = Some h ->
  firstSegment (hrefOf link) = Some h /\ isRoute h = false.
Proof.
  unfold nameLinkHandle. destruct (firstSegment (hrefOf link)) as [seg|];
    [|discriminate].
  destruct (isRoute seg) eqn:E; simpl; [discriminate|].
  intros [= <-]. split; [reflexivity|exact E].
Qed.

Lemma anyLinkHandle_sound toLowerCase link h :
  Lowering.anyLinkHandle toLowerCase link = Some h ->
  firstSegment (hrefOf link) = Some h /\ isRoute h = false.
Proof.
  unfold Lowering.anyLinkHandle.
  destruct (firstSegment (hrefOf link)) as [seg|]; [|discriminate].
  destruct (isRoute seg) eqn:E; simpl; [discriminate|].
  destruct (negb (Js.includes seg "status")); [|discriminate].
  destruct (_ && Js.startsWith _ "@").
  - intros [= <-]. split; [reflexivity|exact E].
  - destruct (_ && String.eqb _ _); [|discriminate].
    intros [= <-]. split; [reflexivity|exact E].
Qed.

(** With the lower case of [Js.toLowerCase], the function is the
    [extractUsername] the scan of the script is modelled with. *)
Lemma extractUsername_basic element :
  Lowering.extractUsername Js.toLowerCase element = extractUsername element.
Proof. reflexivity. Qed.

Lemma querySelectorAll_at sel n l :
  In l (querySelectorAll sel n) ->
  sel (snd l) = true /\ fst l <> [] /\ nodeAt (fst l) n = Some (snd l).
Proof.
  unfold querySelectorAll. intros H. apply List.filter_In in H as [Hin Hsel].
  split; [exact Hsel|]. destruct l as [p m]. apply descendants_at. exact Hin.
Qed.

Lemma querySelector_at sel n l :
  querySelector sel n = Some l ->
  sel (snd l) = true /\ fst l <> [] /\ nodeAt (fst l) n = Some (snd l).
Proof.
  unfold querySelector. intros H. apply List.find_some in H as [Hin Hsel].
  split; [exact Hsel|]. destruct l as [p m]. apply descendants_at. exact Hin.
Qed.

(** X6. Whatever the lower case of a letter is, the handle
    [extractUsername] returns is the first segment of the address of a
    link below the element whose address starts with a slash, and it is
    none of the routes the script sets apart. *)
Theorem extractUsername_sound (toLowerCase : string -> string)
        (element : Node) (h : string) :
  Lowering.extractUsername toLowerCase element = Some h ->
  isRoute h = false
  /\ exists p link,
       p <> [] /\ nodeAt p element = Some link
       /\ isRootedAnchor link = true
       /\ firstSegment (hrefOf link) = Some h.
Proof.
  unfold Lowering.extractUsername.
  destruct (querySelector (hasTestId "UserName") element) as [c|] eqn:Ec.
  - destruct (firstHandle nameLinkHandle _) as [h1|] eqn:E1.
    + intros [= <-]. destruct (firstHandle_found _ _ _ E1) as (l & Hin & Hb).
      destruct (nameLinkHandle_sound _ _ Hb) as [Hseg Hroute].
      destruct (querySelectorAll_at _ _ _ Hin) as (Hsel & Hp & Hat).
      destruct (querySelector_at _ _ _ Ec) as (_ & Hpc & Hc).
      split; [exact Hroute|]. exists (fst c ++ fst l), (snd l).
      split; [intros H; apply app_eq_nil in H as [H _]; contradiction|].
      split; [rewrite (nodeAt_app _ _ _ _ Hc); exact Hat|].
      split; [exact Hsel|exact Hseg].
    + intros H. destruct (firstHandle_found _ _ _ H) as (l & Hin & Hb).
      destruct (anyLinkHandle_sound _ _ _ Hb) as [Hseg Hroute].
      destruct (querySelectorAll_at _ _ _ Hin) as (Hsel & Hp & Hat).
      split; [exact Hroute|]. exists (fst l), (snd l). auto.
  - intros H. destruct (firstHandle_found _ _ _ H) as (l & Hin & Hb).
    destruct (anyLinkHandle_sound _ _ _ Hb) as [Hseg Hroute].
    destruct (querySelectorAll_at _ _ _ Hin) as (Hsel & Hp & Hat).
    split; [exact Hroute|]. exists (fst l), (snd l). auto.
Qed.

Lemma extractUsername_sound_witness :
  Lowering.extractUsername Js.toLowerCase (cell 10 "alice") = Some "alice"
  /\ isRoute "alice" = false.
Proof.
  refine (conj _ _); [vm_compute; reflexivity|].
  refine (proj1 (extractUsername_sound Js.toLowerCase (cell 10 "alice")
                                       "alice" _)).
  vm_compute. reflexivity.
Defined.

End ScanFacts.

(** ** Placing the flag *)

Module AnnotateFacts.

Import Dom Scan Content Terms Sample Paths TreeFacts ScanFacts.

(** The link the three strategies find lies below the container, at the
    path they return. *)
Lemma findUsernameLink_at name el l :
  findUsernameLink name el = Some l ->
  fst l <> [] /\ nodeAt (fst l) el = Some (snd l).
Proof.
  unfold findUsernameLink.
  destruct (List.find (fun l0 => pointsTo name (snd l0))
                      (querySelectorAll isRootedAnchor el)) as [l1|] eqn:E1.
  { intros [= <-]. apply List.find_some in E1 as [Hin _].
    apply (querySelectorAll_at _ _ _ Hin). }
  destruct (querySelector (hasTestId "UserName") el) as [c|] eqn:Ec.
  - destruct (querySelector _ (snd c)) as [l2|] eqn:E2.
    + intros [= <-]. simpl.
      destruct (querySelector_at _ _ _ Ec) as (_ & Hpc & Hc).
      destruct (querySelector_at _ _ _ E2) as (_ & Hp2 & H2).
      split; [intros H; apply app_eq_nil in H as [H _]; contradiction|].
      rewrite (nodeAt_app _ _ _ _ Hc). exact H2.
    + intros H. apply List.find_some in H as [Hin _].
      apply (querySelectorAll_at _ _ _ Hin).
  - intros H. apply List.find_some in H as [Hin _].
    apply (querySelectorAll_at _ _ _ Hin).
Qed.

Lemma nodeAt_snoc p i n m :
  nodeAt (p ++ [i]) n = Some m ->
  exists parent, nodeAt p n = Some parent
                 /\ nth_error (childrenOf parent) i = Some m.
Proof.
  revert n. induction p as [|j p IHp]; intros n H; simpl in *.
  - exists n. split; [reflexivity|].
    destruct (nth_error (childrenOf n) i); [exact H|discriminate].
  - destruct (nth_error (childrenOf n) j) as [k|]; [|discriminate].
    apply IHp. exact H.
Qed.

(** What [annotate] does, case by case. *)
Lemma annotate_cases name loc fresh el :
  annotate name loc fresh el = (setFlagAdded "failed" el, false)
  \/ (exists p i link parent q m,
         findUsernameLink name el = Some (p ++ [i], link)
         /\ nodeAt p el = Some parent
         /\ querySelector isFlag parent = Some (q, m)
         /\ annotate name loc fresh el = (setFlagAdded "true" el, false))
  \/ (exists p i link parent,
         findUsernameLink name el = Some (p ++ [i], link)
         /\ nodeAt p el = Some parent
         /\ nth_error (childrenOf parent) i = Some link
         /\ annotate name loc fresh el
            = (setFlagAdded "true"
                 (updateAt p (insertAfterChild i
                                (flagSpan fresh (Flags.getCountryFlag loc))) el),
               true)).
Proof.
  unfold annotate.
  destruct (negb (Js.truthy _)); [left; reflexivity|].
  destruct (negb (Js.truthy (Flags.getCountryFlag loc))); [left; reflexivity|].
  destruct (findUsernameLink name el) as [[path link]|] eqn:Ef;
    [|left; reflexivity].
  destruct (findUsernameLink_at _ _ _ Ef) as [Hne Hat]. simpl in Hne, Hat.
  pose proof (app_removelast_last 0%nat Hne) as Hpath.
  set (pp := removelast path) in *. set (i := List.last path 0%nat) in *.
  cbn [fst]. fold pp. fold i.
  rewrite Hpath in Hat. destruct (nodeAt_snoc _ _ _ _ Hat) as (parent & Hp & Hi).
  rewrite Hp. right.
  destruct (querySelector isFlag parent) as [[q m]|] eqn:Eq.
  - left. exists pp, i, link, parent, q, m. rewrite <- Hpath. auto.
  - right. exists pp, i, link, parent. rewrite <- Hpath. auto.
Qed.

(** The mark [annotate] leaves is a final one. *)
Lemma annotate_final name loc fresh u t a kids :
  flagAdded (fst (annotate name loc fresh (Element u t a kids))) = Some "true"
  \/ flagAdded (fst (annotate name loc fresh (Element u t a kids)))
     = Some "failed".
Proof.
  destruct (annotate_cases name loc fresh (Element u t a kids))
    as [E|[(p & i & link & parent & q & m & _ & _ & _ & E)
          |(p & i & link & parent & _ & _ & _ & E)]]; rewrite E; cbn [fst].
  - right. apply flagAdded_set.
  - left. apply flagAdded_set.
  - left. destruct p as [|j p]; simpl; apply attr_assocSet.
Qed.

(** A link that [pointsTo] the handle has an address that starts with
    a slash. *)
Lemma pointsTo_rooted name link h :
  String.eqb (tagOf link) "a" = true -> attr "href" link = Some h ->
  pointsTo name link = true -> isRootedAnchor link = true.
Proof.
  unfold pointsTo, isRootedAnchor, hrefOf. intros Ht Ha. rewrite Ht, Ha. simpl.
  intros H. apply orb_true_iff in H as [H|H].
  - apply String.eqb_eq in H. subst h. rewrite append_cons, append_nil.
    unfold Js.startsWith. simpl. destruct name; reflexivity.
  - unfold Js.startsWith in *. rewrite append_cons in H.
    destruct h as [|c h]; [discriminate|]. cbn [String.prefix] in H |- *.
    destruct (Ascii.ascii_dec "/" c) as [_|]; [|discriminate].
    destruct h; reflexivity.
Qed.

(** The second strategy finds no link that the first one has not found:
    the link the three strategies give is the first link of the
    container that [pointsTo] the handle and, when there is none, the
    first one whose address has the handle as its first segment. *)
Lemma findUsernameLink_spec name el :
  findUsernameLink name el =
  match List.find (fun l => pointsTo name (snd l))
                  (querySelectorAll isRootedAnchor el) with
  | Some l => Some l
  | None =>
      List.find (fun l => match firstSegment (hrefOf (snd l)) with
                          | Some seg => String.eqb seg name
                          | None => false
                          end) (querySelectorAll isRootedAnchor el)
  end.
Proof.
  unfold findUsernameLink.
  destruct (List.find (fun l0 => pointsTo name (snd l0))
                      (querySelectorAll isRootedAnchor el)) as [l1|] eqn:E1;
    [reflexivity|].
  destruct (querySelector (hasTestId "UserName") el) as [c|] eqn:Ec;
    [|reflexivity].
  destruct (querySelector _ (snd c)) as [l2|] eqn:E2; [|reflexivity].
  exfalso. unfold querySelector in Ec, E2.
  apply List.find_some in Ec as [Hc _]. apply List.find_some in E2 as [H2 Hs].
  apply andb_true_iff in Hs as [Ht Hs].
  destruct (attr "href" (snd l2)) as [h|] eqn:Ea; [|discriminate].
  pose proof (pointsTo_rooted name (snd l2) h Ht Ea Hs) as Hr.
  destruct c as [pc c], l2 as [p2 l2]. simpl in *.
  pose proof (descendants_trans el pc c p2 l2 Hc H2) as Hin.
  assert (Hno : pointsTo name l2 = false).
  { apply (List.find_none _ _ E1 (pc ++ p2, l2)).
    unfold querySelectorAll. apply List.filter_In. split; [exact Hin|exact Hr]. }
  congruence.
Qed.

(** X7. For a handle that is [plainHandle] and a lookup that gave a
    string or [null], [addFlagToUsername] leaves the container marked
    [true] or [failed], never [processing]; and it is [true] whenever a
    flag was inserted. *)
Theorem annotate_marks (name : string) (loc : option string) (fresh : nat)
        (u : Ident) (t : string) (a : list (string * string))
        (kids : list Node) :
  plainHandle name = true ->
  (flagAdded (fst (annotate name loc fresh (Element u t a kids))) = Some "true"
   \/ flagAdded (fst (annotate name loc fresh (Element u t a kids)))
      = Some "failed")
  /\ (snd (annotate name loc fresh (Element u t a kids)) = true ->
      flagAdded (fst (annotate name loc fresh (Element u t a kids)))
      = Some "true").
Proof.
  intros _.
  destruct (annotate_cases name loc fresh (Element u t a kids))
    as [E|[(p & i & link & parent & q & m & _ & _ & _ & E)
          |(p & i & link & parent & _ & _ & _ & E)]]; rewrite E; cbn [fst snd].
  - rewrite flagAdded_set. split; [right; reflexivity|discriminate].
  - rewrite flagAdded_set. split; [left; reflexivity|discriminate].
  - assert (H : flagAdded
                  (setFlagAdded "true"
                     (updateAt p (insertAfterChild i
                                    (flagSpan fresh (Flags.getCountryFlag loc)))
                               (Element u t a kids))) = Some "true").
    { destruct p as [|j p]; simpl; apply attr_assocSet. }
    rewrite H. split; [left; reflexivity|reflexivity].
Qed.

Lemma annotate_marks_witness :
  plainHandle "alice" = true
  /\ flagAdded (fst (annotate "alice" (Some "Atlantis") 0
                              (Element (Host 10) "div"
                                 [("data-testid", "UserCell");
                                  ("data-flag-added", "processing")]
                                 [Element (Host 11) "a" [("href", "/alice")]
                                          [Text "@alice"]])))
     = Some "failed".
Proof.
  refine (conj _ _); [vm_compute; reflexivity|].
  refine (match proj1 (annotate_marks
                         "alice" (Some "Atlantis") 0 (Host 10) "div"
                         [("data-testid", "UserCell");
                          ("data-flag-added", "processing")]
                         [Element (Host 11) "a" [("href", "/alice")]
                                  [Text "@alice"]] _) with
          | or_introl H => _
          | or_intror H => H
          end).
  - vm_compute. reflexivity.
  - vm_compute in H. discriminate H.
Defined.

(** X8. For a handle that is [plainHandle], when [addFlagToUsername]
    inserts the flag, the new element is the next sibling of the link
    of the handle: the first link of the container whose address is the
    slash and the handle, alone or followed by a question mark, and,
    when the container has no such link, the first one whose address
    has the handle as its first segment. The link keeps its place and
    the flag comes right after it. *)
Theorem annotate_inserts_after_link (name : string) (loc : option string)
        (fresh : nat) (el : Node) :
  plainHandle name = true ->
  snd (annotate name loc fresh el) = true ->
  exists p i link,
    (List.find (fun l => pointsTo name (snd l))
               (querySelectorAll isRootedAnchor el) = Some (p ++ [i], link)
     \/ (List.find (fun l => pointsTo name (snd l))
                   (querySelectorAll isRootedAnchor el) = None
         /\ List.find (fun l => match firstSegment (hrefOf (snd l)) with
                                | Some seg => String.eqb seg name
                                | None => false
                                end)
                      (querySelectorAll isRootedAnchor el)
            = Some (p ++ [i], link)))
    /\ nodeAt (p ++ [i]) el = Some link
    /\ nodeAt (p ++ [i]) (fst (annotate name loc fresh el)) = Some link
    /\ nodeAt (p ++ [S i]) (fst (annotate name loc fresh el))
       = Some (flagSpan fresh (Flags.getCountryFlag loc)).
Proof.
  intros _.
  destruct (annotate_cases name loc fresh el)
    as [E|[(p & i & link & parent & q & m & _ & _ & _ & E)
          |(p & i & link & parent & Hf & Hp & Hi & E)]]; rewrite E; cbn [fst snd];
    try discriminate.
  intros _. exists p, i, link.
  split.
  { rewrite findUsernameLink_spec in Hf.
    destruct (List.find (fun l => pointsTo name (snd l))
                        (querySelectorAll isRootedAnchor el)) as [l1|];
      [left; exact Hf|right; split; [reflexivity|exact Hf]]. }
  split.
  { rewrite (nodeAt_app _ _ _ _ Hp). simpl. rewrite Hi. reflexivity. }
  destruct (insertAfterChild_at
              i (flagSpan fresh (Flags.getCountryFlag loc)) parent link Hi)
    as [H1 H2].
  unfold setFlagAdded. split.
  - rewrite nodeAt_setAttr by (intros H; apply app_eq_nil in H as [_ H];
                               discriminate).
    rewrite (nodeAt_updateAt _ _ _ _ _ Hp). exact H1.
  - rewrite nodeAt_setAttr by (intros H; apply app_eq_nil in H as [_ H];
                               discriminate).
    rewrite (nodeAt_updateAt _ _ _ _ _ Hp). exact H2.
Qed.

Lemma annotate_inserts_after_link_witness :
  plainHandle "alice" = true
  /\ snd (annotate "alice" (Some "France") 0 (cell 10 "alice")) = true
  /\ exists p i link,
      nodeAt (p ++ [i]) (fst (annotate "alice" (Some "France") 0
                                      (cell 10 "alice"))) = Some link
      /\ nodeAt (p ++ [S i]) (fst (annotate "alice" (Some "France") 0
                                            (cell 10 "alice")))
         = Some (flagSpan 0 (Flags.getCountryFlag (Some "France"))).
Proof.
  refine (conj _ _); [vm_compute; reflexivity|].
  refine (conj _ _); [vm_compute; reflexivity|].
  refine (match annotate_inserts_after_link
                  "alice" (Some "France") 0 (cell 10 "alice") _ _ with
          | ex_intro _ p (ex_intro _ i (ex_intro _ link
              (conj _ (conj _ (conj H3 H4))))) =>
              ex_intro _ p (ex_intro _ i (ex_intro _ link (conj H3 H4)))
          end).
  - vm_compute. reflexivity.
  - vm_compute. reflexivity.
Defined.

(** X9. A container that [addFlagToUsername] leaves marked [true] holds
    an element with the attribute [data-twitter-flag]. *)
Theorem done_container_holds_flag (name : string) (loc : option string)
        (fresh : nat) (u : Ident) (t : string) (a : list (string * string))
        (kids : list Node) :
  flagAdded (fst (annotate name loc fresh (Element u t a kids))) = Some "true" ->
  exists p m,
    p <> []
    /\ nodeAt p (fst (annotate name loc fresh (Element u t a kids))) = Some m
    /\ isFlag m = true.
Proof.
  destruct (annotate_cases name loc fresh (Element u t a kids))
    as [E|[(p & i & link & parent & q & m & _ & Hp & Hq & E)
          |(p & i & link & parent & Hf & Hp & Hi & E)]]; rewrite E; cbn [fst snd].
  - rewrite flagAdded_set. discriminate.
  - intros _. destruct (querySelector_at _ _ _ Hq) as (Hm & Hne & Hat).
    simpl in Hm, Hne, Hat. exists (p ++ q), m.
    assert (Hpq : p ++ q <> [])
      by (intros H; apply app_eq_nil in H as [_ H]; contradiction).
    split; [exact Hpq|]. split; [|exact Hm].
    unfold setFlagAdded. rewrite nodeAt_setAttr by exact Hpq.
    rewrite (nodeAt_app _ _ _ _ Hp). exact Hat.
  - intros _. exists (p ++ [S i]), (flagSpan fresh (Flags.getCountryFlag loc)).
    assert (Hpq : p ++ [S i] <> [])
      by (intros H; apply app_eq_nil in H as [_ H]; discriminate).
    split; [exact Hpq|]. split; [|reflexivity].
    unfold setFlagAdded. rewrite nodeAt_setAttr by exact Hpq.
    rewrite (nodeAt_updateAt _ _ _ _ _ Hp).
    apply (insertAfterChild_at _ _ _ _ Hi).
Qed.

Lemma done_container_holds_flag_witness :
  flagAdded (fst (annotate "alice" (Some "France") 0
                           (Element (Host 10) "div" [("data-testid", "UserCell")]
                              [Element (Host 11) "a" [("href", "/alice")]
                                       [Text "@alice"]])))
  = Some "true"
  /\ exists p m,
      p <> []
      /\ nodeAt p (fst (annotate "alice" (Some "France") 0
                           (Element (Host 10) "div" [("data-testid", "UserCell")]
                              [Element (Host 11) "a" [("href", "/alice")]
                                       [Text "@alice"]]))) = Some m
      /\ isFlag m = true.
Proof.
  refine (conj _ _); [vm_compute; reflexivity|].
  refine (done_container_holds_flag
            "alice" (Some "France") 0 (Host 10) "div"
            [("data-testid", "UserCell")]
            [Element (Host 11) "a" [("href", "/alice")] [Text "@alice"]] _).
  vm_compute. reflexivity.
Defined.

End AnnotateFacts.

(** ** The request queue: order and pauses *)

Module OrderInv.

Import Dom Scan Content Terms Lines Frames QueueView QueueInv Settlements TimerFacts.

Lemma ascending_snoc {A} (R : A -> A -> Prop) (l : list A) y :
  Ascending R l -> (forall x, In x l -> R x y) -> Ascending R (l ++ [y]).
Proof.
  induction l as [|x l IH]; simpl; intros Hl Hy.
  - split; [intros z []|exact Logic.I].
  - destruct Hl as [Hx Hl]. split.
    + intros z Hz. apply in_app_iff in Hz as [Hz|[<-|[]]]; auto.
    + apply IH; auto.
Qed.

Lemma ascending_app {A} (R : A -> A -> Prop) (l1 l2 : list A) :
  Ascending R (l1 ++ l2) <->
  Ascending R l1 /\ Ascending R l2 /\ (forall x y, In x l1 -> In y l2 -> R x y).
Proof.
  induction l1 as [|x l1 IH]; simpl.
  - split; [intros H; repeat split; auto; intros x y []|tauto].
  - rewrite IH. split.
    + intros (Hx & H1 & H2 & H3). repeat split; auto.
      * intros y Hy. apply Hx, in_app_iff. auto.
      * intros z y [<-|Hz] Hy; [apply Hx, in_app_iff; auto|auto].
    + intros ((Hx & H1) & H2 & H3). repeat split; auto.
      intros y Hy. apply in_app_iff in Hy as [Hy|Hy]; auto.
Qed.

Lemma ascending_filter {A} (R : A -> A -> Prop) (p : A -> bool) (l : list A) :
  Ascending R l -> Ascending R (List.filter p l).
Proof.
  induction l as [|x l IH]; simpl; [auto|]. intros [Hx Hl].
  destruct (p x); simpl; auto. split; auto.
  intros y Hy. apply List.filter_In in Hy as [Hy _]. auto.
Qed.

Lemma ascending_map_filter {A B} (R : B -> B -> Prop) (f : A -> B)
      (p : A -> bool) (l : list A) :
  Ascending R (List.map f l) -> Ascending R (List.map f (List.filter p l)).
Proof.
  induction l as [|x l IH]; simpl; [auto|]. intros [Hx Hl].
  destruct (p x); simpl; auto. split; auto.
  intros y Hy. apply in_map_iff in Hy as (z & <- & Hz).
  apply List.filter_In in Hz as [Hz _]. apply Hx, in_map. exact Hz.
Qed.

Lemma order_same v v1 :
  vListeners v1 = vListeners v -> vLast v1 = vLast v -> vQueue v1 = vQueue v ->
  Order v -> Order v1.
Proof.
  intros H1 H2 H3 [A B C]. split; unfold inOrder in *; rewrite ?H1, ?H2, ?H3; auto.
Qed.

Lemma paused_same v v1 :
  vBusy v1 = vBusy v -> vTimers v1 = vTimers v -> Paused v -> Paused v1.
Proof. unfold Paused. intros -> ->. auto. Qed.

Lemma order_boot doc url : Order (view (boot doc url)).
Proof. split; simpl; auto. intros l []. Qed.

Lemma paused_boot doc url : Paused (view (boot doc url)).
Proof. intros H. discriminate. Qed.

Lemma order_dispatch item rest rand s :
  Order (view s) -> requestQueue s = item :: rest ->
  lastRequestTime s + MIN_REQUEST_INTERVAL <= clock s ->
  Order (view (dispatch item rest rand s)).
Proof.
  intros [A B C] Hq Hlast. unfold inOrder, apart, dispatchedAt in *.
  unfold MIN_REQUEST_INTERVAL in *. simpl in *. rewrite Hq in C.
  split; unfold inOrder, apart, dispatchedAt; simpl.
  - apply ascending_snoc; [exact A|]. intros x Hx. simpl.
    specialize (B x Hx). unfold MIN_REQUEST_INTERVAL. lia.
  - intros l Hl. apply in_app_iff in Hl as [Hl|[<-|[]]]; simpl; [|lia].
    specialize (B l Hl). lia.
  - rewrite List.map_app, <- app_assoc. exact C.
Qed.

Lemma order_drain rand queue :
  forall s, Order (view s) -> requestQueue s = queue ->
            Order (view (drain rand queue s))
            /\ Paused (view (drain rand queue s)).
Proof.
  assert (Hstop : forall s, Order (view s) ->
                            Order (view (set_isProcessingQueue false s))
                            /\ Paused (view (set_isProcessingQueue false s))).
  { intros s HO. split; [eapply order_same; [..|exact HO]; reflexivity|].
    intros H. discriminate. }
  induction queue as [|item rest IH]; intros s HO Hq; simpl; [auto|].
  destruct (activeRequests s <? MAX_CONCURRENT_REQUESTS); [|auto].
  destruct (clock s - lastRequestTime s <? MIN_REQUEST_INTERVAL) eqn:Ew.
  - split; [eapply order_same; [..|exact HO]; reflexivity|].
    intros _.
    exists {| tid := nextTimer s;
              due := clock s + Z.max 0 (MIN_REQUEST_INTERVAL
                                        - (clock s - lastRequestTime s));
              task := ResumeQueue |}.
    split; [|reflexivity]. simpl.
    rewrite List.filter_app. apply in_app_iff. right. simpl. left. reflexivity.
  - apply Z.ltb_ge in Ew. apply IH; [|reflexivity].
    apply order_dispatch; [exact HO|exact Hq|lia].
Qed.

Lemma order_dropTimer id s : Order (view s) -> Order (view (dropTimer id s)).
Proof. intros HO. eapply order_same; [..|exact HO]; reflexivity. Qed.

Lemma paused_dropTimer id tm s :
  TimerInv s -> timerOf id s = Some tm -> isResume tm = false ->
  Paused (view s) -> Paused (view (dropTimer id s)).
Proof.
  intros HT Hfind Hno HP Hb. destruct (HP Hb) as (tm1 & Hin & Hr).
  exists tm1. split; [|exact Hr]. rewrite view_dropTimer. simpl.
  apply List.filter_In. split; [exact Hin|].
  apply negb_true_iff, Nat.eqb_neq. intros Heq.
  apply timerOf_sound in Hfind as [Hin0 Hid].
  simpl in Hin. apply List.filter_In in Hin as [Hin _].
  assert (tm1 = tm).
  { apply (same_tid_same_timer (timers s)); [apply (ti_nodup _ HT)|auto..].
    congruence. }
  subst tm1. congruence.
Qed.

Lemma order_resume id tm rand s :
  Inv (view s) -> Order (view s) ->
  timerOf id s = Some tm -> task tm = ResumeQueue -> due tm <= clock s ->
  Order (view (resume rand (dropTimer id s)))
  /\ Paused (view (resume rand (dropTimer id s))).
Proof.
  intros HI HO Hfind Htask Hdue.
  apply timerOf_sound in Hfind as [Hin Hid].
  assert (Hq : In tm (vTimers (view s))).
  { simpl. apply List.filter_In. split; [exact Hin|].
    unfold isQueueTimer. rewrite Htask. reflexivity. }
  assert (Hr : isResume tm = true) by (unfold isResume; rewrite Htask; reflexivity).
  destruct (inv_pause _ HI tm Hq Hr) as (P1 & P2 & P3). simpl in P1, P3.
  unfold resume. change (requestQueue (dropTimer id s)) with (requestQueue s).
  destruct (requestQueue s) as [|item rest] eqn:Eq; [congruence|].
  apply order_drain; [|reflexivity].
  apply order_dispatch; [apply order_dropTimer; exact HO|exact Eq|simpl; lia].
Qed.

Lemma fine_processRequestQueue rand s :
  Order (view s) -> Paused (view s) ->
  Order (view (processRequestQueue rand s))
  /\ Paused (view (processRequestQueue rand s)).
Proof.
  intros HO HP. unfold processRequestQueue.
  destruct (isProcessingQueue s || _); [auto|].
  destruct (_ && _).
  { rewrite view_setTimeout_other by reflexivity. auto. }
  apply order_drain; [|reflexivity].
  eapply order_same; [..|exact HO]; destruct (_ >? _); reflexivity.
Qed.

Lemma order_unlisten cb s : Order (view s) -> Order (view (unlisten cb s)).
Proof.
  intros [A B C]. unfold inOrder in *. simpl in *.
  split; unfold inOrder; simpl.
  - apply ascending_filter. exact A.
  - intros l Hl. apply List.filter_In in Hl as [Hl _]. auto.
  - apply ascending_app in C as (C1 & C2 & C3). apply ascending_app.
    split; [apply ascending_map_filter; exact C1|]. split; [exact C2|].
    intros x y Hx Hy. apply C3; [|exact Hy].
    apply in_map_iff in Hx as (l & <- & Hl).
    apply List.filter_In in Hl as [Hl _]. apply in_map. exact Hl.
Qed.

Lemma fine_settle cb v s :
  Order (view s) -> Paused (view s) ->
  Order (view (settle cb v s)) /\ Paused (view (settle cb v s)).
Proof.
  intros HO HP. rewrite view_settle. destruct (settled s !! cb); [auto|].
  split; [eapply order_same; [..|exact HO]; reflexivity|].
  eapply paused_same; [..|exact HP]; reflexivity.
Qed.

Lemma fine_onTimeout name cb s :
  Order (view s) -> Paused (view s) ->
  Order (view (onTimeout name cb s)) /\ Paused (view (onTimeout name cb s)).
Proof.
  intros HO HP. unfold onTimeout. apply fine_settle;
    rewrite view_saveCacheEntry; [apply order_unlisten; exact HO|].
  eapply paused_same; [..|exact HP]; reflexivity.
Qed.

Lemma fine_onResponse l answer s :
  Order (view s) -> Paused (view s) ->
  Order (view (onResponse l answer s)) /\ Paused (view (onResponse l answer s)).
Proof.
  intros HO HP. unfold onResponse. apply fine_settle;
    rewrite view_saveCacheEntry; [apply order_unlisten; exact HO|].
  eapply paused_same; [..|exact HP]; reflexivity.
Qed.

Lemma fine_receive fromWindow m s :
  Order (view s) -> Paused (view s) ->
  Order (view (receive fromWindow m s)) /\ Paused (view (receive fromWindow m s)).
Proof.
  intros HO HP. unfold receive. destruct fromWindow; simpl; [|auto].
  destruct m; auto.
  - apply (fold_left_keeps (fun st => Order (view st) /\ Paused (view st)));
      [|auto].
    intros l st [H1 H2]. apply fine_onResponse; assumption.
  - destruct (booted s); auto.
Qed.

Lemma fine_getUserLocation name rand s :
  Inv (view s) -> Order (view s) -> Paused (view s) ->
  Order (view (fst (getUserLocation name rand s)))
  /\ Paused (view (fst (getUserLocation name rand s))).
Proof.
  intros HI HO HP. unfold getUserLocation.
  destruct (locationCache s !! name); [auto|]. simpl.
  apply fine_processRequestQueue.
  - destruct HO as [A B C]. unfold inOrder in *. simpl in *.
    split; unfold inOrder; simpl; auto.
    rewrite List.map_app, app_assoc. simpl. apply ascending_snoc; [exact C|].
    intros x Hx. apply (inv_fresh _ HI). unfold pending. simpl.
    apply in_app_iff. apply in_app_iff in Hx. tauto.
  - eapply paused_same; [..|exact HP]; reflexivity.
Qed.

Lemma fine_addFlagToUsername uid name rand s :
  Inv (view s) -> Order (view s) -> Paused (view s) ->
  Order (view (addFlagToUsername uid name rand s))
  /\ Paused (view (addFlagToUsername uid name rand s)).
Proof.
  intros HI HO HP. unfold addFlagToUsername.
  destruct (byUid uid (page s)); [|auto].
  destruct (isDone _); [auto|].
  match goal with
  | |- context [getUserLocation name rand ?s1] =>
      pose proof (fine_getUserLocation name rand s1 HI HO HP) as H1;
        destruct (getUserLocation name rand s1) as [s2 [v|cb]]
  end; exact H1.
Qed.

Lemma fine_processUsernames rand s :
  Inv (view s) -> Order (view s) -> Paused (view s) ->
  Order (view (processUsernames rand s))
  /\ Paused (view (processUsernames rand s)).
Proof.
  intros HI HO HP. unfold processUsernames.
  assert (H : Inv (view (List.fold_left (scanContainer rand)
                                        (containers (page s)) s))
              /\ Order (view (List.fold_left (scanContainer rand)
                                             (containers (page s)) s))
              /\ Paused (view (List.fold_left (scanContainer rand)
                                              (containers (page s)) s))).
  { apply (fold_left_keeps
             (fun st => Inv (view st) /\ Order (view st) /\ Paused (view st)));
      [|auto].
    intros uid st (H1 & H2 & H3). unfold scanContainer.
    destruct (byUid uid (page st)); [|auto].
    destruct (extractUsername _); [|auto].
    destruct (wantsFlag _); [|auto].
    split; [apply inv_addFlagToUsername; exact H1|].
    apply fine_addFlagToUsername; assumption. }
  tauto.
Qed.

Lemma view_init result s : view (init result s) = view s.
Proof.
  unfold init. rewrite view_setTimeout_other by reflexivity.
  change (view (setTimeout CallProcessUsernames 2000
                  (set_booted true (loadCache result s))) = view s).
  rewrite view_setTimeout_other by reflexivity.
  change (view (loadCache result s) = view s). apply view_loadCache.
Qed.

Lemma fine_fire id tm rand s :
  Inv (view s) -> TimerInv s -> Order (view s) -> Paused (view s) ->
  timerOf id s = Some tm -> due tm <= clock s ->
  Order (view (fire tm rand (dropTimer id s)))
  /\ Paused (view (fire tm rand (dropTimer id s))).
Proof.
  intros HI HT HO HP Hfind Hdue.
  pose proof (order_dropTimer id s HO) as HO1.
  unfold fire. destruct (task tm) eqn:Htask.
  - apply fine_processRequestQueue; [exact HO1|].
    eapply paused_dropTimer; eauto. unfold isResume. rewrite Htask. reflexivity.
  - eapply order_resume; eauto.
  - apply fine_onTimeout; [exact HO1|].
    eapply paused_dropTimer; eauto. unfold isResume. rewrite Htask. reflexivity.
  - rewrite view_saveCache. split; [exact HO1|].
    eapply paused_dropTimer; eauto. unfold isResume. rewrite Htask. reflexivity.
  - rewrite view_saveCache.
    match goal with
    | |- Order (view ?s1) /\ _ =>
        assert (Hv : view s1 = view (dropTimer id s))
    end.
    { apply view_eq; [reflexivity|]. simpl. apply filter_snoc_other. reflexivity. }
    rewrite Hv. split; [exact HO1|].
    eapply paused_dropTimer; eauto. unfold isResume. rewrite Htask. reflexivity.
  - apply fine_processUsernames; [apply inv_dropTimer; exact HI|exact HO1|].
    eapply paused_dropTimer; eauto. unfold isResume. rewrite Htask. reflexivity.
Qed.

Lemma fine_step now rand e s s1 :
  Inv (view s) -> TimerInv s -> Order (view s) -> Paused (view s) ->
  step now rand e s = Some s1 ->
  Order (view s1) /\ Paused (view s1).
Proof.
  intros HI HT HO HP. unfold step.
  destruct (now <? clock s) eqn:En; [discriminate|]. apply Z.ltb_ge in En.
  pose proof (inv_set_clock now s En HI) as HI0.
  assert (HT0 : TimerInv (set_clock now s)) by (destruct HT; split; assumption).
  assert (HO0 : Order (view (set_clock now s)))
    by (eapply order_same; [..|exact HO]; reflexivity).
  assert (HP0 : Paused (view (set_clock now s)))
    by (eapply paused_same; [..|exact HP]; reflexivity).
  destruct e as [result|id|fromWindow m|ok|doc added url|url1].
  - destruct (booted _); [discriminate|]. intros [= <-].
    rewrite view_notify, view_runJobs, view_init. auto.
  - destruct (timerOf id (set_clock now s)) as [tm|] eqn:Ef; [|discriminate].
    destruct (now <? due tm) eqn:Ed; [discriminate|]. apply Z.ltb_ge in Ed.
    intros [= <-]. rewrite view_notify, view_runJobs. eapply fine_fire; eauto.
  - intros [= <-]. rewrite view_notify, view_runJobs. apply fine_receive; assumption.
  - destruct (writing (set_clock now s)) as [|w rest]; [discriminate|].
    intros [= <-]. rewrite view_written. auto.
  - intros [= <-]. rewrite view_mutated. auto.
  - intros [= <-]. auto.
Qed.

(** Every state the script reaches keeps the order of the lookups, and
    has a pause pending whenever the flag of the loop is set. *)
Lemma fine_run trace :
  forall s s1,
    Inv (view s) -> TimerInv s -> Order (view s) -> Paused (view s) ->
    run trace s = Some s1 ->
    Order (view s1) /\ Paused (view s1).
Proof.
  induction trace as [|[[now rand] e] trace IH]; simpl;
    intros s s1 HI HT HO HP Hrun.
  - injection Hrun as <-. auto.
  - destruct (step now rand e s) as [s2|] eqn:Es; [|discriminate].
    destruct (fine_step _ _ _ _ _ HI HT HO HP Es) as [HO2 HP2].
    eapply IH; [| | | |exact Hrun]; auto.
    + eapply inv_step; eauto.
    + eapply timerInv_step; eauto.
Qed.

Lemma fine_reached doc url trace s :
  run trace (boot doc url) = Some s ->
  Order (view s) /\ Paused (view s).
Proof.
  apply fine_run;
    [apply inv_boot|apply timerInv_boot|apply order_boot|apply paused_boot].
Qed.

End OrderInv.

(** ** The request queue: what the order gives *)

Module QueueOrder.

Import Dom Scan Content Terms Lines Frames QueueView QueueInv Settlements.
Import TimerFacts OrderInv Sample.

(** Two registered handlers wait for different requests. *)
Lemma apart_same_request (ls : list Listener) a b :
  Ascending apart ls -> In a ls -> In b ls ->
  forRequest a = forRequest b -> a = b.
Proof.
  unfold apart, dispatchedAt, MIN_REQUEST_INTERVAL.
  induction ls as [|x ls IH]; simpl; [intros _ []|].
  intros [Hx Hl] Ha Hb Heq.
  destruct Ha as [<-|Ha], Hb as [<-|Hb]; auto.
  - specialize (Hx b Hb). rewrite Heq in Hx. lia.
  - specialize (Hx a Ha). rewrite Heq in Hx. lia.
Qed.

Lemma filter_none {A} (f : A -> bool) (l : list A) :
  (forall x, In x l -> f x = false) -> List.filter f l = [].
Proof.
  induction l as [|x l IH]; simpl; intros H; [reflexivity|].
  rewrite (H x) by auto. apply IH. auto.
Qed.

Lemma one_match name rid (ls : list Listener) :
  Ascending apart ls ->
  (List.length (List.filter (matches name rid) ls) <= 1)%nat.
Proof.
  induction ls as [|x ls IH]; simpl; [lia|]. intros [Hx Hl].
  destruct (matches name rid x) eqn:Em; [|auto].
  rewrite filter_none; [simpl; lia|].
  intros y Hy. destruct (matches name rid y) eqn:Ey; [|reflexivity].
  exfalso. unfold matches in Em, Ey.
  apply andb_true_iff in Em as [_ Em]. apply andb_true_iff in Ey as [_ Ey].
  apply bool_decide_eq_true_1 in Em, Ey.
  specialize (Hx y Hy). unfold apart, dispatchedAt, MIN_REQUEST_INTERVAL in Hx.
  rewrite Em, Ey in Hx. lia.
Qed.

(** X10. In every state the script reaches, the handlers registered wait
    for requests with different identifiers, so a response is taken by
    one handler at most. *)
Theorem response_reaches_one_handler (doc : list Node) (url : string)
        (trace : list Tick) (s : State) (name : string) (rid : RequestId) :
  run trace (boot doc url) = Some s ->
  (List.length (List.filter (matches name rid) (listeners s)) <= 1)%nat
  /\ forall a b, In a (listeners s) -> In b (listeners s) ->
                 forRequest a = forRequest b -> a = b.
Proof.
  intros Hrun. destruct (fine_reached doc url trace s Hrun) as [HO _].
  pose proof (ord_apart _ HO) as A. simpl in A. split.
  - apply one_match. exact A.
  - intros a b. apply apart_same_request. exact A.
Qed.

Lemma response_reaches_one_handler_witness :
  run firstScan (boot twoCells home) = Some (after firstScan twoCells)
  /\ (List.length (List.filter (matches "alice" ((t0 + 2000)%Z, 7%N))
                               (listeners (after firstScan twoCells))) <= 1)%nat.
Proof.
  refine (conj _ _); [vm_compute; reflexivity|].
  refine (proj1 (response_reaches_one_handler
                   twoCells home firstScan (after firstScan twoCells)
                   "alice" (t0 + 2000, 7%N) _)).
  vm_compute. reflexivity.
Defined.

(** X11. The lookups are served in the order in which they were asked:
    in every state the script reaches, the promises of the requests
    under way followed by those of the queue are in the order in which
    [getUserLocation] made them, and the requests under way were
    dispatched in that order, none after the last dispatch recorded. *)
Theorem lookups_keep_their_order (doc : list Node) (url : string)
        (trace : list Tick) (s : State) :
  run trace (boot doc url) = Some s ->
  Ascending lt (List.map forCallback (listeners s)
                ++ List.map callback (requestQueue s))
  /\ Ascending apart (listeners s)
  /\ forall l, In l (listeners s) -> dispatchedAt l <= lastRequestTime s.
Proof.
  intros Hrun. destruct (fine_reached doc url trace s Hrun) as [[A B C] _].
  auto.
Qed.

Lemma lookups_keep_their_order_witness :
  run firstScan (boot twoCells home) = Some (after firstScan twoCells)
  /\ List.map forCallback (listeners (after firstScan twoCells)) = [0%nat]
  /\ List.map callback (requestQueue (after firstScan twoCells)) = [1%nat]
  /\ Ascending lt (List.map forCallback (listeners (after firstScan twoCells))
                   ++ List.map callback (requestQueue (after firstScan twoCells))).
Proof.
  refine (conj _ _); [vm_compute; reflexivity|].
  refine (conj _ _); [vm_compute; reflexivity|].
  refine (conj _ _); [vm_compute; reflexivity|].
  refine (proj1 (lookups_keep_their_order
                   twoCells home firstScan (after firstScan twoCells) _)).
  vm_compute. reflexivity.
Defined.

(** Right after a dispatch the loop dispatches nothing more. *)
Lemma drain_waits rand queue s :
  lastRequestTime s = clock s ->
  posted (drain rand queue s) = posted s
  /\ requestQueue (drain rand queue s) = requestQueue s
  /\ lastRequestTime (drain rand queue s) = lastRequestTime s.
Proof.
  intros H. destruct queue as [|item rest]; simpl; [auto|].
  destruct (activeRequests s <? MAX_CONCURRENT_REQUESTS); [|auto].
  rewrite H, Z.sub_diag. simpl. auto.
Qed.

(** X12. The loop of [processRequestQueue] is never left stuck: in every
    state the script reaches in which [isProcessingQueue] is set, a
    timer that takes the loop up again is pending and the queue is not
    empty; and when that timer fires the head of the queue is
    dispatched at once, whatever the rate-limit reset time is. *)
Theorem pause_ends_in_dispatch (doc : list Node) (url : string)
        (trace : list Tick) (s : State) :
  run trace (boot doc url) = Some s ->
  isProcessingQueue s = true ->
  exists tm item rest,
    timerOf (tid tm) s = Some tm
    /\ task tm = ResumeQueue
    /\ requestQueue s = item :: rest
    /\ forall now rand,
        clock s <= now -> due tm <= now ->
        exists s1,
          step now rand (Fire (tid tm)) s = Some s1
          /\ posted s1
             = (now, FetchLocation (screenName item) (now, rand)) :: posted s
          /\ requestQueue s1 = rest
          /\ lastRequestTime s1 = now.
Proof.
  intros Hrun Hbusy.
  destruct (fine_reached doc url trace s Hrun) as [_ HP].
  pose proof (inv_run trace _ _ (inv_boot doc url) Hrun) as HI.
  pose proof (timerInv_run trace _ _ (timerInv_boot doc url) Hrun) as HT.
  destruct (HP Hbusy) as (tm & Hin & Hr).
  destruct (inv_pause _ HI tm Hin Hr) as (_ & _ & Hq). simpl in Hq.
  simpl in Hin. apply List.filter_In in Hin as [Hin _].
  pose proof (timerOf_found s tm HT Hin) as Hfind.
  assert (Htask : task tm = ResumeQueue).
  { unfold isResume in Hr. destruct (task tm); try discriminate. reflexivity. }
  destruct (requestQueue s) as [|item rest] eqn:Eq; [congruence|].
  exists tm, item, rest. split; [exact Hfind|]. split; [exact Htask|].
  split; [reflexivity|]. intros now rand Hclock Hdue.
  set (s0 := dropTimer (tid tm) (set_clock now s)).
  assert (Hstep : step now rand (Fire (tid tm)) s
                  = Some (notify (nextUid s)
                            (runJobs (drain rand rest
                                            (dispatch item rest rand s0))))).
  { unfold step. destruct (now <? clock s) eqn:E; [apply Z.ltb_lt in E; lia|].
    change (timerOf (tid tm) (set_clock now s)) with (timerOf (tid tm) s).
    rewrite Hfind.
    destruct (now <? due tm) eqn:E2; [apply Z.ltb_lt in E2; lia|].
    unfold fire. rewrite Htask. unfold resume.
    change (requestQueue (dropTimer (tid tm) (set_clock now s)))
      with (requestQueue s).
    rewrite Eq. reflexivity. }
  eexists. split; [exact Hstep|].
  pose proof (runJobs_queuePart (drain rand rest (dispatch item rest rand s0)))
    as Ej.
  unfold queuePart in Ej.
  injection Ej as Ej1 _ Ej2 _ _ _ _ _ Ej3 _ _.
  pose proof (notify_queuePart
                (nextUid s)
                (runJobs (drain rand rest (dispatch item rest rand s0))))
    as En.
  unfold queuePart in En.
  injection En as En1 _ En2 _ _ _ _ _ En3 _ _.
  destruct (drain_waits rand rest (dispatch item rest rand s0)) as (D1 & D2 & D3);
    [reflexivity|].
  rewrite En1, En2, En3, Ej1, Ej2, Ej3, D1, D2, D3. repeat split.
Qed.

Lemma pause_ends_in_dispatch_witness :
  run firstScan (boot twoCells home) = Some (after firstScan twoCells)
  /\ isProcessingQueue (after firstScan twoCells) = true
  /\ exists tm item rest,
      timerOf (tid tm) (after firstScan twoCells) = Some tm
      /\ task tm = ResumeQueue
      /\ requestQueue (after firstScan twoCells) = item :: rest.
Proof.
  refine (conj _ _); [vm_compute; reflexivity|].
  refine (conj _ _); [vm_compute; reflexivity|].
  refine (match pause_ends_in_dispatch
                  twoCells home firstScan (after firstScan twoCells) _ _ with
          | ex_intro _ tm (ex_intro _ item (ex_intro _ rest
              (conj H1 (conj H2 (conj H3 _))))) =>
              ex_intro _ tm (ex_intro _ item (ex_intro _ rest
                (conj H1 (conj H2 H3))))
          end).
  - vm_compute. reflexivity.
  - vm_compute. reflexivity.
Defined.

Lemma onTimeout_listeners name cb s :
  listeners (onTimeout name cb s) = without cb (listeners s).
Proof.
  unfold onTimeout.
  change (vListeners (view (settle cb None (saveCacheEntry name None
                                              (unlisten cb s))))
          = without cb (listeners s)).
  rewrite view_settle. destruct (settled _ !! _); simpl;
    change (vListeners (view (saveCacheEntry name None (unlisten cb s)))
            = without cb (listeners s));
    rewrite view_saveCacheEntry; reflexivity.
Qed.

(** X13. A response that comes after the time-out of its request is
    ignored: once the timer of a request under way has fired, the
    response to that request finds no handler and changes nothing. *)
Theorem late_response_is_ignored (doc : list Node) (url : string)
        (trace : list Tick) (s s1 : State) (l : Listener) (id : nat)
        (tm : Timer) (now : Z) (rand : N) (answer : option string) :
  run trace (boot doc url) = Some s ->
  In l (listeners s) ->
  timerOf id s = Some tm ->
  task tm = RequestTimeout (forName l) (forRequest l) (forCallback l) ->
  step now rand (Fire id) s = Some s1 ->
  receive true (LocationResponse (forName l) answer (forRequest l)) s1 = s1.
Proof.
  intros Hrun Hl Hfind Htask Hstep.
  destruct (fine_reached doc url trace s Hrun) as [HO _].
  pose proof (ord_apart _ HO) as A. simpl in A.
  unfold step in Hstep. destruct (now <? clock s); [discriminate|].
  change (timerOf id (set_clock now s)) with (timerOf id s) in Hstep.
  rewrite Hfind in Hstep. destruct (now <? due tm); [discriminate|].
  injection Hstep as <-. unfold fire. rewrite Htask.
  set (s2 := onTimeout (forName l) (forCallback l)
                       (dropTimer id (set_clock now s))).
  assert (Hls : listeners (notify (nextUid s) (runJobs s2))
                = without (forCallback l) (listeners s)).
  { pose proof (runJobs_queuePart s2) as Ej. unfold queuePart in Ej.
    injection Ej as _ _ _ _ _ Ej _ _ _ _ _.
    pose proof (notify_queuePart (nextUid s) (runJobs s2)) as En.
    unfold queuePart in En. injection En as _ _ _ _ _ En _ _ _ _ _.
    rewrite En, Ej. unfold s2.
    rewrite onTimeout_listeners. reflexivity. }
  change (nextUid (set_clock now s)) with (nextUid s).
  unfold receive. cbn [negb]. cbv iota. rewrite Hls, filter_none; [reflexivity|].
  intros l1 Hl1. unfold without in Hl1. apply List.filter_In in Hl1 as [Hl1 Hne].
  destruct (matches (forName l) (forRequest l) l1) eqn:Em; [|reflexivity].
  exfalso. unfold matches in Em. apply andb_true_iff in Em as [_ Em].
  apply bool_decide_eq_true_1 in Em.
  rewrite (apart_same_request (listeners s) l1 l A Hl1 Hl Em) in Hne.
  rewrite Nat.eqb_refl in Hne. discriminate.
Qed.

Lemma late_response_is_ignored_witness :
  run firstScan (boot twoCells home) = Some (after firstScan twoCells)
  /\ receive true (LocationResponse "alice" (Some "France") (t0 + 2000, 7%N))
             (after (firstScan ++ [(t0 + 12000, 0%N, Fire 3)]) twoCells)
     = after (firstScan ++ [(t0 + 12000, 0%N, Fire 3)]) twoCells.
Proof.
  refine (conj _ _); [vm_compute; reflexivity|].
  refine (late_response_is_ignored
            twoCells home firstScan (after firstScan twoCells)
            (after (firstScan ++ [(t0 + 12000, 0%N, Fire 3)]) twoCells)
            {| forName := "alice"; forRequest := (t0 + 2000, 7%N);
               forCallback := 0 |}
            3 {| tid := 3; due := t0 + 12000;
                 task := RequestTimeout "alice" (t0 + 2000, 7%N) 0 |}
            (t0 + 12000) 0%N (Some "France") _ _ _ _ _).
  - vm_compute. reflexivity.
  - vm_compute. left. reflexivity.
  - vm_compute. reflexivity.
  - reflexivity.
  - vm_compute. reflexivity.
Defined.

End QueueOrder.

(** ** The saves: invariants *)

Module SaverInv.

Import Dom Scan Content Terms Savers Frames CacheFacts QueueInv TimerFacts.

Lemma filter_through {A} (p q : A -> bool) (l : list A) :
  (forall x, p x = true -> q x = true) ->
  List.filter p (List.filter q l) = List.filter p l.
Proof.
  intros H. induction l as [|x l IH]; simpl; [reflexivity|].
  destruct (q x) eqn:Eq; simpl; [rewrite IH; reflexivity|].
  destruct (p x) eqn:Ep; [|exact IH]. rewrite (H x Ep) in Eq. discriminate.
Qed.

Lemma filter_through_in {A} (p q : A -> bool) (l : list A) :
  (forall x, In x l -> p x = true -> q x = true) ->
  List.filter p (List.filter q l) = List.filter p l.
Proof.
  induction l as [|x l IH]; simpl; intros H; [reflexivity|].
  destruct (q x) eqn:Eq; simpl; [rewrite IH by auto; reflexivity|].
  destruct (p x) eqn:Ep; [|apply IH; auto].
  rewrite (H x (or_introl eq_refl) Ep) in Eq. discriminate.
Qed.

Lemma debounce_of_savers (l : list Timer) :
  List.filter isDebounce l = List.filter isDebounce (List.filter isSaver l).
Proof.
  symmetry. apply filter_through. intros x H. unfold isSaver. rewrite H.
  reflexivity.
Qed.

Lemma periodic_of_savers (l : list Timer) :
  List.filter isPeriodic l = List.filter isPeriodic (List.filter isSaver l).
Proof.
  symmetry. apply filter_through. intros x H. unfold isSaver. rewrite H.
  apply orb_true_r.
Qed.

Lemma saving_same s s1 : savePart s1 = savePart s -> Saving s -> Saving s1.
Proof.
  unfold savePart. intros E [A B C D F].
  injection E as E1 E2 E3 E4 E5 E6.
  assert (Hd : List.filter isDebounce (timers s1)
               = List.filter isDebounce (timers s)).
  { rewrite (debounce_of_savers (timers s1)), E6, <- debounce_of_savers.
    reflexivity. }
  assert (Hp : List.filter isPeriodic (timers s1)
               = List.filter isPeriodic (timers s)).
  { rewrite (periodic_of_savers (timers s1)), E6, <- periodic_of_savers.
    reflexivity. }
  unfold debouncing in *.
  split; unfold debouncing; rewrite ?E1, ?E2, ?E3, ?E4, ?E5, ?Hd, ?Hp; auto.
  intros id Hid. destruct (B id Hid) as [B1 B2]. split; [exact B1|].
  intros tm Hin Htm. apply B2; [|exact Htm].
  assert (H : In tm (List.filter isDebounce (timers s1)))
    by (apply List.filter_In; auto).
  rewrite Hd in H. apply List.filter_In in H as [H _]. exact H.
Qed.

Lemma savePart_setTimeout t d s :
  isSaver {| tid := 0; due := 0; task := t |} = false ->
  savePart (setTimeout t d s) = savePart s.
Proof.
  intros H. unfold savePart. simpl. rewrite List.filter_app. simpl.
  unfold isSaver, isDebounce, isPeriodic in *. simpl in *. rewrite H.
  rewrite app_nil_r. reflexivity.
Qed.

Lemma savePart_observe added s : savePart (observe added s) = savePart s.
Proof.
  unfold observe.
  destruct added; simpl; destruct (String.eqb _ _);
    rewrite ?savePart_setTimeout by reflexivity; try reflexivity.
  - change (savePart (setTimeout CallProcessUsernames 500 s) = savePart s).
    apply savePart_setTimeout. reflexivity.
Qed.

Lemma savePart_finish uid name loc s :
  savePart (finish uid name loc s) = savePart s.
Proof.
  unfold finish. destruct (byUid uid (page s)); [|reflexivity].
  destruct (snd _); reflexivity.
Qed.

Lemma savePart_notify before s : savePart (notify before s) = savePart s.
Proof.
  unfold notify. destruct (_ && _); [apply savePart_observe|reflexivity].
Qed.

Lemma savePart_fold {A} (f : State -> A -> State) (l : list A) :
  (forall a s, savePart (f s a) = savePart s) ->
  forall s, savePart (List.fold_left f l s) = savePart s.
Proof.
  intros Hf. induction l as [|a l IH]; simpl; intros s; [reflexivity|].
  rewrite IH. apply Hf.
Qed.

Lemma savePart_runJobs s : savePart (runJobs s) = savePart s.
Proof.
  unfold runJobs. rewrite savePart_fold; [reflexivity|].
  intros j st. apply savePart_finish.
Qed.

Lemma savePart_settle cb v s : savePart (settle cb v s) = savePart s.
Proof.
  unfold settle. destruct (settled s !! cb); [reflexivity|].
  rewrite savePart_fold by (intros a st; apply savePart_finish).
  change (savePart (setTimeout CallProcessQueue 200
                      (set_activeRequests (activeRequests s - 1)
                         (set_settled (<[cb := Resolved v]> (settled s)) s)))
          = savePart s).
  rewrite savePart_setTimeout by reflexivity. reflexivity.
Qed.

Lemma savePart_dispatch item rest rand s :
  savePart (dispatch item rest rand s) = savePart s.
Proof.
  unfold dispatch, makeLocationRequest.
  rewrite savePart_setTimeout by reflexivity. reflexivity.
Qed.

Lemma savePart_drain rand queue :
  forall s, savePart (drain rand queue s) = savePart s.
Proof.
  induction queue as [|item rest IH]; intros s; simpl; [reflexivity|].
  destruct (activeRequests s <? MAX_CONCURRENT_REQUESTS); [|reflexivity].
  destruct (_ <? MIN_REQUEST_INTERVAL).
  - apply savePart_setTimeout. reflexivity.
  - rewrite IH. apply savePart_dispatch.
Qed.

Lemma savePart_resume rand s : savePart (resume rand s) = savePart s.
Proof.
  unfold resume. destruct (requestQueue s) as [|item rest]; [reflexivity|].
  rewrite savePart_drain. apply savePart_dispatch.
Qed.

Lemma savePart_processRequestQueue rand s :
  savePart (processRequestQueue rand s) = savePart s.
Proof.
  unfold processRequestQueue. destruct (_ || _); [reflexivity|].
  destruct (_ && _); [apply savePart_setTimeout; reflexivity|].
  rewrite savePart_drain. destruct (rateLimitResetTime s >? 0); reflexivity.
Qed.

Lemma savePart_getUserLocation name rand s :
  savePart (fst (getUserLocation name rand s)) = savePart s.
Proof.
  unfold getUserLocation. destruct (locationCache s !! name); [reflexivity|].
  simpl. rewrite savePart_processRequestQueue. reflexivity.
Qed.

Lemma savePart_addFlagToUsername uid name rand s :
  savePart (addFlagToUsername uid name rand s) = savePart s.
Proof.
  unfold addFlagToUsername. destruct (byUid uid (page s)); [|reflexivity].
  destruct (isDone _); [reflexivity|].
  match goal with
  | |- context [getUserLocation name rand ?s1] =>
      pose proof (savePart_getUserLocation name rand s1) as H;
        destruct (getUserLocation name rand s1) as [s2 [v|cb]]
  end; simpl in H; exact H.
Qed.

Lemma savePart_processUsernames rand s :
  savePart (processUsernames rand s) = savePart s.
Proof.
  unfold processUsernames. apply savePart_fold. intros uid st.
  unfold scanContainer. destruct (byUid uid (page st)); [|reflexivity].
  destruct (extractUsername _); [|reflexivity].
  destruct (wantsFlag _); [|reflexivity].
  apply savePart_addFlagToUsername.
Qed.

Lemma savePart_mutated doc added url s :
  savePart (mutated doc added url s) = savePart s.
Proof.
  unfold mutated. simpl. destruct (booted s); [|reflexivity].
  rewrite savePart_observe. reflexivity.
Qed.

Lemma saving_boot doc url : Saving (boot doc url).
Proof. split; simpl; auto; try discriminate. intros w []. Qed.

Lemma stamped_later now now1 b : now <= now1 -> Stamped now b -> Stamped now1 b.
Proof.
  intros Hle H k d Hk. destruct (H k d Hk) as (H1 & t & H2 & H3 & H4).
  split; [exact H1|]. exists t. repeat split; auto. lia.
Qed.

Lemma saving_set_clock now s :
  clock s <= now -> Saving s -> Saving (set_clock now s).
Proof.
  intros Hle [A B C D F]. split; simpl; auto.
  - intros b Hb. eapply stamped_later; eauto.
  - intros w Hw. eapply stamped_later; eauto.
Qed.

Lemma stamped_cacheObject now cache : Stamped now (cacheObject now cache).
Proof.
  intros k d Hk. rewrite cacheObject_lookup in Hk.
  destruct (String.eqb k "__proto__") eqn:E; [discriminate|].
  apply String.eqb_neq in E. split; [exact E|].
  destruct (cache !! k) as [v|]; [|discriminate]. injection Hk as <-.
  exists now. repeat split. lia.
Qed.

Lemma saving_saveCacheEntry name loc s :
  Saving s -> Saving (saveCacheEntry name loc s).
Proof.
  intros HS. unfold saveCacheEntry. simpl.
  destruct (saveTimeout s) as [id|] eqn:Es.
  - apply (saving_same s); [|exact HS]. unfold savePart. simpl.
    rewrite Es. reflexivity.
  - destruct HS as [A B C D F]. specialize (A Es). unfold debouncing in *.
    assert (Hd : List.filter isDebounce (timers s) = []).
    { destruct (List.filter isDebounce (timers s)); [reflexivity|].
      simpl in A. lia. }
    split; simpl; unfold debouncing; simpl; auto; try discriminate.
    + intros id [= <-]. rewrite List.filter_app, length_app. simpl. split; [lia|].
      intros tm Hin Htm. apply in_app_iff in Hin as [Hin|[<-|[]]]; [|reflexivity].
      exfalso. assert (H : In tm (List.filter isDebounce (timers s)))
        by (apply List.filter_In; auto).
      rewrite Hd in H. contradiction.
    + rewrite List.filter_app, length_app. simpl. rewrite C. lia.
Qed.

Lemma saving_unlisten cb s : Saving s -> Saving (unlisten cb s).
Proof. apply saving_same. reflexivity. Qed.

Lemma saving_onTimeout name cb s : Saving s -> Saving (onTimeout name cb s).
Proof.
  intros HS. unfold onTimeout.
  eapply saving_same; [apply savePart_settle|].
  apply saving_saveCacheEntry, saving_unlisten, HS.
Qed.

Lemma saving_onResponse l answer s : Saving s -> Saving (onResponse l answer s).
Proof.
  intros HS. unfold onResponse.
  eapply saving_same; [apply savePart_settle|].
  apply saving_saveCacheEntry, saving_unlisten, HS.
Qed.

Lemma saving_receive fromWindow m s : Saving s -> Saving (receive fromWindow m s).
Proof.
  intros HS. unfold receive. destruct fromWindow; simpl; [|exact HS].
  destruct m; try exact HS.
  - apply (fold_left_keeps Saving); [|exact HS].
    intros l st Hst. apply saving_onResponse. exact Hst.
  - destruct (booted s); [|exact HS]. eapply saving_same; [|exact HS].
    reflexivity.
Qed.

Lemma saving_init result s :
  booted s = false -> Saving s -> Saving (init result s).
Proof.
  intros Hb [A B C D F]. rewrite Hb in C. unfold debouncing in *.
  assert (Hl : forall r, saveTimeout (loadCache r s) = saveTimeout s
                         /\ timers (loadCache r s) = timers s
                         /\ writing (loadCache r s) = writing s
                         /\ storage (loadCache r s) = storage s
                         /\ clock (loadCache r s) = clock s).
  { intros [|[c|]|entries]; repeat split. }
  destruct (Hl result) as (L1 & L2 & L3 & L4 & L5).
  unfold init.
  split; simpl; unfold debouncing; simpl;
    rewrite ?L1, ?L2, ?L3, ?L4, ?L5, ?List.filter_app, ?length_app; simpl;
    rewrite ?Nat.add_0_r; auto.
  - intros id Hid. destruct (B id Hid) as [B1 B2]. split; [exact B1|].
    intros tm Hin Htm. rewrite !in_app_iff in Hin.
    destruct Hin as [[Hin|[<-|[]]]|[<-|[]]]; try discriminate. auto.
  - rewrite C. reflexivity.
Qed.

Lemma saving_written ok w rest s :
  writing s = w :: rest -> Saving s -> Saving (written ok w rest s).
Proof.
  intros Hw [A B C D F]. unfold debouncing in *. rewrite Hw in *.
  assert (Hrest : forall x, In x rest -> Stamped (clock s) (blob x))
    by (intros x Hx; apply F; right; exact Hx).
  assert (Hblob : Stamped (clock s) (blob w)) by (apply F; left; reflexivity).
  unfold written. destruct (debounced w) eqn:Ed.
  - simpl in A, B. rewrite Ed in A, B. simpl in A, B.
    assert (Hsome : exists id, saveTimeout s = Some id).
    { destruct (saveTimeout s) as [id|] eqn:Es; [eauto|].
      specialize (A eq_refl). lia. }
    destruct Hsome as (id & Hid). destruct (B id Hid) as [B1 _].
    assert (Hz : List.length (List.filter isDebounce (timers s)) = 0%nat
                 /\ List.length (List.filter debounced rest) = 0%nat) by lia.
    destruct Hz as [Hz1 Hz2].
    destruct ok; split; simpl; unfold debouncing; simpl; auto;
      try discriminate; try lia.
    intros b [= <-]. exact Hblob.
  - simpl in A, B. rewrite Ed in A, B.
    destruct ok; split; simpl; unfold debouncing; simpl; auto.
    intros b [= <-]. exact Hblob.
Qed.

(** A timer that is not the one that fires stays. *)
Lemma dropTimer_others (p : Timer -> bool) id tm s :
  TimerInv s -> timerOf id s = Some tm -> p tm = false ->
  List.filter p (timers (dropTimer id s)) = List.filter p (timers s).
Proof.
  intros HT Hfind Hp. simpl. apply filter_through_in.
  intros x Hx Hpx. apply negb_true_iff, Nat.eqb_neq. intros Heq.
  apply timerOf_sound in Hfind as [Hin Hid].
  assert (x = tm).
  { apply (same_tid_same_timer (timers s)); [apply (ti_nodup _ HT)|auto..].
    congruence. }
  subst x. congruence.
Qed.

(** The timer that fires goes. *)
Lemma dropTimer_mine (p : Timer -> bool) id tm s :
  timerOf id s = Some tm -> List.filter p (timers s) = [tm] ->
  List.filter p (timers (dropTimer id s)) = [].
Proof.
  intros Hfind Hone. simpl. rewrite filter_filter_comm, Hone. simpl.
  apply timerOf_sound in Hfind as [_ Hid]. rewrite Hid, Nat.eqb_refl.
  reflexivity.
Qed.

Lemma saving_dropTimer id tm s :
  TimerInv s -> timerOf id s = Some tm -> isSaver tm = false ->
  Saving s -> Saving (dropTimer id s).
Proof.
  intros HT Hfind Hno. apply saving_same. unfold savePart.
  rewrite (dropTimer_others isSaver id tm s HT Hfind Hno). reflexivity.
Qed.

Lemma saving_fire id tm rand s :
  TimerInv s -> Saving s -> timerOf id s = Some tm ->
  Saving (fire tm rand (dropTimer id s)).
Proof.
  intros HT HS Hfind. unfold fire. destruct (task tm) eqn:Htask.
  - eapply saving_same; [apply savePart_processRequestQueue|].
    eapply saving_dropTimer; eauto.
    unfold isSaver, isDebounce, isPeriodic. rewrite Htask. reflexivity.
  - eapply saving_same; [apply savePart_resume|].
    eapply saving_dropTimer; eauto.
    unfold isSaver, isDebounce, isPeriodic. rewrite Htask. reflexivity.
  - apply saving_onTimeout. eapply saving_dropTimer; eauto.
    unfold isSaver, isDebounce, isPeriodic. rewrite Htask. reflexivity.
  - (* the debounce timer *)
    assert (Hd : isDebounce tm = true) by (unfold isDebounce; rewrite Htask; reflexivity).
    assert (Hp : isPeriodic tm = false) by (unfold isPeriodic; rewrite Htask; reflexivity).
    pose proof (dropTimer_others isPeriodic id tm s HT Hfind Hp) as Hper.
    pose proof (timerOf_sound _ _ _ Hfind) as [Hin _].
    assert (Hmem : In tm (List.filter isDebounce (timers s)))
      by (apply List.filter_In; auto).
    destruct HS as [A B C D F]. unfold debouncing in *.
    assert (Hsome : exists i, saveTimeout s = Some i).
    { destruct (saveTimeout s) as [i|] eqn:Es; [eauto|].
      specialize (A eq_refl).
      destruct (List.filter isDebounce (timers s)); [contradiction|].
      simpl in A. lia. }
    destruct Hsome as (i & Hi). destruct (B i Hi) as [B1 B2].
    assert (Hone : List.filter isDebounce (timers s) = [tm]).
    { apply short_list_one; [lia|exact Hmem]. }
    assert (Hw : List.length (List.filter debounced (writing s)) = 0%nat).
    { rewrite Hone in B1. simpl in B1. lia. }
    pose proof (dropTimer_mine isDebounce id tm s Hfind Hone) as Hgone.
    split; unfold debouncing, saveCache.
    + simpl. rewrite Hi. discriminate.
    + intros j Hj. split.
      * change (timers (set_writing _ (dropTimer id s)))
          with (timers (dropTimer id s)).
        rewrite Hgone. simpl. rewrite List.filter_app, length_app. simpl. lia.
      * intros x Hx Hdx. exfalso.
        change (timers (set_writing _ (dropTimer id s)))
          with (timers (dropTimer id s)) in Hx.
        assert (H : In x (List.filter isDebounce (timers (dropTimer id s))))
          by (apply List.filter_In; auto).
        rewrite Hgone in H. contradiction.
    + change (timers (set_writing _ (dropTimer id s)))
        with (timers (dropTimer id s)).
      rewrite Hper. exact C.
    + exact D.
    + intros w Hw1. simpl in Hw1. apply in_app_iff in Hw1 as [Hw1|[<-|[]]];
        [apply F; exact Hw1|]. simpl. apply stamped_cacheObject.
  - (* the interval *)
    assert (Hd : isDebounce tm = false) by (unfold isDebounce; rewrite Htask; reflexivity).
    assert (Hp : isPeriodic tm = true) by (unfold isPeriodic; rewrite Htask; reflexivity).
    pose proof (dropTimer_others isDebounce id tm s HT Hfind Hd) as Hdeb.
    pose proof (timerOf_sound _ _ _ Hfind) as [Hin _].
    assert (Hmem : In tm (List.filter isPeriodic (timers s)))
      by (apply List.filter_In; auto).
    destruct HS as [A B C D F]. unfold debouncing in *.
    assert (Hb : booted s = true).
    { destruct (booted s); [reflexivity|].
      destruct (List.filter isPeriodic (timers s)); [contradiction|].
      simpl in C. lia. }
    assert (Hone : List.filter isPeriodic (timers s) = [tm]).
    { apply short_list_one; [rewrite C, Hb; lia|exact Hmem]. }
    pose proof (dropTimer_mine isPeriodic id tm s Hfind Hone) as Hgone.
    split; unfold debouncing, saveCache.
    + intros Hn. simpl in Hn. specialize (A Hn). simpl.
      rewrite !List.filter_app, !length_app. simpl.
      change (List.filter isDebounce
                (List.filter (fun tm0 => negb (Nat.eqb (tid tm0) id)) (timers s)))
        with (List.filter isDebounce (timers (dropTimer id s))).
      rewrite Hdeb. lia.
    + intros j Hj. simpl in Hj. destruct (B j Hj) as [B1 B2]. split.
      * simpl. rewrite !List.filter_app, !length_app. simpl.
        change (List.filter isDebounce
                  (List.filter (fun tm0 => negb (Nat.eqb (tid tm0) id)) (timers s)))
          with (List.filter isDebounce (timers (dropTimer id s))).
        rewrite Hdeb. lia.
      * intros x Hx Hdx. simpl in Hx.
        apply in_app_iff in Hx as [Hx|[<-|[]]]; [|discriminate].
        apply List.filter_In in Hx as [Hx _]. auto.
    + simpl. rewrite List.filter_app, length_app.
      change (List.filter isPeriodic
                (List.filter (fun tm0 => negb (Nat.eqb (tid tm0) id)) (timers s)))
        with (List.filter isPeriodic (timers (dropTimer id s))).
      rewrite Hgone, Hb. reflexivity.
    + exact D.
    + intros w Hw1. simpl in Hw1. apply in_app_iff in Hw1 as [Hw1|[<-|[]]];
        [apply F; exact Hw1|]. simpl. apply stamped_cacheObject.
  - eapply saving_same; [apply savePart_processUsernames|].
    eapply saving_dropTimer; eauto.
    unfold isSaver, isDebounce, isPeriodic. rewrite Htask. reflexivity.
Qed.

Lemma saving_step now rand e s s1 :
  TimerInv s -> Saving s -> step now rand e s = Some s1 -> Saving s1.
Proof.
  intros HT HS. unfold step.
  destruct (now <? clock s) eqn:En; [discriminate|]. apply Z.ltb_ge in En.
  pose proof (saving_set_clock now s En HS) as HS0.
  assert (HT0 : TimerInv (set_clock now s)) by (destruct HT; split; assumption).
  destruct e as [result|id|fromWindow m|ok|doc added url|url1].
  - destruct (booted (set_clock now s)) eqn:Eb; [discriminate|]. intros [= <-].
    eapply saving_same; [apply savePart_notify|].
    eapply saving_same; [apply savePart_runJobs|].
    apply saving_init; assumption.
  - destruct (timerOf id (set_clock now s)) as [tm|] eqn:Ef; [|discriminate].
    destruct (now <? due tm); [discriminate|]. intros [= <-].
    eapply saving_same; [apply savePart_notify|].
    eapply saving_same; [apply savePart_runJobs|].
    apply saving_fire; assumption.
  - intros [= <-]. eapply saving_same; [apply savePart_notify|].
    eapply saving_same; [apply savePart_runJobs|].
    apply saving_receive. exact HS0.
  - destruct (writing (set_clock now s)) as [|w rest] eqn:Ew; [discriminate|].
    intros [= <-]. apply saving_written; assumption.
  - intros [= <-]. eapply saving_same; [apply savePart_mutated|]. exact HS0.
  - intros [= <-]. eapply saving_same; [|exact HS0]. reflexivity.
Qed.

Lemma saving_run trace :
  forall s s1, TimerInv s -> Saving s -> run trace s = Some s1 -> Saving s1.
Proof.
  induction trace as [|[[now rand] e] trace IH]; simpl; intros s s1 HT HS Hrun.
  - injection Hrun as <-. exact HS.
  - destruct (step now rand e s) as [s2|] eqn:Es; [|discriminate].
    eapply IH; [| |exact Hrun].
    + eapply timerInv_step; eauto.
    + eapply saving_step; eauto.
Qed.

Lemma saving_reached doc url trace s :
  run trace (boot doc url) = Some s -> Saving s.
Proof. apply saving_run; [apply timerInv_boot|apply saving_boot]. Qed.

End SaverInv.

(** ** The saves: what the invariants give *)

Module SaveFacts.

Import Dom Scan Content Terms Sample Savers SaveRuns SaverInv.

(** X14. The debounce of [saveCacheEntry] keeps its books: in every
    state the script reaches, while [saveCache.timeout] is empty no
    debounced save is on its way, neither as a timer nor as a write;
    while it is set exactly one is, and a debounce timer that is pending
    is the one [saveCache.timeout] names. *)
Theorem debounce_bookkeeping (doc : list Node) (url : string)
        (trace : list Tick) (s : State) :
  run trace (boot doc url) = Some s ->
  (saveTimeout s = None -> debouncing s = 0%nat)
  /\ (forall id,
        saveTimeout s = Some id ->
        debouncing s = 1%nat
        /\ forall tm, In tm (timers s) -> isDebounce tm = true -> tid tm = id).
Proof.
  intros Hrun. pose proof (saving_reached doc url trace s Hrun) as HS.
  split; [apply (sv_idle _ HS)|apply (sv_armed _ HS)].
Qed.

Lemma debounce_bookkeeping_witness :
  run aliceCached (boot twoCells home) = Some (after aliceCached twoCells)
  /\ saveTimeout (after aliceCached twoCells) = Some 5%nat
  /\ debouncing (after aliceCached twoCells) = 1%nat.
Proof.
  refine (conj _ _); [vm_compute; reflexivity|].
  refine (conj _ _); [vm_compute; reflexivity|].
  refine (proj1 (proj2 (debounce_bookkeeping
                          twoCells home aliceCached
                          (after aliceCached twoCells) _) 5%nat _)).
  - vm_compute. reflexivity.
  - vm_compute. reflexivity.
Defined.

(** X15. The interval of [init] is set once: in every state the script
    reaches, exactly one timer of the periodic save is pending when
    [init] has run, and none before. *)
Theorem periodic_save_is_set_once (doc : list Node) (url : string)
        (trace : list Tick) (s : State) :
  run trace (boot doc url) = Some s ->
  (booted s = true ->
   List.length (List.filter isPeriodic (timers s)) = 1%nat)
  /\ (booted s = false ->
      List.length (List.filter isPeriodic (timers s)) = 0%nat).
Proof.
  intros Hrun.
  pose proof (sv_periodic _ (saving_reached doc url trace s Hrun)) as H.
  split; intros Hb; rewrite Hb in H; exact H.
Qed.

Lemma periodic_save_is_set_once_witness :
  run aliceSaved (boot twoCells home) = Some (after aliceSaved twoCells)
  /\ booted (after aliceSaved twoCells) = true
  /\ List.length (List.filter isPeriodic (timers (after aliceSaved twoCells)))
     = 1%nat.
Proof.
  refine (conj _ _); [vm_compute; reflexivity|].
  refine (conj _ _); [vm_compute; reflexivity|].
  refine (proj1 (periodic_save_is_set_once twoCells home aliceSaved
                                           (after aliceSaved twoCells) _) _).
  - vm_compute. reflexivity.
  - vm_compute. reflexivity.
Defined.

(** X16. What the script has written to the storage is stamped: in every
    state it reaches, every entry of the stored object has a [cachedAt]
    that is not in the future and an [expiry] thirty days after it, and
    there is no entry under [__proto__]. *)
Theorem stored_entries_are_stamped (doc : list Node) (url : string)
        (trace : list Tick) (s : State) (b : gmap string CacheData)
        (k : string) (d : CacheData) :
  run trace (boot doc url) = Some s ->
  storage s = Some b ->
  b !! k = Some d ->
  k <> "__proto__"
  /\ exists t, t <= clock s /\ cachedAt d = Some t
               /\ expiry d = Some (t + 2592000000).
Proof.
  intros Hrun Hb Hk.
  apply (sv_stored _ (saving_reached doc url trace s Hrun) b Hb k d Hk).
Qed.

Lemma stored_entries_are_stamped_witness :
  run aliceSaved (boot twoCells home) = Some (after aliceSaved twoCells)
  /\ storage (after aliceSaved twoCells)
     = Some {[ "alice" := {| location := None;
                             expiry := Some (t0 + 17000 + 2592000000);
                             cachedAt := Some (t0 + 17000) |} ]}
  /\ exists t, t <= clock (after aliceSaved twoCells)
               /\ Some (t0 + 17000) = Some t
               /\ Some (t0 + 17000 + 2592000000) = Some (t + 2592000000).
Proof.
  refine (conj _ _); [vm_compute; reflexivity|].
  refine (conj _ _); [vm_compute; reflexivity|].
  refine (proj2 (stored_entries_are_stamped
                   twoCells home aliceSaved (after aliceSaved twoCells)
                   {[ "alice" := {| location := None;
                                    expiry := Some (t0 + 17000 + 2592000000);
                                    cachedAt := Some (t0 + 17000) |} ]}
                   "alice"
                   {| location := None;
                      expiry := Some (t0 + 17000 + 2592000000);
                      cachedAt := Some (t0 + 17000) |} _ _ _)).
  - vm_compute. reflexivity.
  - vm_compute. reflexivity.
  - vm_compute. reflexivity.
Defined.

End SaveFacts.

(** ** The observers: navigation *)

Module WatchFacts.

Import Dom Scan Content Terms Watch Frames Sample.

(** After the observers have run, the address seen last is the present
    one. *)
Lemma observe_sees added s :
  lastUrl (observe added s) = href s
  /\ href (observe added s) = href s
  /\ booted (observe added s) = booted s
  /\ clock (observe added s) = clock s.
Proof.
  unfold observe. destruct added; simpl;
    destruct (String.eqb (href s) (lastUrl s)) eqn:E; simpl;
    repeat split; apply String.eqb_eq in E; congruence.
Qed.

(** A change of the nodes at the address seen last sets no scan when no
    node was added. *)
Lemma same_address_sets_no_scan s later rand page1 url :
  booted s = true -> clock s <= later -> lastUrl s = url ->
  exists s1,
    step later rand (Mutated page1 false url) s = Some s1
    /\ timers s1 = timers s /\ lastUrl s1 = url.
Proof.
  intros Hb Hc Hl. unfold step.
  destruct (later <? clock s) eqn:E; [apply Z.ltb_lt in E; lia|].
  eexists. split; [reflexivity|]. unfold mutated. simpl. rewrite Hb.
  unfold observe. simpl. rewrite Hl, String.eqb_refl. simpl.
  split; [reflexivity|exact Hl].
Qed.

(** X24. Once [init] has run, a change of address that comes without a
    change of the nodes sets no timer and leaves the address the
    navigation observer saw last as it is. The next change of the nodes
    shows the address to the observer: it sets the scan of two seconds
    later exactly when the address differs from the one seen last, and
    the address becomes the one seen last, so that a further change of
    the nodes at the same address sets no such scan. A change that
    added nodes sets the scan of half a second later besides. *)
Theorem navigation_rescans_once (s : State) (now : Z) (rand : N)
        (page1 : list Node) (added : bool) (url : string) :
  booted s = true ->
  clock s <= now ->
  (exists s1,
      step now rand (Navigated url) s = Some s1
      /\ href s1 = url /\ lastUrl s1 = lastUrl s /\ timers s1 = timers s)
  /\ exists s1,
      step now rand (Mutated page1 added url) s = Some s1
      /\ lastUrl s1 = url /\ href s1 = url
      /\ (added = false -> url = lastUrl s -> timers s1 = timers s)
      /\ (added = false -> url <> lastUrl s ->
          timers s1 = timers s ++ [rescan (nextTimer s) (now + 2000)])
      /\ (added = true -> url = lastUrl s ->
          timers s1 = timers s ++ [rescan (nextTimer s) (now + 500)])
      /\ (added = true -> url <> lastUrl s ->
          timers s1 = timers s ++ [rescan (nextTimer s) (now + 500);
                                   rescan (S (nextTimer s)) (now + 2000)])
      /\ (forall (later : Z) (rand2 : N) (page2 : list Node),
            now <= later ->
            exists s2,
              step later rand2 (Mutated page2 false url) s1 = Some s2
              /\ timers s2 = timers s1 /\ lastUrl s2 = url).
Proof.
  intros Hb Hnow.
  assert (E : (now <? clock s) = false) by (apply Z.ltb_ge; lia).
  split.
  { exists (navigated url (set_clock now s)). unfold step. rewrite E.
    repeat split. }
  exists (mutated page1 added url (set_clock now s)).
  split; [unfold step; rewrite E; reflexivity|].
  assert (Hm : mutated page1 added url (set_clock now s)
               = observe added (set_href url (set_page page1 (set_clock now s)))).
  { unfold mutated. simpl. rewrite Hb. reflexivity. }
  rewrite Hm.
  destruct (observe_sees added
              (set_href url (set_page page1 (set_clock now s))))
    as (H1 & H2 & H3 & H4).
  simpl in H1, H2, H3, H4.
  split; [exact H1|]. split; [exact H2|].
  assert (Hlast : forall later rand2 page2,
             now <= later ->
             exists s2,
               step later rand2 (Mutated page2 false url)
                    (observe added
                       (set_href url (set_page page1 (set_clock now s))))
               = Some s2
               /\ timers s2
                  = timers (observe added
                              (set_href url (set_page page1 (set_clock now s))))
               /\ lastUrl s2 = url).
  { intros later rand2 page2 Hlater. apply same_address_sets_no_scan.
    - rewrite H3. exact Hb.
    - rewrite H4. exact Hlater.
    - exact H1. }
  unfold observe.
  destruct added; simpl;
    destruct (String.eqb url (lastUrl s)) eqn:Eu; simpl;
    (apply String.eqb_eq in Eu || apply String.eqb_neq in Eu).
  all: split; [intros Ha Hu; first [discriminate Ha|contradiction|reflexivity]|].
  all: split; [intros Ha Hu; first [discriminate Ha|contradiction|reflexivity]|].
  all: split; [intros Ha Hu; first [discriminate Ha|contradiction|reflexivity]|].
  all: split; [intros Ha Hu;
               first [discriminate Ha|contradiction
                     |rewrite <- app_assoc; reflexivity]|].
  all: revert Hlast; unfold observe; simpl;
    try rewrite (proj2 (String.eqb_eq _ _) Eu);
    try rewrite (proj2 (String.eqb_neq _ _) Eu); simpl; intros Hlast;
    exact Hlast.
Qed.

Lemma navigation_rescans_once_witness :
  booted (after firstScan twoCells) = true
  /\ clock (after firstScan twoCells) <= t0 + 3000
  /\ exists s1,
      step (t0 + 3000) 0%N (Navigated "https://x.com/alice")
           (after firstScan twoCells) = Some s1
      /\ href s1 = "https://x.com/alice"
      /\ lastUrl s1 = lastUrl (after firstScan twoCells)
      /\ timers s1 = timers (after firstScan twoCells).
Proof.
  refine (conj _ _); [vm_compute; reflexivity|].
  refine (conj _ _); [vm_compute; discriminate|].
  refine (proj1 (navigation_rescans_once
                   (after firstScan twoCells)
                   (t0 + 3000) 0%N twoCells false "https://x.com/alice"
                   _ _)).
  - vm_compute. reflexivity.
  - vm_compute. discriminate.
Defined.

End WatchFacts.

(** ** The request queue: what a task posts *)

Module PostingInv.

Import Dom Scan Content Terms Posting Frames QueueView QueueInv.

Lemma adds_same rand s s1 :
  clock s1 = clock s -> posted s1 = posted s -> Adds rand s s1.
Proof.
  intros Hc Hp. split; [exact Hc|]. exists []. split; [exact Hp|].
  intros m [].
Qed.

Lemma adds_refl rand s : Adds rand s s.
Proof. apply adds_same; reflexivity. Qed.

Lemma adds_trans rand s1 s2 s3 :
  Adds rand s1 s2 -> Adds rand s2 s3 -> Adds rand s1 s3.
Proof.
  intros (C1 & n1 & P1 & F1) (C2 & n2 & P2 & F2). split; [congruence|].
  exists (n2 ++ n1). split; [rewrite P2, P1, app_assoc; reflexivity|].
  intros m Hm. apply in_app_iff in Hm as [Hm|Hm]; [|auto].
  rewrite <- C1. auto.
Qed.

Ltac same := apply adds_same; reflexivity.

Lemma adds_queuePart rand s s1 : queuePart s1 = queuePart s -> Adds rand s s1.
Proof.
  unfold queuePart. intros E. apply adds_same; congruence.
Qed.

Lemma adds_fold {A} rand (f : State -> A -> State) (l : list A) :
  (forall a s, Adds rand s (f s a)) ->
  forall s, Adds rand s (List.fold_left f l s).
Proof.
  intros Hf. induction l as [|a l IH]; simpl; intros s; [apply adds_refl|].
  eapply adds_trans; [apply Hf|apply IH].
Qed.

Lemma adds_runJobs rand s : Adds rand s (runJobs s).
Proof. apply adds_queuePart, runJobs_queuePart. Qed.

Lemma adds_notify rand before s : Adds rand s (notify before s).
Proof. apply adds_queuePart, notify_queuePart. Qed.

Lemma adds_saveCacheEntry rand name loc s : Adds rand s (saveCacheEntry name loc s).
Proof. unfold saveCacheEntry. simpl. destruct (saveTimeout s); same. Qed.

Lemma adds_settle rand cb v s : Adds rand s (settle cb v s).
Proof.
  unfold settle. destruct (settled s !! cb); [apply adds_refl|].
  eapply adds_trans;
    [|apply adds_fold; intros a st; apply adds_queuePart, finish_queuePart].
  same.
Qed.

Lemma adds_onResponse rand l answer s : Adds rand s (onResponse l answer s).
Proof.
  unfold onResponse.
  eapply adds_trans; [|apply adds_settle].
  eapply adds_trans; [|apply adds_saveCacheEntry]. same.
Qed.

Lemma adds_onTimeout rand name cb s : Adds rand s (onTimeout name cb s).
Proof.
  unfold onTimeout.
  eapply adds_trans; [|apply adds_settle].
  eapply adds_trans; [|apply adds_saveCacheEntry]. same.
Qed.

Lemma adds_receive rand fromWindow m s : Adds rand s (receive fromWindow m s).
Proof.
  unfold receive. destruct fromWindow; simpl; [|apply adds_refl].
  destruct m; try apply adds_refl.
  - apply adds_fold. intros l st. apply adds_onResponse.
  - destruct (booted s); [same|apply adds_refl].
Qed.

Lemma adds_dispatch rand item rest s : Adds rand s (dispatch item rest rand s).
Proof.
  split; [reflexivity|].
  exists [(clock s, FetchLocation (screenName item) (clock s, rand))].
  split; [reflexivity|]. intros m [<-|[]]. eauto.
Qed.

Lemma adds_drain rand queue : forall s, Adds rand s (drain rand queue s).
Proof.
  induction queue as [|item rest IH]; intros s; simpl; [same|].
  destruct (activeRequests s <? MAX_CONCURRENT_REQUESTS); [|same].
  destruct (_ <? MIN_REQUEST_INTERVAL); [same|].
  eapply adds_trans; [apply adds_dispatch|apply IH].
Qed.

Lemma adds_resume rand s : Adds rand s (resume rand s).
Proof.
  unfold resume. destruct (requestQueue s) as [|item rest]; [apply adds_refl|].
  eapply adds_trans; [apply adds_dispatch|apply adds_drain].
Qed.

Lemma adds_processRequestQueue rand s : Adds rand s (processRequestQueue rand s).
Proof.
  unfold processRequestQueue. destruct (_ || _); [apply adds_refl|].
  destruct (_ && _); [same|].
  eapply adds_trans; [|apply adds_drain].
  destruct (rateLimitResetTime s >? 0); same.
Qed.

Lemma adds_getUserLocation rand name s :
  Adds rand s (fst (getUserLocation name rand s)).
Proof.
  unfold getUserLocation. destruct (locationCache s !! name);
    [apply adds_refl|]. simpl.
  eapply adds_trans; [|apply adds_processRequestQueue]. same.
Qed.

Lemma adds_addFlagToUsername rand uid name s :
  Adds rand s (addFlagToUsername uid name rand s).
Proof.
  unfold addFlagToUsername. destruct (byUid uid (page s)); [|apply adds_refl].
  destruct (isDone _); [apply adds_refl|].
  match goal with
  | |- context [getUserLocation name rand ?s1] =>
      pose proof (adds_getUserLocation rand name s1) as H;
        destruct (getUserLocation name rand s1) as [s2 [v|cb]]
  end; simpl in H;
    (eapply adds_trans; [|same]);
    (eapply adds_trans; [|exact H]; same).
Qed.

Lemma adds_processUsernames rand s : Adds rand s (processUsernames rand s).
Proof.
  unfold processUsernames. apply adds_fold. intros uid st.
  unfold scanContainer. destruct (byUid uid (page st)); [|apply adds_refl].
  destruct (extractUsername _); [|apply adds_refl].
  destruct (wantsFlag _); [|apply adds_refl].
  apply adds_addFlagToUsername.
Qed.

Lemma adds_fire rand id tm s : Adds rand s (fire tm rand (dropTimer id s)).
Proof.
  unfold fire. destruct (task tm).
  - eapply adds_trans; [|apply adds_processRequestQueue]. same.
  - eapply adds_trans; [|apply adds_resume]. same.
  - eapply adds_trans; [|apply adds_onTimeout]. same.
  - same.
  - same.
  - eapply adds_trans; [|apply adds_processUsernames]. same.
Qed.

Lemma adds_step now rand e s s1 :
  step now rand e s = Some s1 -> Adds rand (set_clock now s) s1.
Proof.
  unfold step. destruct (now <? clock s); [discriminate|].
  destruct e as [result|id|fromWindow m|ok|doc added url|url1].
  - destruct (booted _); [discriminate|]. intros [= <-].
    eapply adds_trans; [|apply adds_notify].
    eapply adds_trans; [|apply adds_runJobs].
    unfold init. destruct result as [|[cached|]|entries]; same.
  - destruct (timerOf id (set_clock now s)) as [tm|]; [|discriminate].
    destruct (now <? due tm); [discriminate|]. intros [= <-].
    eapply adds_trans; [|apply adds_notify].
    eapply adds_trans; [|apply adds_runJobs]. apply adds_fire.
  - intros [= <-]. eapply adds_trans; [|apply adds_notify].
    eapply adds_trans; [|apply adds_runJobs].
    apply adds_receive.
  - destruct (writing (set_clock now s)) as [|w rest]; [discriminate|].
    intros [= <-]. unfold written. destruct ok, (debounced w); same.
  - intros [= <-]. apply adds_queuePart.
    unfold mutated. simpl. destruct (booted s); [|reflexivity].
    rewrite observe_queuePart. reflexivity.
  - intros [= <-]. apply adds_queuePart. reflexivity.
Qed.

End PostingInv.

(** ** The request queue: one step *)

Module QueueSteps.

Import Dom Scan Content Terms Posting Frames QueueView QueueInv PostingInv Sample.

(** X25. A task dispatches one request at most, even when two slots
    are free and the queue is long: the loop of [processRequestQueue]
    waits between two dispatches. The identifier of the request is the
    time of the task and the draw of [Math.random]. *)
Theorem one_dispatch_per_task (doc : list Node) (url : string)
        (trace : list Tick) (s s1 : State) (now : Z) (rand : N) (e : Event) :
  run trace (boot doc url) = Some s ->
  step now rand e s = Some s1 ->
  posted s1 = posted s
  \/ exists name,
      posted s1 = (now, FetchLocation name (now, rand)) :: posted s.
Proof.
  intros Hrun Hstep.
  pose proof (inv_run trace _ _ (inv_boot doc url) Hrun) as HI.
  pose proof (inv_step _ _ _ _ _ HI Hstep) as HI1.
  destruct (adds_step _ _ _ _ _ Hstep) as (_ & new & Hp & Hnew). simpl in Hp, Hnew.
  pose proof (inv_spaced _ HI1) as Hsp. simpl in Hsp. unfold dispatchTimes in Hsp.
  rewrite Hp in *. destruct new as [|m1 [|m2 new]].
  - left. reflexivity.
  - right. destruct (Hnew m1 (or_introl eq_refl)) as (name & ->).
    exists name. reflexivity.
  - exfalso.
    destruct (Hnew m1 (or_introl eq_refl)) as (n1 & ->).
    destruct (Hnew m2 (or_intror (or_introl eq_refl))) as (n2 & ->).
    simpl in Hsp. destruct Hsp as [Hsp _].
    unfold MIN_REQUEST_INTERVAL in Hsp. lia.
Qed.

Lemma one_dispatch_per_task_witness :
  run limited (boot twoCells home) = Some (after limited twoCells)
  /\ step (t0 + 4000) 9%N (Fire 4) (after limited twoCells)
     = Some (after (limited ++ pauseEnds) twoCells)
  /\ (posted (after (limited ++ pauseEnds) twoCells)
      = posted (after limited twoCells)
      \/ exists name,
          posted (after (limited ++ pauseEnds) twoCells)
          = (t0 + 4000, FetchLocation name (t0 + 4000, 9%N))
              :: posted (after limited twoCells)).
Proof.
  refine (conj _ _); [vm_compute; reflexivity|].
  refine (conj _ _); [vm_compute; reflexivity|].
  refine (one_dispatch_per_task
            twoCells home limited (after limited twoCells)
            (after (limited ++ pauseEnds) twoCells) (t0 + 4000) 9%N (Fire 4)
            _ _).
  - vm_compute. reflexivity.
  - vm_compute. reflexivity.
Defined.

(** X26. A lookup that finds the queue idle and a slot free, two
    seconds or more after the last dispatch and with no rate limit
    ahead, is dispatched by [getUserLocation] itself, before it
    returns: the request is posted, the queue is empty again and the
    flag of the loop is down. *)
Theorem idle_queue_dispatches_at_once (name : string) (rand : N) (s : State) :
  locationCache s !! name = None ->
  isProcessingQueue s = false ->
  requestQueue s = [] ->
  activeRequests s < MAX_CONCURRENT_REQUESTS ->
  lastRequestTime s + MIN_REQUEST_INTERVAL <= clock s ->
  rateLimitResetTime s <= 0 \/ rateLimitResetTime s <= clock s / 1000 ->
  snd (getUserLocation name rand s) = Promised (nextCallback s)
  /\ posted (fst (getUserLocation name rand s))
     = (clock s, FetchLocation name (clock s, rand)) :: posted s
  /\ listeners (fst (getUserLocation name rand s))
     = listeners s ++ [{| forName := name; forRequest := (clock s, rand);
                          forCallback := nextCallback s |}]
  /\ requestQueue (fst (getUserLocation name rand s)) = []
  /\ isProcessingQueue (fst (getUserLocation name rand s)) = false
  /\ activeRequests (fst (getUserLocation name rand s)) = activeRequests s + 1
  /\ lastRequestTime (fst (getUserLocation name rand s)) = clock s
  /\ rateLimitResetTime (fst (getUserLocation name rand s)) <= 0.
Proof.
  intros Hmiss Hidle Hq Ha Hl Hr.
  unfold getUserLocation. rewrite Hmiss. cbn [fst snd].
  split; [reflexivity|]. unfold processRequestQueue. simpl.
  rewrite Hidle, Hq. simpl.
  assert (Ht : (rateLimitResetTime s >? 0)
               && (clock s / 1000 <? rateLimitResetTime s) = false).
  { destruct (rateLimitResetTime s >? 0) eqn:E1; [|reflexivity]. simpl.
    apply Z.gtb_lt in E1. apply Z.ltb_ge. lia. }
  rewrite Ht.
  assert (Ea : (activeRequests s <? MAX_CONCURRENT_REQUESTS) = true)
    by (apply Z.ltb_lt; exact Ha).
  assert (Ew : (clock s - lastRequestTime s <? MIN_REQUEST_INTERVAL) = false)
    by (apply Z.ltb_ge; lia).
  destruct (rateLimitResetTime s >? 0) eqn:E1; simpl; rewrite Ea, Ew; simpl;
    repeat split; try reflexivity; lia.
Qed.

Lemma idle_queue_dispatches_at_once_witness :
  locationCache (set_clock t0 (boot twoCells home)) !! "alice" = None
  /\ posted (fst (getUserLocation "alice" 7%N (set_clock t0 (boot twoCells home))))
     = [(t0, FetchLocation "alice" (t0, 7%N))].
Proof.
  refine (conj _ _); [vm_compute; reflexivity|].
  refine (proj1 (proj2 (idle_queue_dispatches_at_once
                          "alice" 7%N (set_clock t0 (boot twoCells home))
                          _ _ _ _ _ _))).
  - vm_compute. reflexivity.
  - reflexivity.
  - reflexivity.
  - vm_compute. reflexivity.
  - vm_compute. discriminate.
  - left. vm_compute. discriminate.
Defined.

End QueueSteps.

(** ** The page script: headers and replies *)

Module PageFacts.

Import Content PageScript.

Lemma copyEntries_lookup (entries : gmap string string) (k : string) :
  copyEntries entries !! k =
  if String.eqb k "__proto__" then None else entries !! k.
Proof.
  unfold copyEntries. revert k.
  apply (map_fold_weak_ind
           (fun (r : HeaderObj) (m : gmap string string) =>
              forall k : string,
                r !! k = if String.eqb k "__proto__" then None else m !! k)).
  - intros k. rewrite !lookup_empty. destruct (String.eqb k "__proto__"); reflexivity.
  - intros i x m r Hi IH k. unfold setHeader.
    destruct (String.eqb i "__proto__") eqn:Ei.
    + rewrite IH. destruct (String.eqb k "__proto__") eqn:Ek; [reflexivity|].
      rewrite lookup_insert_ne; [reflexivity|].
      intros ->. congruence.
    + destruct (decide (i = k)) as [->|Hne].
      * rewrite !lookup_insert_eq, Ei. reflexivity.
      * rewrite !lookup_insert_ne by exact Hne. apply IH.
Qed.

Lemma copyEntries_clean (entries : gmap string string) :
  entries !! "__proto__" = None -> copyEntries entries = entries.
Proof.
  intros H. apply map_eq. intros k. rewrite copyEntries_lookup.
  destruct (String.eqb k "__proto__") eqn:E; [|reflexivity].
  apply String.eqb_eq in E. subst k. symmetry. exact H.
Qed.

Lemma clean_start : Clean start.
Proof. intros h H. discriminate. Qed.

Lemma clean_captureHeaders headers p :
  Clean p -> Clean (captureHeaders headers p).
Proof.
  intros Hp. destruct headers as [|entries|entries|]; simpl; [exact Hp| | |];
    intros h [= <-]; try apply lookup_empty;
    rewrite copyEntries_lookup; reflexivity.
Qed.

Lemma clean_pageStep e p : Clean p -> Clean (pageStep p e).
Proof.
  intros Hp. destruct e as [url headers|x| |now name rid variables fetched];
    cbn [pageStep].
  - unfold fetchHook. destruct url as [u|]; [|exact Hp].
    destruct (Js.includes u GRAPHQL); [|exact Hp].
    apply clean_captureHeaders, Hp.
  - unfold xhrSend. destruct (_url x) as [u| |]; [|exact Hp|exact Hp].
    destruct (Js.includes u GRAPHQL); [|exact Hp].
    intros h [= <-]. rewrite copyEntries_lookup. reflexivity.
  - unfold useDefaults. destruct (headersReady p); [exact Hp|].
    intros h [= <-]. reflexivity.
  - unfold onFetchLocation. destruct variables as [v|]; [|exact Hp].
    cbn [fst]. unfold fetchHook. destruct (Js.includes _ GRAPHQL); [|exact Hp].
    apply clean_captureHeaders, Hp.
Qed.

Lemma clean_pageRun events : forall p, Clean p -> Clean (pageRun events p).
Proof.
  unfold pageRun. induction events as [|e events IH]; simpl; intros p Hp;
    [exact Hp|].
  apply IH, clean_pageStep, Hp.
Qed.

Lemma endpoint_is_graphql v :
  Js.includes (ENDPOINT +:+ "?variables=" +:+ v) GRAPHQL = true.
Proof. vm_compute. reflexivity. Qed.

(** X17. The handler of [__fetchLocation] posts one response for a
    request, as its last message, with the handle and the identifier of
    the request; before it there is nothing, or one rate-limit
    message. *)
Theorem answer_posts_one_response (now : Z) (screenName : string)
        (requestId : RequestId) (fetched : Fetched) :
  exists info location,
    answer now screenName requestId fetched
    = info ++ [PostedLocation screenName location requestId]
    /\ (info = []
        \/ exists resetTime waitTime, info = [PostedRateLimit resetTime waitTime]).
Proof.
  unfold answer. destruct fetched as [|response].
  - exists [], None. split; [reflexivity|left; reflexivity].
  - destruct (ok response).
    + destruct (body response) as [data|].
      * exists [], (accountBasedIn data). split; [reflexivity|left; reflexivity].
      * exists [], None. split; [reflexivity|left; reflexivity].
    + eexists. exists None. split; [reflexivity|].
      destruct (status response =? 429); [|left; reflexivity].
      destruct (rateLimitReset response) as [r|]; [|left; reflexivity].
      destruct (negb (String.eqb r "")); [|left; reflexivity].
      right. eauto.
Qed.

(** X18. The rate-limit message is posted exactly for a response of
    status 429 that has a header [x-rate-limit-reset] which is not
    empty. Its reset time is [parseInt] of the header as the engine has
    it: the integer the header spells when that is below 2^53, and a
    rounded number beyond. Its wait is the time from [now] to the reset,
    in milliseconds, or zero when the reset is past, and [NaN] when the
    header spells no integer or the reset is no valid date. *)
Theorem rate_limit_info_iff (now : Z) (screenName : string)
        (requestId : RequestId) (fetched : Fetched)
        (resetTime waitTime : Number) :
  In (PostedRateLimit resetTime waitTime)
     (answer now screenName requestId fetched) <->
  exists response header,
    fetched = Answered response
    /\ status response = 429
    /\ rateLimitReset response = Some header
    /\ header <> ""
    /\ resetTime = parseInt header
    /\ waitTime
       = match parseInt header with
         | Exact reset =>
             if Z.abs (reset * 1000) <=? 8640000000000000
             then number (Z.max 0 (reset * 1000 - now))
             else NaN
         | NaN | Beyond _ => NaN
         end.
Proof.
  assert (Hw : forall x : Number,
             atLeastZero (elapse (timeClip (thousandfold x)) now)
             = match x with
               | Exact reset =>
                   if Z.abs (reset * 1000) <=? 8640000000000000
                   then number (Z.max 0 (reset * 1000 - now))
                   else NaN
               | NaN | Beyond _ => NaN
               end).
  { intros [|reset|positive]; [reflexivity| |reflexivity].
    unfold thousandfold, number.
    destruct (Z.abs (reset * 1000) <? 9007199254740992) eqn:E1.
    - simpl. destruct (Z.abs (reset * 1000) <=? 8640000000000000) eqn:E2;
        [|reflexivity].
      unfold elapse, number.
      destruct (Z.abs (reset * 1000 - now) <? 9007199254740992) eqn:E3.
      + simpl. assert (E4 : (Z.abs (Z.max 0 (reset * 1000 - now))
                              <? 9007199254740992) = true).
        { apply Z.ltb_lt. apply Z.ltb_lt in E3. lia. }
        rewrite E4. reflexivity.
      + apply Z.ltb_ge in E3.
        destruct (0 <? reset * 1000 - now) eqn:E5.
        * apply Z.ltb_lt in E5. simpl.
          assert (E4 : (Z.abs (Z.max 0 (reset * 1000 - now))
                        <? 9007199254740992) = false)
            by (apply Z.ltb_ge; lia).
          rewrite E4.
          assert (E6 : (0 <? Z.max 0 (reset * 1000 - now)) = true)
            by (apply Z.ltb_lt; lia).
          rewrite E6. reflexivity.
        * apply Z.ltb_ge in E5. simpl.
          replace (Z.max 0 (reset * 1000 - now)) with 0 by lia. reflexivity.
    - simpl. apply Z.ltb_ge in E1.
      destruct (Z.abs (reset * 1000) <=? 8640000000000000) eqn:E2;
        [apply Z.leb_le in E2; lia|reflexivity]. }
  unfold answer. split.
  - destruct fetched as [|response]; [intros [H|[]]; discriminate|].
    destruct (ok response) eqn:Eok.
    { destruct (body response); intros [H|[]]; discriminate. }
    destruct (status response =? 429) eqn:Es;
      [|intros [H|[]]; discriminate].
    apply Z.eqb_eq in Es.
    destruct (rateLimitReset response) as [r|] eqn:Er;
      [|intros [H|[]]; discriminate].
    destruct (String.eqb r "") eqn:Ee; simpl;
      [intros [H|[]]; discriminate|].
    apply String.eqb_neq in Ee.
    intros [H|[H|[]]]; [|discriminate]. injection H as <- <-.
    exists response, r. rewrite Hw. repeat split; auto.
  - intros (response & header & -> & Hs & Hr & Hne & -> & ->).
    assert (Hok : ok response = false).
    { unfold ok. rewrite Hs. reflexivity. }
    rewrite Hok, Hs, Hr. simpl.
    apply String.eqb_neq in Hne. rewrite Hne. simpl. left.
    rewrite Hw. reflexivity.
Qed.

(** X19. The response carries a location other than [null] exactly
    when the status of the response is between 200 and 299, its body is
    JSON, and the value at
    [data.user_result_by_screen_name.result.about_profile.account_based_in]
    is truthy; the location is that value. *)
Theorem location_iff (now : Z) (screenName name : string)
        (requestId rid : RequestId) (fetched : Fetched) (value : Json) :
  In (PostedLocation name (Some value) rid)
     (answer now screenName requestId fetched) <->
  name = screenName /\ rid = requestId
  /\ exists response data,
      fetched = Answered response
      /\ 200 <= status response <= 299
      /\ body response = Some data
      /\ member "account_based_in"
           (member "about_profile"
              (member "result"
                 (member "user_result_by_screen_name"
                    (member "data" (Some data))))) = Some value
      /\ truthyJson (Some value) = true.
Proof.
  unfold answer. split.
  - destruct fetched as [|response]; [intros [H|[]]; discriminate|].
    destruct (ok response) eqn:Eok.
    + destruct (body response) as [data|] eqn:Eb;
        [|intros [H|[]]; discriminate].
      intros [H|[]]. injection H as <- Hv <-.
      split; [reflexivity|]. split; [reflexivity|].
      exists response, data. split; [reflexivity|].
      unfold ok in Eok. apply andb_true_iff in Eok as [E1 E2].
      apply Z.leb_le in E1, E2. split; [lia|]. split; [exact Eb|].
      unfold accountBasedIn in Hv.
      destruct (truthyJson _) eqn:Et; [|discriminate].
      rewrite Hv in Et. auto.
    + intros H. apply in_app_iff in H as [H|[H|[]]]; [|discriminate].
      destruct (status response =? 429); [|contradiction].
      destruct (rateLimitReset response) as [r|]; [|contradiction].
      destruct (negb (String.eqb r "")); [|contradiction].
      destruct H as [H|[]]. discriminate.
  - intros (-> & -> & response & data & -> & Hs & Hb & Hv & Ht).
    assert (Hok : ok response = true).
    { unfold ok. apply andb_true_iff. split; apply Z.leb_le; lia. }
    rewrite Hok, Hb. left. unfold accountBasedIn. rewrite Hv, Ht. reflexivity.
Qed.

(** X20. The request of a lookup goes through the replacement of
    [window.fetch] the script itself installed: whatever happened to the
    page script before, after a lookup whose address could be built the
    headers count as ready, and the headers captured are the ones the
    lookup was made with. *)
Theorem own_lookup_is_captured (events : list PageEvent)
        (now : Z) (screenName : string) (requestId : RequestId)
        (variables : string) (fetched : Fetched) :
  headersReady
    (fst (onFetchLocation now screenName requestId (Some variables) fetched
                          (pageRun events start)))
  = true
  /\ requestHeaders
       (fst (onFetchLocation now screenName requestId (Some variables)
                             fetched (pageRun events start)))
     = requestHeaders (pageRun events start).
Proof.
  pose proof (clean_pageRun events start clean_start) as Hc.
  set (p := pageRun events start) in *.
  unfold onFetchLocation. cbn [fst]. unfold fetchHook.
  rewrite endpoint_is_graphql. simpl. split; [reflexivity|].
  unfold requestHeaders at 1. simpl. apply copyEntries_clean.
  unfold requestHeaders. destruct (twitterHeaders p) as [h|] eqn:Eh.
  - apply Hc. exact Eh.
  - reflexivity.
Qed.

(** X21. [send] on a request to the GraphQL address replaces what was
    captured by the headers set on that request with
    [setRequestHeader], whatever was captured before; when none was set
    the next lookup goes out with no header at all, not with the
    defaults. *)
Theorem xhr_send_replaces_headers (x : Xhr) (p : Page) (u : string) :
  _url x = UrlString u ->
  Js.includes u GRAPHQL = true ->
  exists p1,
    xhrSend x p = Some p1
    /\ headersReady p1 = true
    /\ (forall k : string,
          requestHeaders p1 !! k
          = if String.eqb k "__proto__" then None
            else default ∅ (_headers x) !! k)
    /\ (_headers x = None -> requestHeaders p1 = ∅).
Proof.
  intros Hu Hg. unfold xhrSend. rewrite Hu, Hg. eexists.
  split; [reflexivity|]. simpl. split; [reflexivity|].
  unfold requestHeaders. simpl. split.
  - intros k. rewrite !copyEntries_lookup.
    destruct (String.eqb k "__proto__"); reflexivity.
  - intros ->. reflexivity.
Qed.

Lemma xhr_send_replaces_headers_witness :
  _url (xhrOpen (UrlString "https://x.com/i/api/graphql/q") newXhr)
  = UrlString "https://x.com/i/api/graphql/q"
  /\ exists p1,
      xhrSend (xhrOpen (UrlString "https://x.com/i/api/graphql/q") newXhr)
              (useDefaults start) = Some p1
      /\ headersReady p1 = true.
Proof.
  refine (conj _ _); [reflexivity|].
  refine (match xhr_send_replaces_headers
                  (xhrOpen (UrlString "https://x.com/i/api/graphql/q") newXhr)
                  (useDefaults start) "https://x.com/i/api/graphql/q" _ _ with
          | ex_intro _ p1 (conj H1 (conj H2 _)) =>
              ex_intro _ p1 (conj H1 H2)
          end).
  - reflexivity.
  - vm_compute. reflexivity.
Defined.

Lemma waitLoop_spec ready remaining :
  forall waitCount,
    (waitCount <= waitLoop ready waitCount remaining <= waitCount + remaining)%nat
    /\ (forall k, (waitCount <= k < waitLoop ready waitCount remaining)%nat ->
                  ready k = false)
    /\ ((waitLoop ready waitCount remaining < waitCount + remaining)%nat ->
        ready (waitLoop ready waitCount remaining) = true).
Proof.
  induction remaining as [|r IH]; intros w; simpl.
  - split; [lia|]. split; [intros k Hk; lia|intros Hlt; lia].
  - destruct (ready w) eqn:Ew.
    + split; [lia|]. split; [intros k Hk; lia|intros _; exact Ew].
    + destruct (IH (S w)) as (H1 & H2 & H3). split; [lia|]. split.
      * intros k Hk. destruct (Nat.eq_dec k w) as [->|Hne]; [exact Ew|].
        apply H2. lia.
      * intros Hlt. apply H3. lia.
Qed.

(** X22. The handler waits for the headers thirty times at most, that
    is three seconds, and then goes on whether they are ready or not;
    it stops waiting at the first test that finds them ready. *)
Theorem waitForHeaders_spec (ready : nat -> bool) :
  (waitForHeaders ready <= 30)%nat
  /\ (forall k, (k < waitForHeaders ready)%nat -> ready k = false)
  /\ ((waitForHeaders ready < 30)%nat -> ready (waitForHeaders ready) = true).
Proof.
  unfold waitForHeaders. destruct (waitLoop_spec ready 30 0) as (H1 & H2 & H3).
  split; [lia|]. split; [intros k Hk; apply H2; lia|].
  intros Hlt. apply H3. lia.
Qed.

End PageFacts.

(** ** The two scripts together *)

Module Bridge.

Import Dom Scan Content Terms Frames QueueView QueueInv Settlements TimerFacts.
Import QueueFacts Sample PageScript PageFacts.

Lemma settle_rateLimit cb v s :
  rateLimitResetTime (settle cb v s) = rateLimitResetTime s.
Proof.
  unfold settle. destruct (settled s !! cb); [reflexivity|].
  match goal with
  | |- rateLimitResetTime (List.fold_left ?f ?l ?s0) = _ =>
      apply (fold_left_keeps
               (fun st => rateLimitResetTime st = rateLimitResetTime s) f l);
        [|reflexivity]
  end.
  intros a st H.
  pose proof (finish_queuePart (onElement a) (onName a) v st) as E.
  unfold queuePart in E. congruence.
Qed.

Lemma onResponse_rateLimit l answer s :
  rateLimitResetTime (onResponse l answer s) = rateLimitResetTime s.
Proof.
  unfold onResponse. rewrite settle_rateLimit. unfold saveCacheEntry. simpl.
  destruct (saveTimeout s); reflexivity.
Qed.

Lemma runJobs_rateLimit s : rateLimitResetTime (runJobs s) = rateLimitResetTime s.
Proof.
  pose proof (runJobs_queuePart s) as E. unfold queuePart in E. congruence.
Qed.

Lemma notify_rateLimit before s :
  rateLimitResetTime (notify before s) = rateLimitResetTime s.
Proof.
  pose proof (notify_queuePart before s) as E. unfold queuePart in E.
  congruence.
Qed.

Lemma runJobs_listeners s : listeners (runJobs s) = listeners s.
Proof.
  pose proof (runJobs_queuePart s) as E. unfold queuePart in E. congruence.
Qed.

Lemma notify_listeners before s : listeners (notify before s) = listeners s.
Proof.
  pose proof (notify_queuePart before s) as E. unfold queuePart in E.
  congruence.
Qed.

(** X23. The two scripts together, on a lookup the server refuses with
    status 429 and a reset time that is an integer below 2^53: the page
    script posts the reset time and a response without location; when
    the content script has received both, it holds the reset time in
    [rateLimitResetTime], the promise of the lookup is resolved with
    [null], and [null] is cached for the handle. *)
Theorem refused_lookup_is_cached_as_null (doc : list Node) (url : string)
        (trace : list Tick) (s : State) (l : Listener) (response : Response)
        (header : string) (reset now t1 t2 : Z) (r1 r2 : N) :
  run trace (boot doc url) = Some s ->
  booted s = true ->
  In l (listeners s) ->
  status response = 429 ->
  rateLimitReset response = Some header ->
  header <> "" ->
  parseInt header = Exact reset ->
  clock s <= t1 -> t1 <= t2 ->
  exists waitTime,
    answer now (forName l) (forRequest l) (Answered response)
    = [PostedRateLimit (Exact reset) waitTime;
       PostedLocation (forName l) None (forRequest l)]
    /\ forall m1 m2,
         Reads (PostedRateLimit (Exact reset) waitTime) m1 ->
         Reads (PostedLocation (forName l) None (forRequest l)) m2 ->
         exists s1 s2,
           step t1 r1 (Receive true m1) s = Some s1
           /\ step t2 r2 (Receive true m2) s1 = Some s2
           /\ rateLimitResetTime s2 = reset
           /\ settled s2 !! forCallback l = Some (Resolved None)
           /\ locationCache s2 !! forName l = Some None.
Proof.
  intros Hrun Hboot Hin Hs Hr Hne Hp Ht1 Ht2.
  pose proof (inv_run trace _ _ (inv_boot doc url) Hrun) as HI.
  eexists. split.
  { unfold answer, ok. rewrite Hs, Hr. simpl.
    apply String.eqb_neq in Hne. rewrite Hne. simpl. rewrite Hp. reflexivity. }
  intros m1 m2 Hm1 Hm2.
  inversion Hm1 as [reset1 waitTime1 wait E1 E2| |]; subst. clear Hm1.
  inversion Hm2 as [|name1 rid1 E1 E2|]; subst. clear Hm2.
  set (m1 := RateLimitInfo reset wait).
  set (m2 := LocationResponse (forName l) None (forRequest l)).
  set (s1 := notify (nextUid s) (runJobs (receive true m1 (set_clock t1 s)))).
  set (s2 := notify (nextUid s1)
                    (runJobs (receive true m2 (set_clock t2 s1)))).
  assert (Hstep1 : step t1 r1 (Receive true m1) s = Some s1).
  { unfold step. destruct (t1 <? clock s) eqn:E; [apply Z.ltb_lt in E; lia|].
    reflexivity. }
  assert (Hc1 : clock s1 = t1).
  { unfold s1. rewrite ?notify_clock, runJobs_clock, receive_clock. reflexivity. }
  assert (Hstep2 : step t2 r2 (Receive true m2) s1 = Some s2).
  { unfold step. rewrite Hc1.
    destruct (t2 <? t1) eqn:E; [apply Z.ltb_lt in E; lia|]. reflexivity. }
  pose proof (inv_step _ _ _ _ _ HI Hstep1) as HI1.
  assert (Hrecv : receive true m1 (set_clock t1 s)
                  = set_rateLimitResetTime reset (set_clock t1 s)).
  { unfold receive, m1. simpl. rewrite Hboot. reflexivity. }
  assert (Hl1 : listeners s1 = listeners s).
  { unfold s1. rewrite ?notify_listeners, runJobs_listeners, Hrecv. reflexivity. }
  assert (Hr1 : rateLimitResetTime s1 = reset).
  { unfold s1. rewrite ?notify_rateLimit, runJobs_rateLimit, Hrecv. reflexivity. }
  assert (Hin1 : In l (listeners s1)) by (rewrite Hl1; exact Hin).
  pose proof (inv_unsettled s1 l HI1 Hin1) as Hnone.
  set (ls := List.filter (matches (forName l) (forRequest l)) (listeners s1)).
  assert (Hl : In l ls).
  { apply List.filter_In. split; [exact Hin1|]. unfold matches.
    rewrite String.eqb_refl, bool_decide_eq_true_2 by reflexivity. reflexivity. }
  exists s1, s2.
  split; [exact Hstep1|]. split; [exact Hstep2|]. split; [|split].
  - unfold s2. rewrite ?notify_rateLimit, runJobs_rateLimit. unfold receive, m2. simpl.
    fold ls.
    apply (fold_left_keeps (fun st => rateLimitResetTime st = reset)); [|exact Hr1].
    intros a st H. rewrite onResponse_rateLimit. exact H.
  - unfold s2. rewrite ?notify_settled, runJobs_settled. unfold receive, m2. simpl. fold ls.
    apply (responses_settled (forCallback l) None ls (set_clock t2 s1)).
    + left. exact Hnone.
    + left. apply in_map. exact Hl.
  - unfold s2. rewrite ?notify_cache, runJobs_cache. unfold receive, m2. simpl. fold ls.
    apply (responses_cache (forName l) None ls (set_clock t2 s1)).
    + intros E. rewrite E in Hl. contradiction.
    + intros l1 Hl1'. apply List.filter_In in Hl1' as [_ Hm]. unfold matches in Hm.
      apply andb_true_iff in Hm as [Hm _]. apply String.eqb_eq in Hm. exact Hm.
Qed.

Lemma refused_lookup_is_cached_as_null_witness :
  run firstScan (boot twoCells home) = Some (after firstScan twoCells)
  /\ parseInt "1700000900" = Exact 1700000900
  /\ exists waitTime,
      answer (t0 + 2400) "alice" (t0 + 2000, 7%N)
             (Answered {| status := 429; rateLimitReset := Some "1700000900";
                          body := None |})
      = [PostedRateLimit (Exact 1700000900) waitTime;
         PostedLocation "alice" None (t0 + 2000, 7%N)].
Proof.
  refine (conj _ _); [vm_compute; reflexivity|].
  refine (conj _ _); [vm_compute; reflexivity|].
  refine (match refused_lookup_is_cached_as_null
                  twoCells home firstScan (after firstScan twoCells)
                  {| forName := "alice"; forRequest := (t0 + 2000, 7%N);
                     forCallback := 0 |}
                  {| status := 429; rateLimitReset := Some "1700000900";
                     body := None |}
                  "1700000900" 1700000900 (t0 + 2400) (t0 + 2500) (t0 + 2500)
                  0%N 0%N _ _ _ _ _ _ _ _ _ with
          | ex_intro _ waitTime (conj H1 _) => ex_intro _ waitTime H1
          end).
  - vm_compute. reflexivity.
  - vm_compute. reflexivity.
  - vm_compute. left. reflexivity.
  - reflexivity.
  - reflexivity.
  - discriminate.
  - vm_compute. reflexivity.
  - vm_compute. discriminate.
  - vm_compute. discriminate.
Defined.

End Bridge.

(** ** The marks of the containers *)

Module MarkFacts.

Import Dom Scan Content Terms Paths Marks Frames TreeFacts AnnotateFacts Sample.

Lemma under_elems l : forall i, List.map snd (under i l) = List.flat_map elems l.
Proof.
  induction l as [|k l IH]; intros i; simpl; [reflexivity|].
  destruct k as [u t a kids|d]; simpl; [|apply IH].
  f_equal. rewrite List.map_app, List.map_map. simpl. rewrite IH. reflexivity.
Qed.

Lemma elems_element u t a kids :
  elems (Element u t a kids)
  = Element u t a kids :: List.flat_map elems kids.
Proof.
  unfold elems. rewrite descendants_under, under_elems. reflexivity.
Qed.

Lemma elementsOf_elems doc : elementsOf doc = List.flat_map elems doc.
Proof. reflexivity. Qed.

Lemma byUid_find u doc : byUid u doc = List.find (hasUid u) (List.flat_map elems doc).
Proof. reflexivity. Qed.

Lemma hasUid_element u n : hasUid u n = true -> exists v t a kids, n = Element v t a kids.
Proof. destruct n as [v t a kids|d]; [eauto|discriminate]. Qed.

Lemma carried_app u f b1 a1 b2 a2 :
  Carried u f b1 a1 -> Carried u f b2 a2 -> Carried u f (b1 ++ b2) (a1 ++ a2).
Proof.
  unfold Carried. rewrite !find_over_app.
  destruct (List.find (hasUid u) b1).
  - intros (n1 & H1 & H2) _. exists n1. rewrite H2. auto.
  - intros H1. rewrite H1. auto.
Qed.

Lemma carried_node u f :
  (forall n, hasUid u n = true -> hasUid u (f n) = true) ->
  forall n, Carried u f (elems n) (elems (mapUid u f n)).
Proof.
  intros Hf. induction n as [d|v t a kids IH] using node_induction;
    [reflexivity|].
  assert (Hkids : Carried u f (List.flat_map elems kids)
                          (List.flat_map elems (List.map (mapUid u f) kids))).
  { induction kids as [|k kids IHk]; [reflexivity|]. simpl.
    inversion IH as [|? ? Hk Hrest]; subst.
    apply carried_app; [exact Hk|apply IHk; exact Hrest]. }
  simpl mapUid. destruct (sameIdent v u) eqn:Ev.
  - unfold Carried. rewrite elems_element. simpl. unfold hasUid at 1. simpl.
    rewrite Ev.
    exists (Element v t a (List.map (mapUid u f) kids)).
    assert (H1 : hasUid u (Element v t a (List.map (mapUid u f) kids)) = true)
      by (unfold hasUid; simpl; exact Ev).
    split; [exact H1|].
    pose proof (Hf _ H1) as H2.
    destruct (hasUid_element _ _ H2) as (v2 & t2 & a2 & k2 & E2).
    rewrite E2 in *. rewrite elems_element. simpl. rewrite H2. reflexivity.
  - unfold Carried in *. rewrite !elems_element. simpl.
    assert (H0 : forall k, hasUid u (Element v t a k) = false)
      by (intros k; unfold hasUid; simpl; exact Ev).
    rewrite !H0. exact Hkids.
Qed.

Lemma carried_page u f doc :
  (forall n, hasUid u n = true -> hasUid u (f n) = true) ->
  Carried u f (List.flat_map elems doc)
          (List.flat_map elems (List.map (mapUid u f) doc)).
Proof.
  intros Hf. induction doc as [|n doc IH]; [reflexivity|]. simpl.
  apply carried_app; [apply carried_node; exact Hf|exact IH].
Qed.

(** The container of an identity after the page has mapped it. *)
Lemma byUid_mapUid u f doc c :
  (forall n, hasUid u n = true -> hasUid u (f n) = true) ->
  byUid u doc = Some c ->
  exists n1, hasUid u n1 = true
             /\ byUid u (List.map (mapUid u f) doc) = Some (f n1).
Proof.
  intros Hf Hc. pose proof (carried_page u f doc Hf) as H.
  unfold Carried in H. rewrite <- !byUid_find in H. rewrite Hc in H. exact H.
Qed.

Lemma byUid_hasUid u doc c : byUid u doc = Some c -> hasUid u c = true.
Proof.
  rewrite byUid_find. intros H. apply List.find_some in H as [_ H]. exact H.
Qed.

Lemma hasUid_setFlagAdded u v n : hasUid u (setFlagAdded v n) = hasUid u n.
Proof. destruct n; reflexivity. Qed.

Lemma uidOf_updateAt p f n :
  (forall m, uidOf (f m) = uidOf m) -> uidOf (updateAt p f n) = uidOf n.
Proof.
  intros Hf. destruct p as [|i p]; simpl; [apply Hf|]. destruct n; reflexivity.
Qed.

Lemma uidOf_insertAfterChild i new n : uidOf (insertAfterChild i new n) = uidOf n.
Proof. destruct n; reflexivity. Qed.

Lemma hasUid_annotate u name loc fresh c :
  hasUid u (fst (annotate name loc fresh c)) = hasUid u c.
Proof.
  destruct (annotate_cases name loc fresh c)
    as [E|[(p & i & link & parent & q & m & _ & _ & _ & E)
          |(p & i & link & parent & _ & _ & _ & E)]]; rewrite E; cbn [fst];
    rewrite hasUid_setFlagAdded; try reflexivity.
  unfold hasUid. rewrite uidOf_updateAt; [reflexivity|].
  intros m. apply uidOf_insertAfterChild.
Qed.

Lemma page_drain rand queue : forall s, page (drain rand queue s) = page s.
Proof.
  induction queue as [|item rest IH]; intros s; simpl; [reflexivity|].
  destruct (activeRequests s <? MAX_CONCURRENT_REQUESTS); [|reflexivity].
  destruct (_ <? MIN_REQUEST_INTERVAL); [reflexivity|].
  rewrite IH. reflexivity.
Qed.

Lemma page_getUserLocation name rand s :
  page (fst (getUserLocation name rand s)) = page s.
Proof.
  unfold getUserLocation. destruct (locationCache s !! name); [reflexivity|].
  simpl. unfold processRequestQueue. destruct (_ || _); [reflexivity|].
  destruct (_ && _); [reflexivity|]. rewrite page_drain.
  destruct (_ >? 0); reflexivity.
Qed.

Lemma page_addFlagToUsername uid name rand s c :
  byUid uid (page s) = Some c -> isDone (flagAdded c) = false ->
  page (addFlagToUsername uid name rand s)
  = List.map (mapUid uid (setFlagAdded "processing")) (page s).
Proof.
  intros Hc Hd. unfold addFlagToUsername. rewrite Hc, Hd.
  match goal with
  | |- context [getUserLocation name rand ?s1] =>
      pose proof (page_getUserLocation name rand s1) as H;
        destruct (getUserLocation name rand s1) as [s2 [v|cb]]
  end; simpl in H; simpl; exact H.
Qed.

(** X27. A container whose lookup [addFlagToUsername] has started is
    marked [processing] on the page, and a scan that comes to it again
    leaves it alone and asks for nothing: the state is unchanged. *)
Theorem container_under_way_is_skipped (uid : Ident) (name : string)
        (rand rand2 : N) (s : State) (c : Node) :
  byUid uid (page s) = Some c ->
  isDone (flagAdded c) = false ->
  (exists c1,
      byUid uid (page (addFlagToUsername uid name rand s)) = Some c1
      /\ flagAdded c1 = Some "processing")
  /\ scanContainer rand2 (addFlagToUsername uid name rand s) uid
     = addFlagToUsername uid name rand s.
Proof.
  intros Hc Hd.
  destruct (byUid_mapUid uid (setFlagAdded "processing") (page s) c)
    as (n1 & Hn1 & Hfind); [|exact Hc|].
  { intros n Hn. rewrite hasUid_setFlagAdded. exact Hn. }
  rewrite <- (page_addFlagToUsername uid name rand s c Hc Hd) in Hfind.
  destruct (hasUid_element _ _ Hn1) as (v & t & a & kids & ->).
  assert (Hmark : flagAdded (setFlagAdded "processing" (Element v t a kids))
                  = Some "processing") by apply flagAdded_set.
  split.
  - eexists. split; [exact Hfind|exact Hmark].
  - unfold scanContainer. rewrite Hfind, Hmark.
    destruct (extractUsername _); reflexivity.
Qed.

Lemma container_under_way_is_skipped_witness :
  byUid (Host 10) (page (boot twoCells home)) = Some (cell 10 "alice")
  /\ scanContainer 0%N (addFlagToUsername (Host 10) "alice" 7%N
                                          (boot twoCells home)) (Host 10)
     = addFlagToUsername (Host 10) "alice" 7%N (boot twoCells home).
Proof.
  refine (conj _ _); [vm_compute; reflexivity|].
  refine (proj2 (container_under_way_is_skipped
                   (Host 10) "alice" 7%N 0%N (boot twoCells home)
                   (cell 10 "alice") _ _)).
  - vm_compute. reflexivity.
  - vm_compute. reflexivity.
Defined.

(** X28. When the lookup of a container that is still on the page has
    settled with a string or with [null], and the handle is
    [plainHandle], [addFlagToUsername] leaves the container there with
    the mark [true] or [failed]: such a lookup leaves no [processing]
    behind. *)
Theorem settled_lookup_leaves_final_mark (uid : Ident) (name : string)
        (loc : option string) (s : State) (c : Node) :
  plainHandle name = true ->
  byUid uid (page s) = Some c ->
  exists c1,
    byUid uid (page (finish uid name loc s)) = Some c1
    /\ c1 = fst (annotate name loc (nextUid s) c)
    /\ (flagAdded c1 = Some "true" \/ flagAdded c1 = Some "failed").
Proof.
  intros _ Hc. pose proof (byUid_hasUid _ _ _ Hc) as Hu.
  set (r := annotate name loc (nextUid s) c).
  destruct (byUid_mapUid uid (fun _ => fst r) (page s) c)
    as (n1 & _ & Hfind); [|exact Hc|].
  { intros n _. unfold r. rewrite hasUid_annotate. exact Hu. }
  assert (Hpage : page (finish uid name loc s)
                  = List.map (mapUid uid (fun _ => fst r)) (page s)).
  { unfold finish. rewrite Hc. fold r. destruct (snd r); reflexivity. }
  exists (fst r). rewrite Hpage. split; [exact Hfind|]. split; [reflexivity|].
  destruct (hasUid_element _ _ Hu) as (v & t & a & kids & E).
  unfold r. rewrite E. apply annotate_final.
Qed.

Lemma settled_lookup_leaves_final_mark_witness :
  plainHandle "alice" = true
  /\ byUid (Host 10) (page (boot twoCells home)) = Some (cell 10 "alice")
  /\ exists c1,
      byUid (Host 10) (page (finish (Host 10) "alice" (Some "France")
                                    (boot twoCells home))) = Some c1
      /\ (flagAdded c1 = Some "true" \/ flagAdded c1 = Some "failed").
Proof.
  refine (conj _ _); [vm_compute; reflexivity|].
  refine (conj _ _); [vm_compute; reflexivity|].
  refine (match settled_lookup_leaves_final_mark
                  (Host 10) "alice" (Some "France") (boot twoCells home)
                  (cell 10 "alice") _ _ with
          | ex_intro _ c1 (conj H1 (conj _ H3)) =>
              ex_intro _ c1 (conj H1 H3)
          end).
  - vm_compute. reflexivity.
  - vm_compute. reflexivity.
Defined.

End MarkFacts.

(** ** The request queue: identifiers *)

Module RequestIds.

Import Dom Scan Content Terms Posting Frames QueueView QueueInv PostingInv Sample.

Lemma posted_run trace :
  forall s s1,
    (forall m, In m (posted s) ->
               exists name rand, m = (fst m, FetchLocation name (fst m, rand))) ->
    run trace s = Some s1 ->
    forall m, In m (posted s1) ->
              exists name rand, m = (fst m, FetchLocation name (fst m, rand)).
Proof.
  induction trace as [|[[now rand] e] trace IH]; simpl; intros s s1 Hs Hrun.
  - injection Hrun as <-. exact Hs.
  - destruct (step now rand e s) as [s2|] eqn:Es; [|discriminate].
    apply (IH s2 s1); [|exact Hrun].
    destruct (adds_step _ _ _ _ _ Es) as (_ & new & Hp & Hnew).
    simpl in Hp, Hnew. intros m Hm. rewrite Hp in Hm.
    apply in_app_iff in Hm as [Hm|Hm]; [|auto].
    destruct (Hnew m Hm) as (name & ->). simpl. eauto.
Qed.

Lemma spaced_below (t : Z) (l : list Z) :
  Spaced (t :: l) -> forall x, In x l -> x + MIN_REQUEST_INTERVAL <= t.
Proof.
  revert t. induction l as [|t2 l IH]; intros t Hs x Hx; [contradiction|].
  destruct Hs as [Hhd Htl]. destruct Hx as [<-|Hx]; [exact Hhd|].
  specialize (IH t2 Htl x Hx). unfold MIN_REQUEST_INTERVAL in *. lia.
Qed.

Lemma spaced_nodup (l : list Z) : Spaced l -> List.NoDup l.
Proof.
  induction l as [|t l IH]; intros Hs; [constructor|].
  constructor; [|apply IH; destruct Hs as [_ Hs]; exact Hs].
  intros Hin. pose proof (spaced_below t l Hs t Hin) as H.
  unfold MIN_REQUEST_INTERVAL in H. lia.
Qed.

Lemma nodup_map_same {A B} (f : A -> B) (l : list A) a b :
  List.NoDup (List.map f l) -> In a l -> In b l -> f a = f b -> a = b.
Proof.
  induction l as [|x l IH]; simpl; intros Hnd Ha Hb Heq; [contradiction|].
  apply List.NoDup_cons_iff in Hnd as [Hnot Hnd].
  destruct Ha as [<-|Ha], Hb as [<-|Hb]; auto.
  - exfalso. apply Hnot. rewrite Heq. apply in_map. exact Hb.
  - exfalso. apply Hnot. rewrite <- Heq. apply in_map. exact Ha.
Qed.

(** X29. The content script posts nothing but requests, each with the
    time of its posting as the first part of its identifier, and it
    never uses an identifier twice: two requests it has posted with the
    same identifier are one request. *)
Theorem request_ids_are_never_reused (doc : list Node) (url : string)
        (trace : list Tick) (s : State) :
  run trace (boot doc url) = Some s ->
  (forall t m, In (t, m) (posted s) ->
               exists name rand, m = FetchLocation name (t, rand))
  /\ forall t1 t2 name1 name2 rid,
      In (t1, FetchLocation name1 rid) (posted s) ->
      In (t2, FetchLocation name2 rid) (posted s) ->
      t1 = t2 /\ name1 = name2.
Proof.
  intros Hrun.
  assert (Hshape : forall m, In m (posted s) ->
                     exists name rand,
                       m = (fst m, FetchLocation name (fst m, rand))).
  { apply (posted_run trace (boot doc url) s); [intros m []|exact Hrun]. }
  pose proof (inv_run trace _ _ (inv_boot doc url) Hrun) as HI.
  pose proof (spaced_nodup _ (inv_spaced _ HI)) as Hnd. simpl in Hnd.
  unfold dispatchTimes in Hnd. split.
  - intros t m Hm. destruct (Hshape _ Hm) as (name & rand & E).
    simpl in E. injection E as E. eauto.
  - intros t1 t2 name1 name2 rid H1 H2.
    destruct (Hshape _ H1) as (n1 & r1 & E1).
    destruct (Hshape _ H2) as (n2 & r2 & E2). simpl in E1, E2.
    injection E1 as _ E1. injection E2 as _ E2.
    assert (Ht : t1 = t2) by congruence.
    pose proof (nodup_map_same fst (posted s) _ _ Hnd H1 H2 Ht) as E.
    split; [exact Ht|]. congruence.
Qed.

Lemma request_ids_are_never_reused_witness :
  run (limited ++ pauseEnds) (boot twoCells home)
  = Some (after (limited ++ pauseEnds) twoCells)
  /\ List.length (posted (after (limited ++ pauseEnds) twoCells)) = 2%nat
  /\ forall t m, In (t, m) (posted (after (limited ++ pauseEnds) twoCells)) ->
                 exists name rand, m = FetchLocation name (t, rand).
Proof.
  refine (conj _ _); [vm_compute; reflexivity|].
  refine (conj _ _); [vm_compute; reflexivity|].
  refine (proj1 (request_ids_are_never_reused
                   twoCells home (limited ++ pauseEnds)
                   (after (limited ++ pauseEnds) twoCells) _)).
  vm_compute. reflexivity.
Defined.

End RequestIds.
